(** * guiGL: the window's render coordinator and event thread

    A shallow embedding of [win/win.go] (the window with the extra
    OpenGL submission channel) and of its sibling without that channel
    (the second [package win] file of the repository, whose flush routine
    is [openGLFlush]), together with the parts of Go's [image],
    [image/draw], OpenGL and GLFW interfaces that the two files call.

    Layout: the library models come first ([goint], [image], [draw],
    [gl], [glfw]), then the repository's own code ([win], [winflush],
    [sys]), then the lemmas and the theorems about it. *)

From Stdlib Require Import ZArith List Lia Bool.
From Stdlib Require SpecFloat.
From stdpp Require Import base list list_numbers gmap strings.
Import ListNotations.

Local Open Scope Z_scope.

(** ** Go's machine integers *)

Module goint.

(** Two's complement wrap-around of a [w]-bit signed integer. *)
Definition wrap (w : Z) (z : Z) : Z :=
  (z + 2 ^ (w - 1)) mod 2 ^ w - 2 ^ (w - 1).

(** Go's [int] is 64 bits wide on the platforms GLFW runs on. *)
Definition int (z : Z) : Z := wrap 64 z.
Definition int32 (z : Z) : Z := wrap 32 z.

Definition in_int (z : Z) : Prop := - 2 ^ 63 <= z < 2 ^ 63.

Definition mul (a b : Z) : Z := int (a * b).

(** [a / b] for a divisor known to be non-zero. *)
Definition quot (a b : Z) : Z := int (Z.quot a b).
Definition sub32 (a b : Z) : Z := int32 (a - b).

(** [a / b] on [int]: truncated towards zero; a zero divisor panics
    ([None]). *)
Definition quo (a b : Z) : option Z :=
  if b =? 0 then None else Some (quot a b).

(** A [float64] by sign, mantissa and exponent: [S754_finite s m e] is
    the number [(-1)^s * m * 2^e]. *)
Definition float64 := SpecFloat.spec_float.

(** What the conversion of a [float64] that no [int] represents gives.
    The language leaves it to the implementation; this is amd64's. *)
Definition indefinite : Z := - 2 ^ 63.

(** [int(x)] for a [float64]: the fraction is discarded (truncation
    towards zero). *)
Definition ofFloat64 (x : float64) : Z :=
  match x with
  | SpecFloat.S754_zero _ => 0
  | SpecFloat.S754_finite s m e =>
      let n := if s then Z.neg m else Z.pos m in
      let z := if 0 <=? e then n * 2 ^ e else Z.quot n (2 ^ (- e)) in
      if (- 2 ^ 63 <=? z) && (z <? 2 ^ 63) then z else indefinite
  | _ => indefinite
  end.

End goint.

(** ** Package [image/color] *)

Module color.

(** [color.RGBA]: four 8-bit channels. *)
Record RGBA := RGBA_ { R : Z; G : Z; B : Z; A : Z }.

(** The zero value [color.RGBA{}]: transparent black. *)
Definition zero : RGBA := RGBA_ 0 0 0 0.

End color.

(** ** Package [image]: points, rectangles and RGBA rasters *)

Module image.

Record Point := Pt { X : Z; Y : Z }.

#[global] Instance Point_eq_dec : EqDecision Point.
Proof. solve_decision. Defined.

Record Rectangle := Rectangle_ { Min : Point; Max : Point }.

(** [image.ZR], the zero Rectangle (also the value of [var r Rectangle]). *)
Definition ZR : Rectangle := Rectangle_ (Pt 0 0) (Pt 0 0).

(** [image.Rect(x0, y0, x1, y1)]: swaps the coordinates where needed so
    that the result is well formed. *)
Definition Rect (x0 y0 x1 y1 : Z) : Rectangle :=
  let '(x0, x1) := if x0 >? x1 then (x1, x0) else (x0, x1) in
  let '(y0, y1) := if y0 >? y1 then (y1, y0) else (y0, y1) in
  Rectangle_ (Pt x0 y0) (Pt x1 y1).

Definition Dx (r : Rectangle) : Z := X (Max r) - X (Min r).
Definition Dy (r : Rectangle) : Z := Y (Max r) - Y (Min r).

(** [r.Empty()] *)
Definition Empty (r : Rectangle) : bool :=
  (X (Min r) >=? X (Max r)) || (Y (Min r) >=? Y (Max r)).

(** [r.Intersect(s)]: the largest rectangle contained by both; the zero
    Rectangle when they do not overlap. *)
Definition Intersect (r s : Rectangle) : Rectangle :=
  let x0 := if X (Min r) <? X (Min s) then X (Min s) else X (Min r) in
  let y0 := if Y (Min r) <? Y (Min s) then Y (Min s) else Y (Min r) in
  let x1 := if X (Max r) >? X (Max s) then X (Max s) else X (Max r) in
  let y1 := if Y (Max r) >? Y (Max s) then Y (Max s) else Y (Max r) in
  let r' := Rectangle_ (Pt x0 y0) (Pt x1 y1) in
  if Empty r' then ZR else r'.

(** [r.Union(s)]: the smallest rectangle that contains both; an empty
    operand is ignored. *)
Definition Union (r s : Rectangle) : Rectangle :=
  if Empty r then s
  else if Empty s then r
  else
    let x0 := if X (Min r) >? X (Min s) then X (Min s) else X (Min r) in
    let y0 := if Y (Min r) >? Y (Min s) then Y (Min s) else Y (Min r) in
    let x1 := if X (Max r) <? X (Max s) then X (Max s) else X (Max r) in
    let y1 := if Y (Max r) <? Y (Max s) then Y (Max s) else Y (Max r) in
    Rectangle_ (Pt x0 y0) (Pt x1 y1).

(** [r.In(s)]: every point of [r] is in [s]. *)
Definition In (r s : Rectangle) : bool :=
  if Empty r then true
  else (X (Min s) <=? X (Min r)) && (X (Max r) <=? X (Max s)) &&
       (Y (Min s) <=? Y (Min r)) && (Y (Max r) <=? Y (Max s)).

(** [r.Overlaps(s)]: the two have a point in common. *)
Definition Overlaps (r s : Rectangle) : bool :=
  negb (Empty r) && negb (Empty s) &&
  (X (Min r) <? X (Max s)) && (X (Min s) <? X (Max r)) &&
  (Y (Min r) <? Y (Max s)) && (Y (Min s) <? Y (Max r)).

(** [p.In(r)] *)
Definition PtIn (p : Point) (r : Rectangle) : bool :=
  (X (Min r) <=? X p) && (X p <? X (Max r)) &&
  (Y (Min r) <=? Y p) && (Y p <? Y (Max r)).

Definition PtAdd (p q : Point) : Point := Pt (X p + X q) (Y p + Y q).
Definition PtSub (p q : Point) : Point := Pt (X p - X q) (Y p - Y q).

(** [r.Add(p)]: [r] translated by [p]. *)
Definition Add (r : Rectangle) (p : Point) : Rectangle :=
  Rectangle_ (PtAdd (Min r) p) (PtAdd (Max r) p).

(** The points of [r] in the order Go's drawing loops visit them: row by
    row, left to right. *)
Definition points (r : Rectangle) : list Point :=
  y ← seqZ (Y (Min r)) (Dy r);
  x ← seqZ (X (Min r)) (Dx r);
  [Pt x y].

(** [image.RGBA]: [Pix] holds the pixels as bytes in R, G, B, A order, the
    pixel at [(x, y)] starting at [(y-Rect.Min.Y)*Stride + (x-Rect.Min.X)*4]. *)
Record RGBA := RGBA_ { Pix : list Z; Stride : Z; RGBARect : Rectangle }.

(** [image.NewRGBA(r)]: a zeroed raster of bounds [r].  (Go panics on a
    rectangle of negative width or height; the window code only passes
    rectangles made by [image.Rect] or by a non-empty [Intersect].) *)
Definition NewRGBA (r : Rectangle) : RGBA :=
  RGBA_ (replicate (Z.to_nat (4 * Dx r * Dy r)) 0) (4 * Dx r) r.

(** [p.Bounds()] *)
Definition Bounds (p : RGBA) : Rectangle := RGBARect p.

(** [p.PixOffset(x, y)] *)
Definition PixOffset (p : RGBA) (x y : Z) : Z :=
  (y - Y (Min (RGBARect p))) * Stride p + (x - X (Min (RGBARect p))) * 4.

(** [pix[i]], for an index within the slice. *)
Definition byte (pix : list Z) (i : nat) : Z := default 0 (pix !! i).

(** [p.RGBAAt(x, y)]: the zero colour outside the bounds. *)
Definition RGBAAt (p : RGBA) (x y : Z) : color.RGBA :=
  if negb (PtIn (Pt x y) (RGBARect p)) then color.zero
  else
    let i := Z.to_nat (PixOffset p x y) in
    color.RGBA_ (byte (Pix p) i) (byte (Pix p) (i + 1))
                (byte (Pix p) (i + 2)) (byte (Pix p) (i + 3)).

(** [p.SetRGBA(x, y, c)]: nothing happens outside the bounds. *)
Definition SetRGBA (p : RGBA) (x y : Z) (c : color.RGBA) : RGBA :=
  if negb (PtIn (Pt x y) (RGBARect p)) then p
  else
    let i := Z.to_nat (PixOffset p x y) in
    RGBA_ (<[(i + 3)%nat := color.A c]>
            (<[(i + 2)%nat := color.B c]>
              (<[(i + 1)%nat := color.G c]>
                (<[i := color.R c]> (Pix p)))))
          (Stride p) (RGBARect p).

End image.

(** ** Package [image/draw], operator [draw.Src] *)

Module draw.
Import image.

(** [clip]: restricts [r] to the destination and to the translated source
    bounds, and moves the source point [sp] along with [r.Min]. *)
Definition clip (dst : RGBA) (r : Rectangle) (srcBounds : Rectangle) (sp : Point)
  : Rectangle * Point :=
  let orig := Min r in
  let r := Intersect r (Bounds dst) in
  let r := Intersect r (Add srcBounds (PtSub orig sp)) in
  let dx := X (Min r) - X orig in
  let dy := Y (Min r) - Y orig in
  if (dx =? 0) && (dy =? 0) then (r, sp)
  else (r, Pt (X sp + dx) (Y sp + dy)).

(** [draw.Draw(dst, r, src, sp, draw.Src)] for an [*image.RGBA] source:
    [r.Min] in [dst] is aligned with [sp] in [src] and the clipped
    rectangle of [dst] is replaced by the source pixels.  ([dst] and
    [src] are distinct rasters at every call of the window code.) *)
Definition Draw (dst : RGBA) (r : Rectangle) (src : RGBA) (sp : Point) : RGBA :=
  let '(r, sp) := clip dst r (Bounds src) sp in
  if Empty r then dst
  else
    fold_left
      (fun d p =>
         SetRGBA d (X p) (Y p)
           (RGBAAt src (X p - X (Min r) + X sp) (Y p - Y (Min r) + Y sp)))
      (points r) dst.

(** [draw.Draw(dst, r, image.NewUniform(c), sp, draw.Src)]: a uniform
    source has unbounded extent, so only the destination clips. *)
Definition DrawUniform (dst : RGBA) (r : Rectangle) (c : color.RGBA) : RGBA :=
  let r := Intersect r (Bounds dst) in
  if Empty r then dst
  else fold_left (fun d p => SetRGBA d (X p) (Y p) c) (points r) dst.

End draw.


(** ** The OpenGL calls of the compositor, as commands of a trace *)

Module gl.

Inductive Cap := DEPTH_TEST | SCISSOR_TEST | BLEND.
Inductive Factor := ZERO | ONE | SRC_ALPHA | ONE_MINUS_SRC_ALPHA.
Inductive CmpFunc := NEVER | LESS | LEQUAL | ALWAYS.
Inductive Mode := POINTS | LINES | TRIANGLES.
Inductive TexParam :=
  TEXTURE_MIN_FILTER | TEXTURE_MAG_FILTER | TEXTURE_WRAP_S | TEXTURE_WRAP_T.
Inductive TexValue := LINEAR | CLAMP_TO_EDGE.

(** One constructor per call the two window files issue on the GL thread
    (texture targets are always [TEXTURE_2D], pixel formats always
    [RGBA]/[UNSIGNED_BYTE]); [SwapBuffers] is GLFW's, issued on the same
    thread; [Other] stands for any call of a caller-supplied GL closure
    outside this vocabulary. *)
Inductive Cmd :=
| Enable (c : Cap)
| Disable (c : Cap)
| DepthFunc (f : CmpFunc)
| BlendFunc (sfactor dfactor : Factor)
| Scissor (x y width height : Z)
| Clear (colorBit depthBit : bool)
| UseProgram (program : Z)
| BindVertexArray (array : Z)
| ActiveTexture (unit : Z)
| BindTexture (texture : Z)
| GenTextures (texture : Z)
| DeleteTextures (texture : Z)
| TexParameteri (p : TexParam) (v : TexValue)
| TexImage2D (width height : Z) (pixels : list Z)
| TextureSubImage2D (texture level xoffset yoffset width height : Z)
                    (pixels : list Z)
| DrawArrays (mode : Mode) (first count : Z)
| Flush
| SwapBuffers
| Other (id : Z).

(** The part of the context state that the compositor's calls set and
    that a draw call or a clear depends on. *)
Record State := State_ {
  depth_test : bool;
  scissor_test : bool;
  blend : bool;
  depth_func : CmpFunc;
  blend_src : Factor;
  blend_dst : Factor;
  scissor_box : Z * Z * Z * Z;
  program : Z;
  vertex_array : Z;
  active_texture : Z;
  texture_unit0 : Z
}.

Definition set_cap (g : State) (c : Cap) (b : bool) : State :=
  match c with
  | DEPTH_TEST =>
      State_ b (scissor_test g) (blend g) (depth_func g) (blend_src g)
        (blend_dst g) (scissor_box g) (program g) (vertex_array g)
        (active_texture g) (texture_unit0 g)
  | SCISSOR_TEST =>
      State_ (depth_test g) b (blend g) (depth_func g) (blend_src g)
        (blend_dst g) (scissor_box g) (program g) (vertex_array g)
        (active_texture g) (texture_unit0 g)
  | BLEND =>
      State_ (depth_test g) (scissor_test g) b (depth_func g) (blend_src g)
        (blend_dst g) (scissor_box g) (program g) (vertex_array g)
        (active_texture g) (texture_unit0 g)
  end.

(** The effect of one command on the tracked state. *)
Definition exec (g : State) (c : Cmd) : State :=
  match c with
  | Enable c => set_cap g c true
  | Disable c => set_cap g c false
  | DepthFunc f =>
      State_ (depth_test g) (scissor_test g) (blend g) f (blend_src g)
        (blend_dst g) (scissor_box g) (program g) (vertex_array g)
        (active_texture g) (texture_unit0 g)
  | BlendFunc s d =>
      State_ (depth_test g) (scissor_test g) (blend g) (depth_func g) s d
        (scissor_box g) (program g) (vertex_array g)
        (active_texture g) (texture_unit0 g)
  | Scissor x y w h =>
      State_ (depth_test g) (scissor_test g) (blend g) (depth_func g)
        (blend_src g) (blend_dst g) (x, y, w, h) (program g) (vertex_array g)
        (active_texture g) (texture_unit0 g)
  | UseProgram p =>
      State_ (depth_test g) (scissor_test g) (blend g) (depth_func g)
        (blend_src g) (blend_dst g) (scissor_box g) p (vertex_array g)
        (active_texture g) (texture_unit0 g)
  | BindVertexArray a =>
      State_ (depth_test g) (scissor_test g) (blend g) (depth_func g)
        (blend_src g) (blend_dst g) (scissor_box g) (program g) a
        (active_texture g) (texture_unit0 g)
  | ActiveTexture u =>
      State_ (depth_test g) (scissor_test g) (blend g) (depth_func g)
        (blend_src g) (blend_dst g) (scissor_box g) (program g)
        (vertex_array g) u (texture_unit0 g)
  | BindTexture t =>
      if active_texture g =? 0 then
        State_ (depth_test g) (scissor_test g) (blend g) (depth_func g)
          (blend_src g) (blend_dst g) (scissor_box g) (program g)
          (vertex_array g) (active_texture g) t
      else g
  | _ => g
  end.

Definition run (g : State) (cs : list Cmd) : State := fold_left exec cs g.

(** What the GPU is asked to do, with the state it is asked in: a draw
    call, a buffer clear, a texture upload, a buffer swap. *)
Inductive Work :=
| Drawn (g : State) (mode : Mode) (first count : Z)
| Cleared (g : State) (colorBit depthBit : bool)
| Uploaded (texture xoffset yoffset width height : Z) (pixels : list Z)
| Swapped.

Fixpoint work (g : State) (cs : list Cmd) : list Work :=
  match cs with
  | [] => []
  | c :: cs =>
      let rest := work (exec g c) cs in
      match c with
      | DrawArrays m f n => Drawn g m f n :: rest
      | Clear cb db => Cleared g cb db :: rest
      | TextureSubImage2D t _ x y w h px => Uploaded t x y w h px :: rest
      | SwapBuffers => Swapped :: rest
      | _ => rest
      end
  end.

End gl.

(** ** GLFW: window handles and input codes *)

Module glfw.

(** A window handle, read through [GetFramebufferSize]. *)
Record Window := Window_ { FramebufferWidth : Z; FramebufferHeight : Z }.

Definition GetFramebufferSize (w : Window) : Z * Z :=
  (FramebufferWidth w, FramebufferHeight w).

(** [glfw.Action] *)
Definition Release : Z := 0.
Definition Press : Z := 1.
Definition Repeat : Z := 2.

(** [glfw.MouseButton] *)
Definition MouseButtonLeft : Z := 0.
Definition MouseButtonRight : Z := 1.
Definition MouseButtonMiddle : Z := 2.

(** [glfw.Key] *)
Definition KeySpace : Z := 32.
Definition KeyEscape : Z := 256.
Definition KeyEnter : Z := 257.
Definition KeyTab : Z := 258.
Definition KeyBackspace : Z := 259.
Definition KeyDelete : Z := 261.
Definition KeyRight : Z := 262.
Definition KeyLeft : Z := 263.
Definition KeyDown : Z := 264.
Definition KeyUp : Z := 265.
Definition KeyPageUp : Z := 266.
Definition KeyPageDown : Z := 267.
Definition KeyHome : Z := 268.
Definition KeyEnd : Z := 269.
Definition KeyLeftShift : Z := 340.
Definition KeyLeftControl : Z := 341.
Definition KeyLeftAlt : Z := 342.
Definition KeyRightShift : Z := 344.
Definition KeyRightControl : Z := 345.
Definition KeyRightAlt : Z := 346.

End glfw.

(** ** Package [win] ([win/win.go]): options, events, the window *)

Module win.
Import image.

(** *** Events (the second half of [win/win.go]) *)

Definition Button := string.
Definition ButtonLeft : Button := "left"%string.
Definition ButtonRight : Button := "right"%string.
Definition ButtonMiddle : Button := "middle"%string.

(** [type Key int], numbered by [iota]. *)
Definition Key := Z.
Definition KeyLeft : Key := 0.
Definition KeyRight : Key := 1.
Definition KeyUp : Key := 2.
Definition KeyDown : Key := 3.
Definition KeyEscape : Key := 4.
Definition KeySpace : Key := 5.
Definition KeyBackspace : Key := 6.
Definition KeyDelete : Key := 7.
Definition KeyEnter : Key := 8.
Definition KeyTab : Key := 9.
Definition KeyHome : Key := 10.
Definition KeyEnd : Key := 11.
Definition KeyPageUp : Key := 12.
Definition KeyPageDown : Key := 13.
Definition KeyShift : Key := 14.
Definition KeyCtrl : Key := 15.
Definition KeyAlt : Key := 16.

(** The events sent on [eventsIn]; [Resize] is [gui.Resize] of the root
    package, the others are declared in [win]. *)
Inductive Event :=
| Resize (r : Rectangle)
| WiClose
| MoMove (p : Point)
| MoDown (p : Point) (b : Button)
| MoUp (p : Point) (b : Button)
| MoScroll (p : Point)
| KbType (r : Z)
| KbDown (k : Key)
| KbUp (k : Key)
| KbRepeat (k : Key).

(** *** Options and the constructor *)

Record options := options_ {
  title : string;
  width : Z;
  height : Z;
  resizable : bool;
  borderless : bool;
  maximized : bool
}.

Definition Option := options -> options.

Definition set_size (wd ht : Z) (o : options) : options :=
  options_ (title o) wd ht (resizable o) (borderless o) (maximized o).

Definition Title (t : string) : Option :=
  fun o => options_ t (width o) (height o) (resizable o) (borderless o) (maximized o).
Definition Size (wd ht : Z) : Option := set_size wd ht.
Definition Resizable : Option :=
  fun o => options_ (title o) (width o) (height o) true (borderless o) (maximized o).
Definition Borderless : Option :=
  fun o => options_ (title o) (width o) (height o) (resizable o) true (maximized o).
Definition Maximized : Option :=
  fun o => options_ (title o) (width o) (height o) (resizable o) (borderless o) true.

Definition defaults : options := options_ ""%string 640 480 false false false.

(** [Win], without its channels: those are the messages of the two
    threads below.  The sibling file calls the three GPU handles
    [screenTexture], [shaderProgram] and [quadVao]. *)
Record Win := Win_ {
  w : glfw.Window;
  img : RGBA;
  ratio : Z;
  guiTexture : Z;
  guiShader : Z;
  quadVao : Z
}.

(** How a Go call ends: a value, a returned [error], or a panic. *)
Inductive result (A : Type) :=
| Ok (a : A)
| Err
| Panic.
Arguments Ok {A} a.
Arguments Err {A}.
Arguments Panic {A}.

Section Constructor.

(** [glfw.Init] and [glfw.CreateWindow] under the window hints set from
    the options: the operating system's answer, [None] for an error. *)
Variable CreateWindow : options -> option glfw.Window.

Definition makeGLFWWin (o : options) : option (glfw.Window * options) :=
  match CreateWindow o with
  | None => None
  | Some gw =>
      if maximized o then
        let '(fw, fh) := glfw.GetFramebufferSize gw in
        Some (gw, set_size fw fh o)
      else Some (gw, o)
  end.

(** [New]: the window of the first [makeGLFWWin] is only measured (the
    "hiDPI hack") and destroyed; the second one is kept.  The GPU handles
    are zero until [openGLSetup] runs on the GL thread. *)
Definition New (opts : list Option) : result Win :=
  let o := fold_left (fun o opt => opt o) opts defaults in
  match makeGLFWWin o with
  | None => Err
  | Some (gw, o) =>
      let '(fbw, _) := glfw.GetFramebufferSize gw in
      match goint.quo fbw (width o) with
      | None => Panic
      | Some q =>
          let rt := if q <? 1 then 1 else q in
          let o :=
            if negb (rt =? 1)
            then set_size (goint.quot (width o) rt) (goint.quot (height o) rt) o
            else o in
          match makeGLFWWin o with
          | None => Err
          | Some (gw, o) =>
              let bounds :=
                Rect 0 0 (goint.mul (width o) rt) (goint.mul (height o) rt) in
              Ok (Win_ gw (NewRGBA bounds) rt 0 0 0)
          end
      end
  end.

End Constructor.

(** *** The event thread *)

Definition buttons : gmap Z Button :=
  list_to_map [
    (glfw.MouseButtonLeft, ButtonLeft);
    (glfw.MouseButtonRight, ButtonRight);
    (glfw.MouseButtonMiddle, ButtonMiddle)].

Definition keys : gmap Z Key :=
  list_to_map [
    (glfw.KeyLeft, KeyLeft);
    (glfw.KeyRight, KeyRight);
    (glfw.KeyUp, KeyUp);
    (glfw.KeyDown, KeyDown);
    (glfw.KeyEscape, KeyEscape);
    (glfw.KeySpace, KeySpace);
    (glfw.KeyBackspace, KeyBackspace);
    (glfw.KeyDelete, KeyDelete);
    (glfw.KeyEnter, KeyEnter);
    (glfw.KeyTab, KeyTab);
    (glfw.KeyHome, KeyHome);
    (glfw.KeyEnd, KeyEnd);
    (glfw.KeyPageUp, KeyPageUp);
    (glfw.KeyPageDown, KeyPageDown);
    (glfw.KeyLeftShift, KeyShift);
    (glfw.KeyRightShift, KeyShift);
    (glfw.KeyLeftControl, KeyCtrl);
    (glfw.KeyRightControl, KeyCtrl);
    (glfw.KeyLeftAlt, KeyAlt);
    (glfw.KeyRightAlt, KeyAlt)].

(** A callback GLFW invokes, with its arguments. *)
Inductive Callback :=
| CursorPos (x y : goint.float64)
| MouseButton (button action mods : Z)
| Scroll (xoff yoff : goint.float64)
| Char (r : Z)
| KeyPressed (key scancode action mods : Z)
| FramebufferSize (wd ht : Z)
| Close.

(** What the event thread does to the outside, in order. *)
Inductive Effect :=
| SendNewSize (r : Rectangle)
| SendEvent (e : Event)
| CloseEventsIn
| DestroyWindow.

(** The captured variables [moX], [moY]. *)
Record Mouse := Mouse_ { moX : Z; moY : Z }.

Definition callback (wi : Win) (m : Mouse) (cb : Callback) : Mouse * list Effect :=
  match cb with
  | CursorPos x y =>
      let moX := goint.ofFloat64 x in
      let moY := goint.ofFloat64 y in
      (Mouse_ moX moY,
       [SendEvent (MoMove (Pt (goint.mul moX (ratio wi)) (goint.mul moY (ratio wi))))])
  | MouseButton button action _ =>
      match buttons !! button with
      | None => (m, [])
      | Some b =>
          let p := Pt (goint.mul (moX m) (ratio wi)) (goint.mul (moY m) (ratio wi)) in
          if action =? glfw.Press then (m, [SendEvent (MoDown p b)])
          else if action =? glfw.Release then (m, [SendEvent (MoUp p b)])
          else (m, [])
      end
  | Scroll xoff yoff =>
      (m, [SendEvent (MoScroll (Pt (goint.ofFloat64 xoff) (goint.ofFloat64 yoff)))])
  | Char r => (m, [SendEvent (KbType r)])
  | KeyPressed key _ action _ =>
      match keys !! key with
      | None => (m, [])
      | Some k =>
          if action =? glfw.Press then (m, [SendEvent (KbDown k)])
          else if action =? glfw.Release then (m, [SendEvent (KbUp k)])
          else if action =? glfw.Repeat then (m, [SendEvent (KbRepeat k)])
          else (m, [])
      end
  | FramebufferSize wd ht =>
      let r := Rect 0 0 wd ht in
      (m, [SendNewSize r; SendEvent (Resize r)])
  | Close => (m, [SendEvent WiClose])
  end.

(** The callbacks one [glfw.WaitEventsTimeout] delivers. *)
Fixpoint callbacks (wi : Win) (m : Mouse) (cbs : list Callback)
  : Mouse * list Effect :=
  match cbs with
  | [] => (m, [])
  | cb :: cbs =>
      let '(m, out) := callback wi m cb in
      let '(m, outs) := callbacks wi m cbs in
      (m, out ++ outs)
  end.

(** One turn of the polling loop: [finish] is found closed, or it is not
    and [glfw.WaitEventsTimeout] delivers some callbacks. *)
Inductive Poll :=
| FinishClosed
| WaitEvents (cbs : list Callback).

Fixpoint pollLoop (wi : Win) (m : Mouse) (polls : list Poll) : list Effect :=
  match polls with
  | [] => []
  | FinishClosed :: _ => [CloseEventsIn; DestroyWindow]
  | WaitEvents cbs :: polls =>
      let '(m, out) := callbacks wi m cbs in
      out ++ pollLoop wi m polls
  end.

(** [eventThread]: the callbacks are registered, the bounds of the
    surface are announced, then the loop polls. *)
Definition eventThread (wi : Win) (polls : list Poll) : list Effect :=
  SendEvent (Resize (Bounds (img wi))) :: pollLoop wi (Mouse_ 0 0) polls.

Definition events (out : list Effect) : list Event :=
  omap (fun e => match e with SendEvent e => Some e | _ => None end) out.

(** *** The GL thread *)

(** A draw closure [func(draw.Image) image.Rectangle].  Through the
    [draw.Image] interface it can read the raster and set pixels; it is
    modelled by the pixel writes it performs, in order, and the rectangle
    it returns, both as functions of the raster it is handed. *)
Definition DrawFunc := RGBA -> list (Point * color.RGBA) * Rectangle.

(** [r := d(w.img)] *)
Definition call (d : DrawFunc) (im : RGBA) : RGBA * Rectangle :=
  let '(writes, r) := d im in
  (fold_left (fun im pc => SetRGBA im (X pc.1) (Y pc.1) pc.2) writes im, r).

(** [newScreenTexture(width, height)]; [name] is the texture name
    [gl.GenTextures] hands out.  The stride check before the fill cannot
    fail on a raster fresh from [NewRGBA].  With a width or height of 0
    the pixel slice is empty; what [gl.Ptr] of the GL binding makes of an
    empty slice is not part of this file, and what is stated of the
    upload is stated for positive sizes. *)
Definition newScreenTexture (name : Z) (wd ht : Z) : list gl.Cmd :=
  let rgba := NewRGBA (Rect 0 0 wd ht) in
  let rgba := draw.DrawUniform rgba (Bounds rgba) color.zero in
  [gl.GenTextures name;
   gl.ActiveTexture 0;
   gl.BindTexture name;
   gl.TexParameteri gl.TEXTURE_MIN_FILTER gl.LINEAR;
   gl.TexParameteri gl.TEXTURE_MAG_FILTER gl.LINEAR;
   gl.TexParameteri gl.TEXTURE_WRAP_S gl.CLAMP_TO_EDGE;
   gl.TexParameteri gl.TEXTURE_WRAP_T gl.CLAMP_TO_EDGE;
   gl.TexImage2D (goint.int32 (Dx (RGBARect rgba))) (goint.int32 (Dy (RGBARect rgba)))
     (Pix rgba)].

(** The body of the [for range 2] loop of [openGLRenderGui], for the
    clipped rectangle [r]. *)
Definition renderPass (wi : Win) (r : Rectangle) : list gl.Cmd :=
  let '(_, hei) := glfw.GetFramebufferSize (w wi) in
  [gl.Scissor (goint.int32 (X (Min r)))
     (goint.sub32 (goint.int32 hei) (goint.int32 (Y (Max r))))
     (goint.int32 (Dx r)) (goint.int32 (Dy r));
   gl.Enable gl.SCISSOR_TEST;
   gl.Clear false true;
   gl.Disable gl.SCISSOR_TEST;
   gl.UseProgram (guiShader wi);
   gl.Enable gl.BLEND;
   gl.BlendFunc gl.ONE gl.ONE_MINUS_SRC_ALPHA;
   gl.BindVertexArray (quadVao wi);
   gl.ActiveTexture 0;
   gl.BindTexture (guiTexture wi);
   gl.DrawArrays gl.TRIANGLES 0 (6 * 2 * 3);
   gl.SwapBuffers].

(** [openGLRenderGui] past its guard, for the clipped, non-empty [r]: the
    upload of the sub-image and the two passes. *)
Definition composite (wi : Win) (r : Rectangle) : list gl.Cmd :=
  let tmp := draw.Draw (NewRGBA r) r (img wi) (Min r) in
  [gl.TextureSubImage2D (guiTexture wi) 0
     (goint.int32 (X (Min r))) (goint.int32 (Y (Min r)))
     (goint.int32 (Dx r)) (goint.int32 (Dy r)) (Pix tmp);
   gl.Enable gl.DEPTH_TEST;
   gl.DepthFunc gl.LESS]
  ++ renderPass wi r ++ renderPass wi r
  ++ [gl.Disable gl.BLEND].

(** [w.openGLRenderGui(r)]: the calls it issues. *)
Definition openGLRenderGui (wi : Win) (r : Rectangle) : list gl.Cmd :=
  let bounds := Bounds (img wi) in
  let r := Intersect r bounds in
  if Empty r then [] else composite wi r.

(** What a [select] of [openGLThread] can receive. *)
Inductive Msg :=
| NewSize (r : Rectangle)
| Draw (d : DrawFunc)
| DrawClosed
| GL (glFunc : list gl.Cmd)
| GLClosed
| Tick.

(** Where the thread waits: at the outer [select], at the inner one, or
    nowhere any more. *)
Inductive Pc := Outer | Inner | Returned.

(** The GL thread: the window it owns, the local [totalR], its place in
    the loop, the next texture name of the GL server, and how often it
    has run [close(w.finish)]. *)
Record Thread := Thread_ {
  this : Win;
  totalR : Rectangle;
  pc : Pc;
  names : Z;
  finishCloses : nat
}.

Definition set_img (wi : Win) (im : RGBA) : Win :=
  Win_ (w wi) im (ratio wi) (guiTexture wi) (guiShader wi) (quadVao wi).
Definition set_guiTexture (wi : Win) (t : Z) : Win :=
  Win_ (w wi) (img wi) (ratio wi) t (guiShader wi) (quadVao wi).

(** The window once its framebuffer has the size of [r].  The rectangle
    on [newSize] is the size the framebuffer callback reported, and that
    size is what [GetFramebufferSize] answers from then on: the handle of
    the model takes it when the rectangle is received. *)
Definition set_framebuffer (wi : Win) (r : Rectangle) : Win :=
  Win_ (glfw.Window_ (Dx r) (Dy r)) (img wi) (ratio wi) (guiTexture wi)
    (guiShader wi) (quadVao wi).

(** The new raster of a resize to [r], the old content copied in. *)
Definition resized (old : RGBA) (r : Rectangle) : RGBA :=
  draw.Draw (NewRGBA r) (Bounds old) old (Min (Bounds old)).

(** The receive cases, which the outer and the inner [select] repeat word
    for word; [tr] is the value of [totalR] on entry. *)
Definition receive (t : Thread) (tr : Rectangle) (m : Msg)
  : option (Thread * list gl.Cmd) :=
  let wi := this t in
  match m with
  | NewSize r =>
      let im := resized (img wi) r in
      let wi' :=
        set_guiTexture (set_img (set_framebuffer wi r) im) (names t) in
      Some (Thread_ wi' (Union tr r) Inner (names t + 1) (finishCloses t),
            gl.DeleteTextures (guiTexture wi)
              :: newScreenTexture (names t) (Dx (Bounds im)) (Dy (Bounds im)))
  | Draw d =>
      let '(im, r) := call d (img wi) in
      Some (Thread_ (set_img wi im) (Union tr r) Inner (names t) (finishCloses t), [])
  | DrawClosed | GLClosed =>
      Some (Thread_ wi tr Returned (names t) (S (finishCloses t)), [])
  | GL glFunc =>
      Some (Thread_ wi tr Inner (names t) (finishCloses t),
            glFunc ++ openGLRenderGui wi tr ++ [gl.SwapBuffers])
  | Tick => None
  end.

(** One [select] of [openGLThread] and the case it runs; [None] when the
    message cannot be received where the thread stands.  [var totalR]
    makes the outer [select] start from the zero Rectangle. *)
Definition step (t : Thread) (m : Msg) : option (Thread * list gl.Cmd) :=
  match pc t with
  | Returned => None
  | Outer => receive t ZR m
  | Inner =>
      match m with
      | Tick =>
          Some (Thread_ (this t) ZR Outer (names t) (finishCloses t),
                openGLRenderGui (this t) (totalR t) ++ [gl.SwapBuffers])
      | _ => receive t (totalR t) m
      end
  end.

Fixpoint run (t : Thread) (ms : list Msg) : option (Thread * list gl.Cmd) :=
  match ms with
  | [] => Some (t, [])
  | m :: ms =>
      match step t m with
      | None => None
      | Some (t, out) =>
          match run t ms with
          | None => None
          | Some (t, outs) => Some (t, out ++ outs)
          end
      end
  end.

(** [openGLThread] up to its loop (after [openGLSetup] has filled the
    handles of [wi]): the whole surface is rendered once. *)
Definition openGLThread (wi : Win) (names : Z) : Thread * list gl.Cmd :=
  (Thread_ wi ZR Outer names 0,
   openGLRenderGui wi (Bounds (img wi)) ++ [gl.SwapBuffers]).

End win.

(** ** The sibling window file, without the GL channel *)

Module winflush.
Import image win.

Definition screenTexture := guiTexture.
Definition shaderProgram := guiShader.

(** [openGLFlush] past its guard, for the clipped, non-empty [r]. *)
Definition present (wi : Win) (r : Rectangle) : list gl.Cmd :=
  let tmp := draw.Draw (NewRGBA r) r (img wi) (Min r) in
  [gl.TextureSubImage2D (screenTexture wi) 0
     (goint.int32 (X (Min r))) (goint.int32 (Y (Min r)))
     (goint.int32 (Dx r)) (goint.int32 (Dy r)) (Pix tmp);
   gl.UseProgram (shaderProgram wi);
   gl.BindVertexArray (quadVao wi);
   gl.ActiveTexture 0;
   gl.BindTexture (screenTexture wi);
   gl.DrawArrays gl.TRIANGLES 0 (6 * 2 * 3);
   gl.Flush].

(** [w.openGLFlush(r)] *)
Definition openGLFlush (wi : Win) (r : Rectangle) : list gl.Cmd :=
  let bounds := Bounds (img wi) in
  let r := Intersect r bounds in
  if Empty r then [] else present wi r.

(** The receive cases of this file's [openGLThread]: there is no GL
    channel, and a resize keeps the screen texture. *)
Definition receive (t : Thread) (tr : Rectangle) (m : Msg)
  : option (Thread * list gl.Cmd) :=
  let wi := this t in
  match m with
  | NewSize r =>
      Some (Thread_ (set_img (set_framebuffer wi r) (resized (img wi) r))
              (Union tr r) Inner
              (names t) (finishCloses t), [])
  | Draw d =>
      let '(im, r) := call d (img wi) in
      Some (Thread_ (set_img wi im) (Union tr r) Inner (names t) (finishCloses t), [])
  | DrawClosed =>
      Some (Thread_ wi tr Returned (names t) (S (finishCloses t)), [])
  | GL _ | GLClosed | Tick => None
  end.

Definition step (t : Thread) (m : Msg) : option (Thread * list gl.Cmd) :=
  match pc t with
  | Returned => None
  | Outer => receive t ZR m
  | Inner =>
      match m with
      | Tick =>
          Some (Thread_ (this t) ZR Outer (names t) (finishCloses t),
                openGLFlush (this t) (totalR t))
      | _ => receive t (totalR t) m
      end
  end.

Fixpoint run (t : Thread) (ms : list Msg) : option (Thread * list gl.Cmd) :=
  match ms with
  | [] => Some (t, [])
  | m :: ms =>
      match step t m with
      | None => None
      | Some (t, out) =>
          match run t ms with
          | None => None
          | Some (t, outs) => Some (t, out ++ outs)
          end
      end
  end.

Definition openGLThread (wi : Win) (names : Z) : Thread * list gl.Cmd :=
  (Thread_ wi ZR Outer names 0, openGLFlush wi (Bounds (img wi))).

End winflush.

(** ** The two threads of [win/win.go] together

    The caller, the GL thread and the event thread, interleaved.  A step
    is one synchronisation or what one thread does between two of them: a
    hand-off on an unbuffered channel (the send completes when the GL
    thread, at a [select], receives; the body of the case runs in a later
    step of its own), the close of a channel, a [select] that fires on the
    timer or on a closed channel.  Sends on [eventsIn] are taken to
    complete at once: the bridge behind it ([gui.MakeEventsChan]) belongs
    to the root package. *)

Module sys.
Import image win.

(** Where the event thread stands. *)
Inductive EvPc :=
| AtSelect
| InWait
| InCallback (todo : list Effect)
| Gone.

(** [glCase] is the value the GL thread has received on [newSize],
    [draw] or [drawGL] and whose case it has yet to run. *)
Record State := State_ {
  glT : Thread;
  glCase : option Msg;
  evPc : EvPc;
  mouse : Mouse;
  drawClosed : bool;
  drawGLClosed : bool;
  sent : list Event;
  eventsInCloses : nat;
  destroys : nat
}.

Inductive Label :=
| CallerDraw (d : DrawFunc)
| CallerGL (glFunc : list gl.Cmd)
| CallerCloseDraw
| CallerCloseGL
| GLRuns
| TimerFires
| GLSeesDrawClosed
| GLSeesGLClosed
| EvSelect
| OSCallback (cb : Callback)
| EvSend
| WaitReturns.

Definition with_glT (s : State) (t : Thread) (c : option Msg) : State :=
  State_ t c (evPc s) (mouse s) (drawClosed s) (drawGLClosed s) (sent s)
    (eventsInCloses s) (destroys s).

Definition with_evPc (s : State) (e : EvPc) : State :=
  State_ (glT s) (glCase s) e (mouse s) (drawClosed s) (drawGLClosed s)
    (sent s) (eventsInCloses s) (destroys s).

(** The GL thread waits at one of its two [select]s. *)
Definition waiting (s : State) : bool :=
  match glCase s, pc (glT s) with
  | None, (Outer | Inner) => true
  | _, _ => false
  end.

(** A send to the GL thread completes: the thread, waiting, has the
    value; it has not run the case yet. *)
Definition gl_receives (s : State) (m : Msg) : option State :=
  if waiting s then Some (with_glT s (glT s) (Some m)) else None.

(** The GL thread, waiting, takes a case that needs no sender (the timer,
    a closed channel) and runs it. *)
Definition gl_takes (s : State) (m : Msg) : option State :=
  if waiting s then
    match win.step (glT s) m with
    | None => None
    | Some (t, _) => Some (with_glT s t None)
    end
  else None.

Definition step (s : State) (l : Label) : option State :=
  match l with
  | CallerDraw d => if drawClosed s then None else gl_receives s (Draw d)
  | CallerGL f => if drawGLClosed s then None else gl_receives s (GL f)
  | CallerCloseDraw =>
      if drawClosed s then None
      else Some (State_ (glT s) (glCase s) (evPc s) (mouse s) true
                   (drawGLClosed s) (sent s) (eventsInCloses s) (destroys s))
  | CallerCloseGL =>
      if drawGLClosed s then None
      else Some (State_ (glT s) (glCase s) (evPc s) (mouse s) (drawClosed s)
                   true (sent s) (eventsInCloses s) (destroys s))
  | GLRuns =>
      (* the body of the case whose value was received *)
      match glCase s with
      | None => None
      | Some m =>
          match win.step (glT s) m with
          | None => None
          | Some (t, _) => Some (with_glT s t None)
          end
      end
  | TimerFires => gl_takes s Tick
  | GLSeesDrawClosed => if drawClosed s then gl_takes s DrawClosed else None
  | GLSeesGLClosed => if drawGLClosed s then gl_takes s GLClosed else None
  | EvSelect =>
      match evPc s with
      | AtSelect =>
          if (0 <? finishCloses (glT s))%nat then
            (* case <-w.finish: close(w.eventsIn); w.w.Destroy(); return *)
            Some (State_ (glT s) (glCase s) Gone (mouse s) (drawClosed s)
                    (drawGLClosed s) (sent s) (S (eventsInCloses s))
                    (S (destroys s)))
          else
            (* default: glfw.WaitEventsTimeout(1.0 / 30) *)
            Some (with_evPc s InWait)
      | _ => None
      end
  | OSCallback cb =>
      match evPc s with
      | InWait =>
          let '(m, todo) := callback (this (glT s)) (mouse s) cb in
          Some (State_ (glT s) (glCase s) (InCallback todo) m (drawClosed s)
                  (drawGLClosed s) (sent s) (eventsInCloses s) (destroys s))
      | _ => None
      end
  | EvSend =>
      match evPc s with
      | InCallback [] => Some (with_evPc s InWait)
      | InCallback (SendEvent e :: todo) =>
          Some (State_ (glT s) (glCase s) (InCallback todo) (mouse s)
                  (drawClosed s) (drawGLClosed s) (sent s ++ [e])
                  (eventsInCloses s) (destroys s))
      | InCallback (SendNewSize r :: todo) =>
          (* w.newSize <- r: completes when the GL thread receives it *)
          match gl_receives s (NewSize r) with
          | None => None
          | Some s => Some (with_evPc s (InCallback todo))
          end
      | _ => None
      end
  | WaitReturns =>
      match evPc s with
      | InWait => Some (with_evPc s AtSelect)
      | _ => None
      end
  end.

Fixpoint run (s : State) (ls : list Label) : option State :=
  match ls with
  | [] => Some s
  | l :: ls =>
      match step s l with
      | None => None
      | Some s => run s ls
      end
  end.

(** Both threads started by [New]: the GL thread at its outer [select],
    the event thread past its first send, at its [select]. *)
Definition start (wi : Win) (names : Z) : State :=
  State_ (fst (openGLThread wi names)) None AtSelect (Mouse_ 0 0) false false
    [Resize (Bounds (img wi))] 0 0.

End sys.

(** ** Vocabulary of the statements *)

Module spec.
Import image win.

(** The invariant [image.NewRGBA] establishes and [SetRGBA] keeps: rows
    are contiguous and [Pix] holds exactly the pixels of the bounds. *)
Definition WellFormed (p : RGBA) : Prop :=
  0 <= Dx (RGBARect p) /\ 0 <= Dy (RGBARect p) /\
  Stride p = 4 * Dx (RGBARect p) /\
  length (Pix p) = Z.to_nat (4 * Dx (RGBARect p) * Dy (RGBARect p)).

(** The rectangles a run of serviced submissions reports, in order: what
    each draw closure returns on the surface as it then is, and each
    resize rectangle. *)
Fixpoint reported (im : RGBA) (ms : list Msg) : list Rectangle :=
  match ms with
  | [] => []
  | NewSize r :: ms => r :: reported (resized im r) ms
  | Draw d :: ms => (call d im).2 :: reported (call d im).1 ms
  | _ :: ms => reported im ms
  end.

(** The surface after the same run. *)
Fixpoint surface (im : RGBA) (ms : list Msg) : RGBA :=
  match ms with
  | [] => im
  | NewSize r :: ms => surface (resized im r) ms
  | Draw d :: ms => surface (call d im).1 ms
  | _ :: ms => surface im ms
  end.

(** The union of a list of rectangles, from the zero Rectangle on. *)
Definition unionAll (rs : list Rectangle) : Rectangle := fold_left Union rs ZR.

(** Submissions that are serviced without ending the loop or flushing. *)
Definition serviced (m : Msg) : bool :=
  match m with
  | NewSize _ | Draw _ | GL _ => true
  | DrawClosed | GLClosed | Tick => false
  end.

Definition isGL (m : Msg) : bool :=
  match m with GL _ => true | _ => false end.

(** A button or key callback whose code the translation maps lack. *)
Definition unsupported (cb : Callback) : bool :=
  match cb with
  | MouseButton button _ _ => bool_decide (buttons !! button = None)
  | KeyPressed key _ _ _ => bool_decide (keys !! key = None)
  | _ => false
  end.

(** The options [New] starts from: the defaults, changed by [opts]. *)
Definition requested (opts : list Option) : options :=
  fold_left (fun o opt => opt o) opts defaults.

(** A whole number as a [float64]. *)
Definition whole (z : Z) : goint.float64 :=
  match z with
  | 0 => SpecFloat.S754_zero false
  | Z.pos m => SpecFloat.S754_finite false m 0
  | Z.neg m => SpecFloat.S754_finite true m 0
  end.

(** A draw closure that fills [r] with [c] and reports [r]. *)
Definition fill (r : Rectangle) (c : color.RGBA) : DrawFunc :=
  fun im => (map (fun p => (p, c)) (points (Intersect r (Bounds im))), r).

(** Small concrete inputs: an operating system that gives every window a
    framebuffer twice its logical size, and one that gives it the logical
    size; the windows [New] makes of them. *)
Definition hiDPI (o : options) : option glfw.Window :=
  Some (glfw.Window_ (2 * width o) (2 * height o)).
Definition loDPI (o : options) : option glfw.Window :=
  Some (glfw.Window_ (width o) (height o)).

(** An operating system that gives a maximized window a framebuffer of
    8 by 6, and any other window its logical size. *)
Definition maximizing (o : options) : option glfw.Window :=
  Some (if maximized o then glfw.Window_ 8 6
        else glfw.Window_ (width o) (height o)).

Definition blank : Win := Win_ (glfw.Window_ 0 0) (NewRGBA ZR) 1 0 0 0.

(** The window [New] makes for the size [wd] by [ht], with the three GPU
    handles filled as after [openGLSetup] (texture 1, program 2, vertex
    array 3). *)
Definition window (cw : options -> option glfw.Window) (wd ht : Z) : Win :=
  match New cw [Size wd ht] with
  | Ok wi => Win_ (w wi) (img wi) (ratio wi) 1 2 3
  | _ => blank
  end.

Definition red : color.RGBA := color.RGBA_ 255 0 0 255.

(** The event thread is caught in the framebuffer callback, at its send
    on [newSize], and the GL thread has returned. *)
Definition caught (s : sys.State) : Prop :=
  pc (sys.glT s) = Returned /\
  (exists r todo, sys.evPc s = sys.InCallback (SendNewSize r :: todo)) /\
  sys.eventsInCloses s = 0%nat /\ sys.destroys s = 0%nat.

(** What holds of every state the two threads can reach. *)
Definition orderly (s : sys.State) : Prop :=
  (sys.eventsInCloses s <= 1)%nat /\
  sys.destroys s = sys.eventsInCloses s /\
  (finishCloses (sys.glT s) <= 1)%nat /\
  (pc (sys.glT s) = Returned <-> finishCloses (sys.glT s) = 1%nat) /\
  (sys.evPc s = sys.Gone <-> sys.eventsInCloses s = 1%nat) /\
  (sys.eventsInCloses s = 1%nat -> finishCloses (sys.glT s) = 1%nat).

(** A context with every capability off and the default blend factors. *)
Definition context : gl.State :=
  gl.State_ false false false gl.LESS gl.ONE gl.ZERO (0, 0, 0, 0) 0 0 0 0.

End spec.


(** ** Shader and vertex-array bootstrap of [win/win.go]

    [compileShader], [NewGLProgram] and [openGLSetup].  The calls are a
    trace of their own; what the driver answers (statuses, logs, locations)
    is a parameter.  Object names come from the same counter as the texture
    names of the GL thread. *)

Module glsl.
Import image win.

Inductive ShaderType := VERTEX_SHADER | FRAGMENT_SHADER.
Inductive Query := COMPILE_STATUS | LINK_STATUS | INFO_LOG_LENGTH.

(** The answers of the GL implementation. *)
Record Driver := Driver_ {
  initOK : bool;
  compileStatus : ShaderType -> string -> bool;
  shaderLog : ShaderType -> string -> string;
  linkStatus : string -> string -> bool;
  programLog : string -> string -> string;
  uniformLocation : Z -> string -> Z;
  attribLocation : Z -> string -> Z
}.

Inductive Call :=
| CreateShader (ty : ShaderType) (shader : Z)
| ShaderSource (shader : Z) (source : string)
| CompileShader (shader : Z)
| GetShaderiv (shader : Z) (q : Query)
| GetShaderInfoLog (shader : Z)
| CreateProgram (program : Z)
| AttachShader (program shader : Z)
| LinkProgram (program : Z)
| GetProgramiv (program : Z) (q : Query)
| GetProgramInfoLog (program : Z)
| DeleteShader (shader : Z)
| GetUniformLocation (program : Z) (name : string)
| Uniform1i (location v : Z)
| BindFragDataLocation (program color : Z) (name : string)
| GenVertexArrays (array : Z)
| GenBuffers (buffer : Z)
| BindBuffer (buffer : Z)
| BufferData (size : Z) (data : list Z)
| GetAttribLocation (program : Z) (name : string)
| EnableVertexAttribArray (index : Z)
| VertexAttribPointerWithOffset (index size stride offset : Z)
| ClearColor (r g b a : Z)
| Core (c : gl.Cmd).

(** The two errors, with what [fmt.Errorf] puts into their text. *)
Inductive error :=
| FailedToCompile (source log : string)
| FailedToLink (log : string).

Definition uint32 (z : Z) : Z := z mod 2 ^ 32.

(** [compileShader(source, shaderType)]: the handle (0 with an error), the
    error if any, the calls, the next free name. *)
Definition compileShader (drv : Driver) (names : Z) (source : string)
    (shaderType : ShaderType) : (Z * option error) * list Call * Z :=
  let shader := names in
  let calls :=
    [CreateShader shaderType shader;
     ShaderSource shader source;
     CompileShader shader;
     GetShaderiv shader COMPILE_STATUS] in
  if compileStatus drv shaderType source
  then ((shader, None), calls, names + 1)
  else ((0, Some (FailedToCompile source (shaderLog drv shaderType source))),
        calls ++ [GetShaderiv shader INFO_LOG_LENGTH; GetShaderInfoLog shader],
        names + 1).

(** [NewGLProgram(vertexShaderSource, fragmentShaderSource)] *)
Definition NewGLProgram (drv : Driver) (names : Z)
    (vertexShaderSource fragmentShaderSource : string)
  : (Z * option error) * list Call * Z :=
  match compileShader drv names vertexShaderSource VERTEX_SHADER with
  | ((_, Some err), calls, names) => ((0, Some err), calls, names)
  | ((vertexShader, None), calls1, names) =>
      match compileShader drv names fragmentShaderSource FRAGMENT_SHADER with
      | ((_, Some err), calls2, names) => ((0, Some err), calls1 ++ calls2, names)
      | ((fragmentShader, None), calls2, names) =>
          let program := names in
          let calls3 :=
            [CreateProgram program;
             AttachShader program vertexShader;
             AttachShader program fragmentShader;
             LinkProgram program;
             GetProgramiv program LINK_STATUS] in
          if linkStatus drv vertexShaderSource fragmentShaderSource
          then ((program, None),
                calls1 ++ calls2 ++ calls3
                  ++ [DeleteShader vertexShader; DeleteShader fragmentShader],
                names + 1)
          else ((0, Some (FailedToLink
                            (programLog drv vertexShaderSource fragmentShaderSource))),
                calls1 ++ calls2 ++ calls3
                  ++ [GetProgramiv program INFO_LOG_LENGTH;
                      GetProgramInfoLog program],
                names + 1)
      end
  end.

(** The sources of the two compositing shaders, as the raw string
    literals have them, each closed by a NUL. *)
Definition NUL : string := String (Ascii.ascii_of_nat 0) EmptyString.
Definition screenVertShader : string :=
  ("
		#version 420

		in vec3 vert;
		in vec2 vertTexCoord;
		out vec2 fragTexCoord;

		void main() {
			fragTexCoord = vertTexCoord;
			gl_Position = vec4(vert.xy, 0.0, 1.0);
		}
	" ++ NUL)%string.
Definition screenFragShader : string :=
  ("
		#version 420

		uniform sampler2D tex;
		in vec2 fragTexCoord;

		out vec4 outputColor;

		void main() {
			outputColor = texture(tex, fragTexCoord);
		}
	" ++ NUL)%string.

(** [quadVertices]: six vertices of X, Y, Z, U, V; the [float32] values
    are whole numbers and written as integers. *)
Definition quadVertices : list Z :=
  [-1;  1; 1;  0; 0;
    1; -1; 1;  1; 1;
   -1; -1; 1;  0; 1;
   -1;  1; 1;  0; 0;
    1;  1; 1;  1; 0;
    1; -1; 1;  1; 1].

(** [w.openGLSetup()]: a failed [gl.Init] panics; the error of
    [NewGLProgram] is assigned to [err] and not looked at again. *)
Definition openGLSetup (drv : Driver) (wi : Win) (names : Z)
  : result (Win * list Call * Z) :=
  if negb (initOK drv) then Panic
  else
    let '((shader, _), calls1, names) :=
      NewGLProgram drv names screenVertShader screenFragShader in
    let '(wid, hei) := glfw.GetFramebufferSize (w wi) in
    let texture := names in
    let calls2 := map Core (newScreenTexture texture wid hei) in
    let names := names + 1 in
    let textureUniform := uniformLocation drv shader "tex"%string in
    let quadVao := names in
    let vbo := names + 1 in
    let names := names + 2 in
    let vertAttrib := uint32 (attribLocation drv shader "vert"%string) in
    let texCoordAttrib := uint32 (attribLocation drv shader "vertTexCoord"%string) in
    let calls3 :=
      [GetUniformLocation shader "tex"%string;
       Uniform1i textureUniform 0;
       BindFragDataLocation shader 0 "outputColor"%string;
       GenVertexArrays quadVao;
       Core (gl.BindVertexArray quadVao);
       GenBuffers vbo;
       BindBuffer vbo;
       BufferData (Z.of_nat (length quadVertices) * 4) quadVertices;
       GetAttribLocation shader "vert"%string;
       EnableVertexAttribArray vertAttrib;
       VertexAttribPointerWithOffset vertAttrib 3 (5 * 4) 0;
       GetAttribLocation shader "vertTexCoord"%string;
       EnableVertexAttribArray texCoordAttrib;
       VertexAttribPointerWithOffset texCoordAttrib 2 (5 * 4) (3 * 4);
       ClearColor 1 1 0 1] in
    Ok (Win_ (w wi) (img wi) (ratio wi) texture shader quadVao,
        calls1 ++ calls2 ++ calls3, names).

End glsl.

(** ** The sample programs ([package main])

    The button column of the two cube demos: [colors], the draw closures
    [drawRect] / [drawButton], and the [win.MoDown] case of the event loop.
    (The cube itself and the scroll case work on [float32] and GL state of
    another file.) *)

Module demo.
Import image win.

Definition rectWidth : Z := 200.
Definition rectHeight : Z := 103.
Definition windowWidth : Z := 1280.
Definition windowHeight : Z := 721.

(** Arithmetic on, and conversion to, [uint8]. *)
Definition uint8 (z : Z) : Z := z mod 256.

(** [colors(index)] *)
Definition colors (index : Z) : color.RGBA :=
  if (0 <=? index) && (index <? 5)
  then color.RGBA_ (uint8 (index * 50)) (uint8 (255 - uint8 (index * 50))) 30 255
  else if index =? 5 then color.RGBA_ 255 255 255 255
  else color.RGBA_ 0 0 0 255.

(** The rectangle of button [index]. *)
Definition buttonRect (index : Z) : Rectangle :=
  Rect (windowWidth - rectWidth) (index * rectHeight)
       windowWidth (uint8 (index + 1) * rectHeight).

(** [drawRect(index)] / [drawButton(index)], for [index] a [uint8]: fills the button's rectangle
    with its colour through [draw.Draw] and reports the rectangle. *)
Definition drawButton (index : Z) : DrawFunc :=
  fun drw =>
    let r := buttonRect index in
    (map (fun p => (p, colors index)) (points (Intersect r (Bounds drw))), r).

(** What the second demo submits first: [for i := range uint8(7)]. *)
Definition submitted : list Msg :=
  map (fun i => Draw (drawButton i)) (seqZ 0 7).

(** What the first demo submits first: [drawRect(0)] to [drawRect(5)]. *)
Definition submittedSix : list Msg :=
  map (fun i => Draw (drawButton i)) (seqZ 0 6).

(** The [win.MoDown] case: the new value of [CubeClearColor]. *)
Definition onMoDown (p : Point) (CubeClearColor : color.RGBA) : color.RGBA :=
  if X p >? windowWidth - rectWidth
  then colors (uint8 (Z.quot (Y p) rectHeight))
  else CubeClearColor.

End demo.

(** ** Vocabulary of the further statements *)

Module props.
Import image win.

(** A rectangle as the framebuffer callback makes it: at the origin, of
    non-negative size. *)
Definition atOrigin (r : Rectangle) : bool :=
  (X (Min r) =? 0) && (Y (Min r) =? 0) && (0 <=? X (Max r)) && (0 <=? Y (Max r)).

(** Every resize of a run carries such a rectangle. *)
Definition sized (m : Msg) : bool :=
  match m with
  | NewSize r => atOrigin r
  | _ => true
  end.

(** The bounds the last resize of a run asks for, [b] if there is none. *)
Fixpoint lastBounds (b : Rectangle) (ms : list Msg) : Rectangle :=
  match ms with
  | [] => b
  | NewSize r :: ms => lastBounds r ms
  | _ :: ms => lastBounds b ms
  end.

(** The cursor position the callbacks leave in [moX], [moY]. *)
Fixpoint lastCursor (m : Mouse) (cbs : list Callback) : Mouse :=
  match cbs with
  | [] => m
  | CursorPos x y :: cbs =>
      lastCursor (Mouse_ (goint.ofFloat64 x) (goint.ofFloat64 y)) cbs
  | _ :: cbs => lastCursor m cbs
  end.

(** An effect that is a send on one of the two channels. *)
Definition isSend (e : Effect) : bool :=
  match e with
  | SendNewSize _ | SendEvent _ => true
  | CloseEventsIn | DestroyWindow => false
  end.

Definition isCursor (cb : Callback) : bool :=
  match cb with CursorPos _ _ => true | _ => false end.

(** A poll that finds [finish] closed. *)
Definition sawFinish (p : Poll) : bool :=
  match p with FinishClosed => true | WaitEvents _ => false end.

(** The pixel of an uploaded payload of width [wd] at column [i], row [j]:
    rows are packed, four bytes a pixel. *)
Definition payloadPixel (px : list Z) (wd i j : Z) : color.RGBA :=
  let k := Z.to_nat (4 * (j * wd + i)) in
  color.RGBA_ (byte px k) (byte px (k + 1)) (byte px (k + 2)) (byte px (k + 3)).

(** The shader objects a trace creates, and those it deletes. *)
Definition createdShaders (calls : list glsl.Call) : list Z :=
  omap (fun c => match c with glsl.CreateShader _ s => Some s | _ => None end) calls.
Definition deletedShaders (calls : list glsl.Call) : list Z :=
  omap (fun c => match c with glsl.DeleteShader s => Some s | _ => None end) calls.

(** The colour a point shows after the rectangles of [l] were filled in
    order on a surface of bounds [b] where it showed [base]. *)
Fixpoint painted (l : list (Rectangle * color.RGBA)) (b : Rectangle)
    (p : Point) (base : color.RGBA) : color.RGBA :=
  match l with
  | [] => base
  | (r, c) :: l => painted l b p (if PtIn p r && PtIn p b then c else base)
  end.

(** How often a run of commands exchanges the buffers. *)
Definition isSwap (c : gl.Cmd) : bool :=
  match c with gl.SwapBuffers => true | _ => false end.
Definition swaps (cs : list gl.Cmd) : nat := length (List.filter isSwap cs).

(** The scissor boxes a run of commands sets, and the last vertex index
    (exclusive) of each of its draw calls. *)
Definition scissors (cs : list gl.Cmd) : list (Z * Z * Z * Z) :=
  omap (fun c => match c with
                 | gl.Scissor x y wd ht => Some (x, y, wd, ht)
                 | _ => None
                 end) cs.
Definition drawn (cs : list gl.Cmd) : list Z :=
  omap (fun c => match c with
                 | gl.DrawArrays _ first count => Some (first + count)
                 | _ => None
                 end) cs.

(** The vertices a set-up trace loads: the bytes of each [BufferData]
    over the stride of the attribute pointers. *)
Definition strides (calls : list glsl.Call) : list Z :=
  omap (fun c => match c with
                 | glsl.VertexAttribPointerWithOffset _ _ stride _ => Some stride
                 | _ => None
                 end) calls.
Definition bufferBytes (calls : list glsl.Call) : list Z :=
  omap (fun c => match c with
                 | glsl.BufferData size _ => Some size
                 | _ => None
                 end) calls.

(** A driver that accepts everything, and one whose fragment shaders do
    not compile. *)
Definition goodDriver : glsl.Driver :=
  glsl.Driver_ true (fun _ _ => true) (fun _ _ => ""%string)
    (fun _ _ => true) (fun _ _ => ""%string) (fun _ _ => 0) (fun _ _ => 0).
Definition badDriver : glsl.Driver :=
  glsl.Driver_ true
    (fun ty _ => match ty with glsl.VERTEX_SHADER => true | _ => false end)
    (fun _ _ => "syntax error"%string)
    (fun _ _ => true) (fun _ _ => ""%string) (fun _ _ => -1) (fun _ _ => -1).


(** A send on [newSize]. *)
Definition isNewSize (e : Effect) : bool :=
  match e with SendNewSize _ => true | _ => false end.

(** The event thread is caught: it is in a callback that has a send on
    [newSize] still to make, and the GL thread has returned. *)
Definition stuck (s : sys.State) : bool :=
  match sys.evPc s, pc (sys.glT s) with
  | sys.InCallback todo, Returned => existsb isNewSize todo
  | _, _ => false
  end.

(** The steps the two threads take of their own accord: no caller, no
    operating system. *)
Definition internal (l : sys.Label) : bool :=
  match l with
  | sys.GLRuns | sys.GLSeesDrawClosed | sys.GLSeesGLClosed
  | sys.EvSelect | sys.EvSend | sys.WaitReturns => true
  | _ => false
  end.

(** What holds besides [orderly] of every state the threads can reach: a
    value the GL thread holds came over a channel while it was running,
    and the event thread has only sends to make in a callback. *)
Definition sound (s : sys.State) : Prop :=
  spec.orderly s /\
  (forall m, sys.glCase s = Some m ->
     spec.serviced m = true /\ pc (sys.glT s) <> Returned) /\
  (forall todo, sys.evPc s = sys.InCallback todo -> forallb isSend todo = true).

(** The threads get from [s] to [s'] on their own, the channels staying
    as they are. *)
Definition leads (s : sys.State) (ls : list sys.Label) (s' : sys.State) : Prop :=
  sys.run s ls = Some s' /\ forallb internal ls = true /\
  sys.drawClosed s' = sys.drawClosed s /\
  sys.drawGLClosed s' = sys.drawGLClosed s.

End props.

(** * Lemmas *)

(** ** Rectangles *)

Section Rectangles.
Import image.

Lemma if_ltb_max a b : (if a <? b then b else a) = Z.max a b.
Proof. destruct (Z.ltb_spec a b); lia. Qed.

Lemma if_gtb_min a b : (if a >? b then b else a) = Z.min a b.
Proof. rewrite Z.gtb_ltb. destruct (Z.ltb_spec b a); lia. Qed.

(** Boolean comparisons into arithmetic facts. *)
Ltac b2p :=
  rewrite ?Z.gtb_ltb, ?Z.geb_leb in *;
  rewrite ?andb_true_iff, ?orb_true_iff, ?andb_false_iff, ?orb_false_iff,
    ?negb_true_iff, ?negb_false_iff, ?Z.ltb_lt, ?Z.ltb_ge, ?Z.leb_le,
    ?Z.leb_gt, ?Z.eqb_eq, ?Z.eqb_neq in *.

Ltac open_rects :=
  repeat match goal with
  | r : Rectangle |- _ => destruct r as [[? ?] [? ?]]
  | p : Point |- _ => destruct p as [? ?]
  end.

Lemma Empty_iff r :
  Empty r = true <-> X (Max r) <= X (Min r) \/ Y (Max r) <= Y (Min r).
Proof. unfold Empty. b2p. lia. Qed.

Lemma Empty_false_iff r :
  Empty r = false <-> X (Min r) < X (Max r) /\ Y (Min r) < Y (Max r).
Proof. unfold Empty. b2p. lia. Qed.

Lemma PtIn_iff p r :
  PtIn p r = true <->
  X (Min r) <= X p < X (Max r) /\ Y (Min r) <= Y p < Y (Max r).
Proof. unfold PtIn. b2p. lia. Qed.

Lemma In_iff r s :
  In r s = true <->
  Empty r = true \/
  (X (Min s) <= X (Min r) /\ X (Max r) <= X (Max s) /\
   Y (Min s) <= Y (Min r) /\ Y (Max r) <= Y (Max s)).
Proof.
  unfold In. destruct (Empty r); [intuition | ].
  b2p. intuition; discriminate.
Qed.

(** [Intersect] in terms of [max] and [min]. *)
Lemma Intersect_eq r s :
  Intersect r s =
  let r' := Rectangle_ (Pt (Z.max (X (Min r)) (X (Min s))) (Z.max (Y (Min r)) (Y (Min s))))
                       (Pt (Z.min (X (Max r)) (X (Max s))) (Z.min (Y (Max r)) (Y (Max s)))) in
  if Empty r' then ZR else r'.
Proof. unfold Intersect. rewrite !if_ltb_max, !if_gtb_min. reflexivity. Qed.

Lemma Union_eq r s :
  Union r s =
  if Empty r then s else if Empty s then r else
  Rectangle_ (Pt (Z.min (X (Min r)) (X (Min s))) (Z.min (Y (Min r)) (Y (Min s))))
             (Pt (Z.max (X (Max r)) (X (Max s))) (Z.max (Y (Max r)) (Y (Max s)))).
Proof. unfold Union. rewrite !if_ltb_max, !if_gtb_min. reflexivity. Qed.

Lemma PtIn_Empty p r : Empty r = true -> PtIn p r = false.
Proof.
  rewrite Empty_iff. intros H. apply not_true_is_false.
  rewrite PtIn_iff. lia.
Qed.

Lemma PtIn_Intersect p r s :
  PtIn p (Intersect r s) = PtIn p r && PtIn p s.
Proof.
  apply eq_true_iff_eq. rewrite andb_true_iff, Intersect_eq. cbv zeta.
  destruct (Empty _) eqn:E.
  - apply Empty_iff in E. simpl in E. rewrite !PtIn_iff. simpl. lia.
  - rewrite !PtIn_iff. simpl. lia.
Qed.

Lemma Intersect_In_r r s : In (Intersect r s) s = true.
Proof.
  rewrite Intersect_eq. cbv zeta. destruct (Empty _) eqn:E; [reflexivity | ].
  apply In_iff. right. simpl. lia.
Qed.

Lemma Intersect_In_l r s : In (Intersect r s) r = true.
Proof.
  rewrite Intersect_eq. cbv zeta. destruct (Empty _) eqn:E; [reflexivity | ].
  apply In_iff. right. simpl. lia.
Qed.

Lemma In_refl r : In r r = true.
Proof. apply In_iff. destruct (Empty r); [by left | right; lia]. Qed.

Lemma Union_In_l r s : In r (Union r s) = true.
Proof.
  apply In_iff. destruct (Empty r) eqn:Er; [by left | right].
  rewrite Union_eq, Er. destruct (Empty s); simpl; lia.
Qed.

Lemma Union_In_r r s : In s (Union r s) = true.
Proof.
  apply In_iff. destruct (Empty s) eqn:Es; [by left | right].
  rewrite Union_eq, Es. destruct (Empty r); simpl; lia.
Qed.

Lemma In_PtIn r s p : In r s = true -> PtIn p r = true -> PtIn p s = true.
Proof.
  rewrite In_iff, !PtIn_iff, Empty_iff. lia.
Qed.

Lemma Intersect_Empty_l r s : Empty r = true -> Empty (Intersect r s) = true.
Proof.
  intros H. rewrite Intersect_eq. cbv zeta.
  destruct (Empty (Rectangle_ _ _)) eqn:E; [reflexivity | ].
  apply Empty_iff in H. apply Empty_false_iff in E. simpl in E. lia.
Qed.

Lemma Intersect_no_overlap r s :
  Overlaps r s = false -> Empty (Intersect r s) = true.
Proof.
  intros H. rewrite Intersect_eq. cbv zeta.
  destruct (Empty (Rectangle_ _ _)) eqn:E; [reflexivity | ].
  apply Empty_false_iff in E. simpl in E.
  unfold Overlaps in H. b2p. rewrite !Empty_iff in H. lia.
Qed.


Lemma Rect_canonical x1 y1 :
  0 <= x1 -> 0 <= y1 -> Rect 0 0 x1 y1 = Rectangle_ (Pt 0 0) (Pt x1 y1).
Proof.
  intros. unfold Rect. rewrite !Z.gtb_ltb.
  destruct (Z.ltb_spec x1 0), (Z.ltb_spec y1 0); try lia. reflexivity.
Qed.

Lemma nonempty_wf r : Empty r = false -> 0 < Dx r /\ 0 < Dy r.
Proof. rewrite Empty_false_iff. unfold Dx, Dy. lia. Qed.

End Rectangles.

(** ** Rasters *)

Section Rasters.
Import image spec.

Lemma elem_of_points p r : p ∈ points r <-> PtIn p r = true.
Proof.
  unfold points. rewrite list_elem_of_bind, PtIn_iff. split.
  - intros (y & Hp & Hy). apply list_elem_of_bind in Hp as (x & Hp & Hx).
    apply list_elem_of_singleton in Hp. subst p.
    apply elem_of_seqZ in Hy, Hx. unfold Dx, Dy in *. simpl. lia.
  - intros [Hx Hy]. exists (Y p). split.
    + apply list_elem_of_bind. exists (X p). split.
      * destruct p. simpl. apply list_elem_of_singleton. reflexivity.
      * apply elem_of_seqZ. unfold Dx. lia.
    + apply elem_of_seqZ. unfold Dy. lia.
Qed.

Lemma byte_insert_eq (l : list Z) i x :
  (i < length l)%nat -> byte (<[i:=x]> l) i = x.
Proof. intros H. unfold byte. by rewrite list_lookup_insert_eq. Qed.

Lemma byte_insert_ne (l : list Z) i j x :
  i <> j -> byte (<[i:=x]> l) j = byte l j.
Proof. intros H. unfold byte. by rewrite list_lookup_insert_ne. Qed.

Lemma byte_replicate n i : byte (replicate n 0) i = 0.
Proof.
  unfold byte. destruct (replicate n 0 !! i) eqn:E; [ | reflexivity].
  apply lookup_replicate in E as [-> _]. reflexivity.
Qed.

(** The four bytes of a pixel of the bounds lie inside [Pix]. *)
Lemma PixOffset_range p x y :
  WellFormed p -> PtIn (Pt x y) (RGBARect p) = true ->
  0 <= PixOffset p x y /\
  (Z.to_nat (PixOffset p x y) + 3 < length (Pix p))%nat.
Proof.
  intros (Hx & Hy & Hs & Hl) Hin. apply PtIn_iff in Hin. simpl in Hin.
  unfold PixOffset. rewrite Hl, Hs. unfold Dx, Dy in *.
  set (x0 := X (Min (RGBARect p))) in *. set (y0 := Y (Min (RGBARect p))) in *.
  set (x1 := X (Max (RGBARect p))) in *. set (y1 := Y (Max (RGBARect p))) in *.
  assert (0 <= (y - y0) * (x1 - x0)) by nia.
  assert ((y - y0) * (x1 - x0) + (x1 - x0) <= (x1 - x0) * (y1 - y0)) by nia.
  split; [lia | ].
  apply Nat2Z.inj_lt. rewrite Nat2Z.inj_add, !Z2Nat.id by lia. lia.
Qed.

(** Two distinct pixels of the bounds are at least four bytes apart. *)
Lemma PixOffset_apart p x y x' y' :
  WellFormed p ->
  PtIn (Pt x y) (RGBARect p) = true -> PtIn (Pt x' y') (RGBARect p) = true ->
  (x, y) <> (x', y') ->
  PixOffset p x y + 4 <= PixOffset p x' y' \/
  PixOffset p x' y' + 4 <= PixOffset p x y.
Proof.
  intros (Hx & Hy & Hs & Hl) Hin Hin' Hne.
  apply PtIn_iff in Hin, Hin'. simpl in Hin, Hin'.
  unfold PixOffset. rewrite Hs. unfold Dx, Dy in *.
  set (x0 := X (Min (RGBARect p))) in *. set (y0 := Y (Min (RGBARect p))) in *.
  set (x1 := X (Max (RGBARect p))) in *. set (y1 := Y (Max (RGBARect p))) in *.
  destruct (Z.lt_trichotomy y y') as [Hlt | [Heq | Hgt]].
  - left. assert ((y - y0) * (x1 - x0) + (x1 - x0) <= (y' - y0) * (x1 - x0)) by nia. lia.
  - subst y'. assert (x <> x') by congruence. lia.
  - right. assert ((y' - y0) * (x1 - x0) + (x1 - x0) <= (y - y0) * (x1 - x0)) by nia. lia.
Qed.

Lemma NewRGBA_WellFormed r : 0 <= Dx r -> 0 <= Dy r -> WellFormed (NewRGBA r).
Proof.
  intros Hx Hy. unfold WellFormed, NewRGBA. simpl.
  rewrite length_replicate. auto.
Qed.

Lemma RGBAAt_NewRGBA r x y : RGBAAt (NewRGBA r) x y = color.zero.
Proof.
  unfold RGBAAt, NewRGBA. simpl.
  destruct (negb _); [reflexivity | ]. by rewrite !byte_replicate.
Qed.

Lemma SetRGBA_Rect p x y c : RGBARect (SetRGBA p x y c) = RGBARect p.
Proof. unfold SetRGBA. by destruct (negb _). Qed.

Lemma SetRGBA_WellFormed p x y c : WellFormed p -> WellFormed (SetRGBA p x y c).
Proof.
  intros H. unfold SetRGBA. destruct (negb _); [assumption | ].
  unfold WellFormed in *. simpl. by rewrite !length_insert.
Qed.

(** A pixel that was set reads back. *)
Lemma RGBAAt_SetRGBA_same p x y c :
  WellFormed p -> PtIn (Pt x y) (RGBARect p) = true ->
  RGBAAt (SetRGBA p x y c) x y = c.
Proof.
  intros Hwf Hin. destruct (PixOffset_range p x y Hwf Hin) as [H0 Hlen].
  unfold RGBAAt, SetRGBA. rewrite Hin. simpl. rewrite Hin. simpl.
  assert (Hoff : forall px,
    PixOffset (RGBA_ px (Stride p) (RGBARect p)) x y = PixOffset p x y)
    by reflexivity.
  rewrite !Hoff. clear Hoff.
  set (i := Z.to_nat (PixOffset p x y)) in *.
  destruct c as [cr cg cb ca]. simpl. f_equal.
  - rewrite !byte_insert_ne by lia. by rewrite byte_insert_eq by lia.
  - rewrite !byte_insert_ne by lia.
    by rewrite byte_insert_eq by (rewrite ?length_insert; lia).
  - rewrite !byte_insert_ne by lia.
    by rewrite byte_insert_eq by (rewrite ?length_insert; lia).
  - by rewrite byte_insert_eq by (rewrite ?length_insert; lia).
Qed.

(** Setting a pixel leaves every other pixel alone. *)
Lemma RGBAAt_SetRGBA_other p x y c x' y' :
  WellFormed p -> (x, y) <> (x', y') ->
  RGBAAt (SetRGBA p x y c) x' y' = RGBAAt p x' y'.
Proof.
  intros Hwf Hne. unfold SetRGBA.
  destruct (PtIn (Pt x y) (RGBARect p)) eqn:Hin; simpl; [ | reflexivity].
  unfold RGBAAt. simpl.
  destruct (PtIn (Pt x' y') (RGBARect p)) eqn:Hin'; simpl; [ | reflexivity].
  assert (Hoff : forall px,
    PixOffset (RGBA_ px (Stride p) (RGBARect p)) x' y' = PixOffset p x' y')
    by reflexivity.
  rewrite !Hoff. clear Hoff.
  destruct (PixOffset_range p x y Hwf Hin) as [H0 _].
  destruct (PixOffset_range p x' y' Hwf Hin') as [H0' _].
  pose proof (PixOffset_apart p x y x' y' Hwf Hin Hin' Hne) as Hap.
  set (i := Z.to_nat (PixOffset p x y)) in *.
  set (j := Z.to_nat (PixOffset p x' y')) in *.
  assert (i + 4 <= j \/ j + 4 <= i)%nat as Hij by (subst i j; lia).
  f_equal; rewrite !byte_insert_ne by lia; reflexivity.
Qed.

End Rasters.

(** ** Drawing *)

Section Drawing.
Import image spec.

(** A loop of [SetRGBA] over points of the bounds: the raster afterwards,
    pixel by pixel. *)
Lemma fold_SetRGBA (f : Point -> color.RGBA) pts dst :
  WellFormed dst ->
  (forall p, p ∈ pts -> PtIn p (RGBARect dst) = true) ->
  let d' := fold_left (fun d p => SetRGBA d (X p) (Y p) (f p)) pts dst in
  WellFormed d' /\ RGBARect d' = RGBARect dst /\
  forall x y,
    RGBAAt d' x y =
    if decide (Pt x y ∈ pts) then f (Pt x y) else RGBAAt dst x y.
Proof.
  intros Hwf. induction pts as [ | p pts IH] using rev_ind; intros Hin; cbv zeta.
  - cbn [fold_left]. split; [assumption | split; [reflexivity | ] ]. intros x y.
    case_decide as H; [ | reflexivity]. by apply elem_of_nil in H.
  - rewrite fold_left_app. cbn [fold_left].
    destruct IH as (IHwf & IHr & IHat).
    { intros q Hq. apply Hin. apply elem_of_app. by left. }
    split; [by apply SetRGBA_WellFormed | ].
    split; [by rewrite SetRGBA_Rect | ].
    intros x y. destruct (decide (Pt x y = p)) as [<- | Hne].
    + cbn [X Y]. rewrite RGBAAt_SetRGBA_same; [ | assumption | ].
      * case_decide as H; [reflexivity | ].
        exfalso. apply H. apply elem_of_app. right. by apply list_elem_of_singleton.
      * rewrite IHr. apply Hin. apply elem_of_app. right.
        by apply list_elem_of_singleton.
    + rewrite RGBAAt_SetRGBA_other; [ | assumption | ].
      * rewrite IHat. destruct (decide (Pt x y ∈ pts)) as [H | H].
        -- case_decide as H'; [reflexivity | ].
           exfalso. apply H'. apply elem_of_app. by left.
        -- case_decide as H'; [ | reflexivity].
           apply elem_of_app in H' as [H' | H']; [contradiction | ].
           apply list_elem_of_singleton in H'. contradiction.
      * intros Heq. apply Hne. destruct p as [px py]. simpl in Heq.
        by inversion Heq.
Qed.

Lemma clip_in_dst dst r sb sp :
  In (draw.clip dst r sb sp).1 (Bounds dst) = true.
Proof.
  unfold draw.clip. cbv zeta.
  set (r2 := Intersect (Intersect r (Bounds dst)) _).
  assert (In r2 (Bounds dst) = true) as H.
  { apply In_iff. destruct (Empty r2) eqn:E; [by left | right].
    pose proof (Intersect_In_l (Intersect r (Bounds dst))
                  (Add sb (PtSub (Min r) sp))) as H1.
    pose proof (Intersect_In_r r (Bounds dst)) as H2.
    fold r2 in H1. apply In_iff in H1 as [H1 | H1]; [congruence | ].
    apply In_iff in H2 as [H2 | H2].
    - apply Empty_iff in H2. apply Empty_false_iff in E. lia.
    - lia. }
  by destruct (_ && _).
Qed.

(** [draw.Draw] with [draw.Src], pixel by pixel: inside the clipped
    rectangle the source shows, shifted; elsewhere the destination stays. *)
Lemma Draw_spec dst r src sp :
  WellFormed dst ->
  let r' := (draw.clip dst r (Bounds src) sp).1 in
  let sp' := (draw.clip dst r (Bounds src) sp).2 in
  WellFormed (draw.Draw dst r src sp) /\
  RGBARect (draw.Draw dst r src sp) = RGBARect dst /\
  forall x y,
    RGBAAt (draw.Draw dst r src sp) x y =
    if PtIn (Pt x y) r'
    then RGBAAt src (x - X (Min r') + X sp') (y - Y (Min r') + Y sp')
    else RGBAAt dst x y.
Proof.
  intros Hwf r' sp'. unfold draw.Draw.
  pose proof (clip_in_dst dst r (Bounds src) sp) as Hin. fold r' in Hin.
  destruct (draw.clip dst r (Bounds src) sp) as [r0 sp0] eqn:Hc.
  simpl in r', sp'. subst r' sp'.
  destruct (Empty r0) eqn:E.
  - split; [assumption | split; [reflexivity | ] ]. intros x y.
    by rewrite (PtIn_Empty _ _ E).
  - pose proof (fold_SetRGBA
      (fun p => RGBAAt src (X p - X (Min r0) + X sp0) (Y p - Y (Min r0) + Y sp0))
      (points r0) dst Hwf) as Hf.
    destruct Hf as (H1 & H2 & H3).
    { intros p Hp. apply elem_of_points in Hp. eapply In_PtIn; eassumption. }
    split; [assumption | split; [assumption | ] ].
    intros x y. rewrite H3. cbn [X Y].
    case_decide as H.
    + apply elem_of_points in H. by rewrite H.
    + destruct (PtIn (Pt x y) r0) eqn:Hp; [ | reflexivity].
      exfalso. apply H. by apply elem_of_points.
Qed.

(** The clip of a resize is the overlap of the old and the new bounds,
    and source and destination points coincide. *)
Lemma resized_clip old r :
  let c := draw.clip (NewRGBA r) (Bounds old) (Bounds old) (Min (Bounds old)) in
  (forall p, PtIn p c.1 = PtIn p (Bounds old) && PtIn p r) /\
  (Empty c.1 = false -> c.2 = Min c.1).
Proof.
  unfold draw.clip. cbv zeta.
  set (b := Bounds old).
  set (r2 := Intersect (Intersect b (Bounds (NewRGBA r))) _).
  assert (forall p, PtIn p r2 = PtIn p b && PtIn p r) as Hp.
  { intros p. unfold r2. rewrite !PtIn_Intersect.
    change (Bounds (NewRGBA r)) with r.
    assert (PtIn p (Add b (PtSub (Min b) (Min b))) = PtIn p b) as ->.
    { apply eq_true_iff_eq. rewrite !PtIn_iff. simpl. lia. }
    destruct (PtIn p b), (PtIn p r); reflexivity. }
  destruct (Z.eqb_spec (X (Min r2) - X (Min b)) 0) as [Hx | Hx];
    destruct (Z.eqb_spec (Y (Min r2) - Y (Min b)) 0) as [Hy | Hy]; simpl;
    (split; [exact Hp | intros _]);
    destruct (Min r2) as [mx my], (Min b) as [bx by_]; simpl in *; f_equal; lia.
Qed.

(** What a resize does to the surface. *)
Lemma resized_spec old r :
  0 <= Dx r -> 0 <= Dy r ->
  WellFormed (win.resized old r) /\
  Bounds (win.resized old r) = r /\
  forall x y,
    RGBAAt (win.resized old r) x y =
    if PtIn (Pt x y) (Bounds old) && PtIn (Pt x y) r
    then RGBAAt old x y else color.zero.
Proof.
  intros Hx Hy. unfold win.resized.
  pose proof (Draw_spec (NewRGBA r) (Bounds old) old (Min (Bounds old))
                (NewRGBA_WellFormed r Hx Hy)) as H.
  cbv zeta in H. destruct H as (H1 & H2 & H3).
  destruct (resized_clip old r) as [Hp Hs].
  split; [assumption | split; [exact H2 | ] ].
  intros x y. rewrite H3, Hp.
  destruct (PtIn (Pt x y) (Bounds old) && PtIn (Pt x y) r) eqn:E.
  - rewrite Hs.
    + f_equal; lia.
    + destruct (Empty _) eqn:E'; [ | reflexivity].
      apply (PtIn_Empty (Pt x y)) in E'. rewrite Hp in E'. congruence.
  - apply RGBAAt_NewRGBA.
Qed.

End Drawing.

(** ** The GL thread between two timer flushes *)

Section Accumulation.
Import image win spec.

Lemma win_receive_serviced t tr m :
  serviced m = true ->
  exists t' out,
    win.receive t tr m = Some (t', out) /\
    pc t' = Inner /\
    totalR t' = fold_left Union (reported (img (this t)) [m]) tr /\
    img (this t') = surface (img (this t)) [m] /\
    finishCloses t' = finishCloses t.
Proof.
  destruct m; try discriminate; intros _; simpl.
  - do 2 eexists. split; [reflexivity | ]. simpl. auto.
  - destruct (call d (img (this t))) as [im r] eqn:E. simpl.
    do 2 eexists. split; [reflexivity | ]. simpl. auto.
  - do 2 eexists. split; [reflexivity | ]. simpl. auto.
Qed.

Lemma winflush_receive_serviced t tr m :
  serviced m = true -> isGL m = false ->
  exists t' out,
    winflush.receive t tr m = Some (t', out) /\
    pc t' = Inner /\
    totalR t' = fold_left Union (reported (img (this t)) [m]) tr /\
    img (this t') = surface (img (this t)) [m] /\
    finishCloses t' = finishCloses t.
Proof.
  destruct m; try discriminate; intros _ _; simpl.
  - do 2 eexists. split; [reflexivity | ]. simpl. auto.
  - destruct (call d (img (this t))) as [im r] eqn:E. simpl.
    do 2 eexists. split; [reflexivity | ]. simpl. auto.
Qed.

Lemma reported_cons im m ms :
  reported im (m :: ms) = reported im [m] ++ reported (surface im [m]) ms.
Proof. destruct m; reflexivity. Qed.

Lemma surface_cons im m ms :
  surface im (m :: ms) = surface (surface im [m]) ms.
Proof. destruct m; reflexivity. Qed.

Lemma win_run_inner ms : forall t,
  pc t = Inner -> forallb serviced ms = true ->
  exists t' out,
    win.run t ms = Some (t', out) /\
    pc t' = Inner /\
    totalR t' = fold_left Union (reported (img (this t)) ms) (totalR t) /\
    img (this t') = surface (img (this t)) ms /\
    finishCloses t' = finishCloses t.
Proof.
  induction ms as [ | m ms IH]; intros t Hpc Hall.
  - simpl. do 2 eexists. split; [reflexivity | auto].
  - simpl in Hall. apply andb_true_iff in Hall as [Hm Hms].
    destruct (win_receive_serviced t (totalR t) m Hm)
      as (t1 & out1 & Hr & Hpc1 & Htr1 & Him1 & Hf1).
    destruct (IH t1 Hpc1 Hms) as (t2 & out2 & Hrun & Hpc2 & Htr2 & Him2 & Hf2).
    exists t2, (out1 ++ out2). cbn [win.run]. unfold win.step. rewrite Hpc.
    assert (win.receive t (totalR t) m = Some (t1, out1) ->
            match m with
            | Tick => Some (Thread_ (this t) ZR Outer (names t) (finishCloses t),
                            openGLRenderGui (this t) (totalR t) ++ [gl.SwapBuffers])
            | _ => win.receive t (totalR t) m
            end = Some (t1, out1)) as Hs by (destruct m; try discriminate; auto).
    rewrite (Hs Hr), Hrun.
    rewrite (reported_cons _ m ms), (surface_cons _ m ms), fold_left_app, <- Htr1, <- Him1.
    split; [reflexivity | ]. split; [assumption | ]. split; [assumption | ].
    split; [assumption | congruence].
Qed.

Lemma win_run_outer m ms t :
  pc t = Outer -> forallb serviced (m :: ms) = true ->
  exists t' out,
    win.run t (m :: ms) = Some (t', out) /\
    pc t' = Inner /\
    totalR t' = unionAll (reported (img (this t)) (m :: ms)) /\
    img (this t') = surface (img (this t)) (m :: ms) /\
    finishCloses t' = finishCloses t.
Proof.
  intros Hpc Hall. simpl in Hall. apply andb_true_iff in Hall as [Hm Hms].
  destruct (win_receive_serviced t ZR m Hm)
    as (t1 & out1 & Hr & Hpc1 & Htr1 & Him1 & Hf1).
  destruct (win_run_inner ms t1 Hpc1 Hms)
    as (t2 & out2 & Hrun & Hpc2 & Htr2 & Him2 & Hf2).
  exists t2, (out1 ++ out2). cbn [win.run]. unfold win.step. rewrite Hpc, Hr, Hrun.
  unfold unionAll.
  rewrite (reported_cons _ m ms), (surface_cons _ m ms), fold_left_app, <- Htr1, <- Him1.
  split; [reflexivity | ]. split; [assumption | ]. split; [assumption | ].
  split; [assumption | congruence].
Qed.

Lemma winflush_run_inner ms : forall t,
  pc t = Inner -> forallb serviced ms = true -> existsb isGL ms = false ->
  exists t' out,
    winflush.run t ms = Some (t', out) /\
    pc t' = Inner /\
    totalR t' = fold_left Union (reported (img (this t)) ms) (totalR t) /\
    img (this t') = surface (img (this t)) ms /\
    finishCloses t' = finishCloses t.
Proof.
  induction ms as [ | m ms IH]; intros t Hpc Hall Hgl.
  - simpl. do 2 eexists. split; [reflexivity | auto].
  - simpl in Hall, Hgl. apply andb_true_iff in Hall as [Hm Hms].
    apply orb_false_iff in Hgl as [Hg Hgs].
    destruct (winflush_receive_serviced t (totalR t) m Hm Hg)
      as (t1 & out1 & Hr & Hpc1 & Htr1 & Him1 & Hf1).
    destruct (IH t1 Hpc1 Hms Hgs) as (t2 & out2 & Hrun & Hpc2 & Htr2 & Him2 & Hf2).
    exists t2, (out1 ++ out2). cbn [winflush.run]. unfold winflush.step. rewrite Hpc.
    assert (winflush.receive t (totalR t) m = Some (t1, out1) ->
            match m with
            | Tick => Some (Thread_ (this t) ZR Outer (names t) (finishCloses t),
                            winflush.openGLFlush (this t) (totalR t))
            | _ => winflush.receive t (totalR t) m
            end = Some (t1, out1)) as Hs by (destruct m; try discriminate; auto).
    rewrite (Hs Hr), Hrun.
    rewrite (reported_cons _ m ms), (surface_cons _ m ms), fold_left_app, <- Htr1, <- Him1.
    split; [reflexivity | ]. split; [assumption | ]. split; [assumption | ].
    split; [assumption | congruence].
Qed.

Lemma winflush_run_outer m ms t :
  pc t = Outer -> forallb serviced (m :: ms) = true ->
  existsb isGL (m :: ms) = false ->
  exists t' out,
    winflush.run t (m :: ms) = Some (t', out) /\
    pc t' = Inner /\
    totalR t' = unionAll (reported (img (this t)) (m :: ms)) /\
    img (this t') = surface (img (this t)) (m :: ms) /\
    finishCloses t' = finishCloses t.
Proof.
  intros Hpc Hall Hgl. simpl in Hall, Hgl.
  apply andb_true_iff in Hall as [Hm Hms].
  apply orb_false_iff in Hgl as [Hg Hgs].
  destruct (winflush_receive_serviced t ZR m Hm Hg)
    as (t1 & out1 & Hr & Hpc1 & Htr1 & Him1 & Hf1).
  destruct (winflush_run_inner ms t1 Hpc1 Hms Hgs)
    as (t2 & out2 & Hrun & Hpc2 & Htr2 & Him2 & Hf2).
  exists t2, (out1 ++ out2). cbn [winflush.run]. unfold winflush.step.
  rewrite Hpc, Hr, Hrun. unfold unionAll.
  rewrite (reported_cons _ m ms), (surface_cons _ m ms), fold_left_app, <- Htr1, <- Him1.
  split; [reflexivity | ]. split; [assumption | ]. split; [assumption | ].
  split; [assumption | congruence].
Qed.

End Accumulation.

(** ** Machine integers *)

Section Integers.

Lemma int_small z : goint.in_int z -> goint.int z = z.
Proof.
  unfold goint.in_int, goint.int, goint.wrap. intros H.
  change (2 ^ (64 - 1)) with (2 ^ 63). rewrite Z.mod_small; lia.
Qed.

Lemma mul_small a b : goint.in_int (a * b) -> goint.mul a b = a * b.
Proof. apply int_small. Qed.

(** The clamped quotient of [New], in terms of floor division. *)
Lemma clamped_quot F W :
  0 <= F < 2 ^ 63 -> W <> 0 ->
  (if goint.quot F W <? 1 then 1 else goint.quot F W) = Z.max 1 (F / W).
Proof.
  intros HF HW. unfold goint.quot.
  destruct (Z.lt_trichotomy W 0) as [Hneg | [H0 | Hpos]]; [ | congruence | ].
  - assert (F / W <= 0) as Hd.
    { pose proof (Z.div_mod F W HW). pose proof (Z.mod_neg_bound F W Hneg). nia. }
    assert (- F <= Z.quot F W <= 0) as Hq.
    { rewrite <- (Z.opp_involutive W), Z.quot_opp_r by lia.
      rewrite Z.quot_div_nonneg by lia.
      assert (0 <= F / - W) by (apply Z.div_pos; lia).
      assert (F / - W <= F) by (apply Z.div_le_upper_bound; nia). lia. }
    rewrite int_small by (unfold goint.in_int; lia).
    destruct (Z.ltb_spec (Z.quot F W) 1); lia.
  - rewrite Z.quot_div_nonneg by lia.
    assert (0 <= F / W <= F).
    { split; [apply Z.div_pos; lia | apply Z.div_le_upper_bound; nia]. }
    rewrite int_small by (unfold goint.in_int; lia).
    destruct (Z.ltb_spec (F / W) 1); lia.
Qed.

End Integers.

(** ** The two threads together *)

Section Threads.
Import image win spec.

(** A step of the GL thread closes [finish] at most once, and only on
    its way out. *)
Lemma win_step_finish t m t' out :
  win.step t m = Some (t', out) ->
  (pc t = Returned <-> finishCloses t = 1%nat) -> (finishCloses t <= 1)%nat ->
  (pc t' = Returned <-> finishCloses t' = 1%nat) /\ (finishCloses t' <= 1)%nat.
Proof.
  unfold win.step. intros Hs Hiff Hle.
  assert (pc t <> Returned -> finishCloses t = 0%nat) as H0.
  { intros Hn. destruct (finishCloses t) as [ | [ | n] ]; [reflexivity | | lia].
    exfalso. apply Hn. by apply Hiff. }
  destruct (pc t) eqn:Hpc; [ | | discriminate];
    specialize (H0 ltac:(discriminate));
    destruct m; simpl in Hs;
    try destruct (call d (img (this t))) as [im r];
    inversion Hs; subst; simpl; rewrite ?H0; split; (lia || (split; (discriminate || lia || reflexivity || auto))).
Qed.

Lemma win_step_Returned t m : pc t = Returned -> win.step t m = None.
Proof. intros H. unfold win.step. by rewrite H. Qed.

Lemma waiting_Returned s : pc (sys.glT s) = Returned -> sys.waiting s = false.
Proof. intros H. unfold sys.waiting. rewrite H. by destruct (sys.glCase s). Qed.

Lemma caught_step s l s' :
  caught s -> sys.step s l = Some s' -> caught s' /\ sys.evPc s' = sys.evPc s.
Proof.
  intros (Hpc & (r & todo & Hev) & Hc & Hd) Hs.
  unfold caught.
  destruct l; cbn [sys.step] in Hs; unfold sys.gl_receives, sys.gl_takes in Hs;
    rewrite ?Hev in Hs; rewrite ?(waiting_Returned _ Hpc) in Hs;
    rewrite ?(win_step_Returned _ _ Hpc) in Hs;
    repeat match type of Hs with
           | (if ?b then _ else _) = _ => destruct b
           | match sys.glCase s with Some _ => _ | None => _ end = _ =>
               destruct (sys.glCase s);
               rewrite ?(win_step_Returned _ _ Hpc) in Hs
           end;
    try discriminate Hs;
    inversion Hs; subst; simpl; eauto 10.
Qed.

Lemma caught_forever ls : forall s,
  caught s ->
  match sys.run s ls with
  | Some s' =>
      sys.eventsInCloses s' = 0%nat /\ sys.destroys s' = 0%nat /\
      sys.evPc s' = sys.evPc s
  | None => True
  end.
Proof.
  induction ls as [ | l ls IH]; intros s Hs; simpl.
  - destruct Hs as (_ & _ & Hc & Hd). auto.
  - destruct (sys.step s l) as [s1 | ] eqn:E; [ | exact I].
    destruct (caught_step s l s1 Hs E) as [H1 Hev].
    specialize (IH s1 H1). destruct (sys.run s1 ls); [ | exact I].
    rewrite <- Hev. exact IH.
Qed.

Lemma orderly_start wi names : orderly (sys.start wi names).
Proof.
  unfold orderly. simpl. repeat split; try lia; try discriminate.
Qed.

(** [orderly] looks at the GL thread and at the three fields of the event
    thread's teardown only. *)
Lemma orderly_frame s s' :
  orderly s ->
  sys.glT s' = sys.glT s -> sys.evPc s' = sys.evPc s ->
  sys.eventsInCloses s' = sys.eventsInCloses s ->
  sys.destroys s' = sys.destroys s ->
  orderly s'.
Proof. unfold orderly. intros H -> -> -> ->. exact H. Qed.

(** The same, when the event thread moves without leaving. *)
Lemma orderly_moves s s' :
  orderly s ->
  sys.glT s' = sys.glT s ->
  sys.evPc s <> sys.Gone -> sys.evPc s' <> sys.Gone ->
  sys.eventsInCloses s' = sys.eventsInCloses s ->
  sys.destroys s' = sys.destroys s ->
  orderly s'.
Proof.
  unfold orderly. intros (Hc & Hd & Hf & Hpc & Hev & Hcf) -> Hn Hn' -> ->.
  repeat split; try tauto; try lia; intros H; exfalso; tauto.
Qed.

(** The same, when the GL thread takes a step. *)
Lemma orderly_gl s t m out s' :
  orderly s -> win.step (sys.glT s) m = Some (t, out) ->
  sys.glT s' = t -> sys.evPc s' = sys.evPc s ->
  sys.eventsInCloses s' = sys.eventsInCloses s ->
  sys.destroys s' = sys.destroys s ->
  orderly s'.
Proof.
  unfold orderly. intros (Hc & Hd & Hf & Hpc & Hev & Hcf) E -> -> -> ->.
  destruct (win_step_finish _ _ _ _ E Hpc Hf) as [Hpc' Hf'].
  repeat split; try tauto; try lia.
  intros H1. specialize (Hcf H1).
  apply Hpc in Hcf. by rewrite (win_step_Returned _ _ Hcf) in E.
Qed.

Lemma orderly_step s l s' : orderly s -> sys.step s l = Some s' -> orderly s'.
Proof.
  intros Ho Hs.
  assert (forall m s1, sys.gl_receives s m = Some s1 -> orderly s1) as Hrc.
  { intros m s1 Hr. unfold sys.gl_receives in Hr.
    destruct (sys.waiting s); [ | discriminate].
    inversion Hr; subst. by apply (orderly_frame s). }
  assert (forall m s1, sys.gl_takes s m = Some s1 -> orderly s1) as Htk.
  { intros m s1 Hr. unfold sys.gl_takes in Hr.
    destruct (sys.waiting s); [ | discriminate].
    destruct (win.step (sys.glT s) m) as [[t out] | ] eqn:E; [ | discriminate].
    inversion Hr; subst. by apply (orderly_gl s t m out). }
  destruct l; cbn [sys.step] in Hs.
  - (* CallerDraw *) destruct (sys.drawClosed s); [discriminate | eauto].
  - (* CallerGL *) destruct (sys.drawGLClosed s); [discriminate | eauto].
  - (* CallerCloseDraw *)
    destruct (sys.drawClosed s); [discriminate | ].
    inversion Hs; subst. by apply (orderly_frame s).
  - (* CallerCloseGL *)
    destruct (sys.drawGLClosed s); [discriminate | ].
    inversion Hs; subst. by apply (orderly_frame s).
  - (* GLRuns *)
    destruct (sys.glCase s) as [m | ]; [ | discriminate].
    destruct (win.step (sys.glT s) m) as [[t out] | ] eqn:E; [ | discriminate].
    inversion Hs; subst. by apply (orderly_gl s t m out).
  - (* TimerFires *) eauto.
  - (* GLSeesDrawClosed *) destruct (sys.drawClosed s); [eauto | discriminate].
  - (* GLSeesGLClosed *) destruct (sys.drawGLClosed s); [eauto | discriminate].
  - (* EvSelect *)
    destruct (sys.evPc s) eqn:Epc; try discriminate.
    destruct (Nat.ltb_spec 0 (finishCloses (sys.glT s))).
    + destruct Ho as (Hc & Hd & Hf & Hpc & Hev & Hcf).
      assert (sys.eventsInCloses s = 0%nat) as Hc0.
      { destruct (sys.eventsInCloses s) as [ | [ | n] ]; [reflexivity | | lia].
        assert (sys.evPc s = sys.Gone) by (by apply Hev). congruence. }
      inversion Hs; subst; unfold orderly; simpl; rewrite ?Hc0 in *.
      intuition (discriminate || lia).
    + inversion Hs; subst.
      apply (orderly_moves s); try reflexivity; try assumption;
        cbn; congruence.
  - (* OSCallback *)
    destruct (sys.evPc s) eqn:Epc; try discriminate.
    destruct (callback _ _ _) as [m todo].
    inversion Hs; subst.
    apply (orderly_moves s); try reflexivity; try assumption; cbn; congruence.
  - (* EvSend *)
    destruct (sys.evPc s) as [ | | [ | [r | e | | ] todo] | ] eqn:Epc;
      try discriminate.
    + inversion Hs; subst.
      apply (orderly_moves s); try reflexivity; try assumption; cbn; congruence.
    + unfold sys.gl_receives in Hs.
      destruct (sys.waiting s); [ | discriminate].
      inversion Hs; subst.
      apply (orderly_moves s); try reflexivity; try assumption; cbn; congruence.
    + inversion Hs; subst.
      apply (orderly_moves s); try reflexivity; try assumption; cbn; congruence.
  - (* WaitReturns *)
    destruct (sys.evPc s) eqn:Epc; try discriminate.
    inversion Hs; subst.
    apply (orderly_moves s); try reflexivity; try assumption; cbn; congruence.
Qed.

Lemma orderly_run ls : forall s s',
  orderly s -> sys.run s ls = Some s' -> orderly s'.
Proof.
  induction ls as [ | l ls IH]; intros s s' Hs Hr; simpl in Hr.
  - by inversion Hr; subst.
  - destruct (sys.step s l) as [s1 | ] eqn:E; [ | discriminate].
    eapply IH; [ | exact Hr]. eapply orderly_step; eassumption.
Qed.

End Threads.

(** ** Damage rectangles *)

Section Damage.
Import image win spec props.

Lemma PtIn_Union_l p r s : PtIn p r = true -> PtIn p (Union r s) = true.
Proof.
  intros H. rewrite Union_eq.
  destruct (Empty r) eqn:Er; [by rewrite (PtIn_Empty _ _ Er) in H | ].
  destruct (Empty s) eqn:Es; [assumption | ].
  apply PtIn_iff in H. apply PtIn_iff. simpl. lia.
Qed.

Lemma PtIn_Union_r p r s : PtIn p s = true -> PtIn p (Union r s) = true.
Proof.
  intros H. rewrite Union_eq.
  destruct (Empty r) eqn:Er; [assumption | ].
  destruct (Empty s) eqn:Es; [by rewrite (PtIn_Empty _ _ Es) in H | ].
  apply PtIn_iff in H. apply PtIn_iff. simpl. lia.
Qed.

Lemma PtIn_fold_Union_acc p rs : forall acc,
  PtIn p acc = true -> PtIn p (fold_left Union rs acc) = true.
Proof.
  induction rs as [ | r rs IH]; intros acc H; simpl; [assumption | ].
  apply IH. by apply PtIn_Union_l.
Qed.

Lemma PtIn_fold_Union p r rs : forall acc,
  r ∈ rs -> PtIn p r = true -> PtIn p (fold_left Union rs acc) = true.
Proof.
  induction rs as [ | r' rs IH]; intros acc Hin H; [by apply elem_of_nil in Hin | ].
  simpl. apply elem_of_cons in Hin as [-> | Hin].
  - apply PtIn_fold_Union_acc. by apply PtIn_Union_r.
  - by apply IH.
Qed.

Lemma In_Intersect_id r s :
  Empty r = false -> In r s = true -> Intersect r s = r.
Proof.
  intros E H. apply In_iff in H as [H | H]; [congruence | ].
  apply Empty_false_iff in E. rewrite Intersect_eq. cbv zeta.
  destruct r as [[x0 y0] [x1 y1]]. simpl in *.
  rewrite !Z.max_l, !Z.min_l by lia.
  destruct (Empty _) eqn:E'; [ | reflexivity].
  apply Empty_iff in E'. simpl in E'. lia.
Qed.

End Damage.

(** ** Draw closures *)

Section Closures.
Import image win spec props.

(** A draw closure, whatever it writes, keeps the raster well formed and
    its bounds as they are. *)
Lemma call_WellFormed d im :
  WellFormed im ->
  WellFormed (call d im).1 /\ Bounds (call d im).1 = Bounds im.
Proof.
  intros Hwf. unfold call. destruct (d im) as [writes r]. cbn [fst].
  revert im Hwf. induction writes as [ | [q c] writes IH]; intros im Hwf.
  - by split.
  - cbn [fold_left]. destruct (IH (SetRGBA im (X (q, c).1) (Y (q, c).1) (q, c).2))
      as [H1 H2]; [by apply SetRGBA_WellFormed | ].
    split; [exact H1 | ]. rewrite H2. unfold Bounds. apply SetRGBA_Rect.
Qed.

(** [draw.Draw] from a uniform source, pixel by pixel. *)
Lemma DrawUniform_spec dst r c :
  WellFormed dst ->
  WellFormed (draw.DrawUniform dst r c) /\
  Bounds (draw.DrawUniform dst r c) = Bounds dst /\
  forall x y,
    RGBAAt (draw.DrawUniform dst r c) x y =
    if PtIn (Pt x y) r && PtIn (Pt x y) (Bounds dst) then c else RGBAAt dst x y.
Proof.
  intros Hwf. unfold draw.DrawUniform.
  set (r' := Intersect r (Bounds dst)).
  assert (forall p, PtIn p r' = PtIn p r && PtIn p (Bounds dst)) as Hp
    by (intros p; apply PtIn_Intersect).
  destruct (Empty r') eqn:E.
  - split; [assumption | split; [reflexivity | ] ]. intros x y.
    by rewrite <- Hp, (PtIn_Empty _ _ E).
  - destruct (fold_SetRGBA (fun _ => c) (points r') dst Hwf) as (H1 & H2 & H3).
    { intros p Hin. apply elem_of_points in Hin. rewrite Hp in Hin.
      by apply andb_true_iff in Hin as [_ ?]. }
    split; [assumption | split; [exact H2 | ] ].
    intros x y. rewrite H3, <- Hp. case_decide as H.
    + apply elem_of_points in H. by rewrite H.
    + destruct (PtIn (Pt x y) r') eqn:E'; [ | reflexivity].
      exfalso. apply H. by apply elem_of_points.
Qed.

(** The closure [fill r c] is [draw.Draw] with a uniform source. *)
Lemma call_fill r c im : call (fill r c) im = (draw.DrawUniform im r c, r).
Proof.
  unfold call, fill, draw.DrawUniform.
  set (r' := Intersect r (Bounds im)).
  assert (forall l d,
    fold_left (fun im0 (pc : Point * color.RGBA) =>
                 SetRGBA im0 (X pc.1) (Y pc.1) pc.2)
      (map (fun p => (p, c)) l) d =
    fold_left (fun d0 p => SetRGBA d0 (X p) (Y p) c) l d) as Hf.
  { induction l as [ | p l IH]; intros d; [reflexivity | simpl; apply IH]. }
  rewrite Hf. destruct (Empty r') eqn:E; [ | reflexivity].
  f_equal. unfold r' in *. rewrite Intersect_eq in *. cbv zeta in *.
  destruct (Empty (Rectangle_ _ _)) eqn:E2; [reflexivity | congruence].
Qed.

(** Writing transparent pixels into an all-transparent raster changes no
    byte. *)
Lemma DrawUniform_zero r :
  draw.DrawUniform (NewRGBA r) (Bounds (NewRGBA r)) color.zero = NewRGBA r.
Proof.
  unfold draw.DrawUniform. destruct (Empty _); [reflexivity | ].
  generalize (points (Intersect (Bounds (NewRGBA r)) (Bounds (NewRGBA r)))).
  intros l. induction l as [ | p l IH] using rev_ind; [reflexivity | ].
  rewrite fold_left_app. cbn [fold_left]. rewrite IH.
  unfold SetRGBA, NewRGBA. cbn [RGBARect Pix Stride color.R color.G color.B color.A color.zero].
  destruct (negb _); [reflexivity | ]. by rewrite !insert_replicate.
Qed.

End Closures.

(** ** The copy a flush uploads *)

Section Flushes.
Import image win spec props.

(** The clip of the copy a flush makes: the whole of the (non-empty,
    in-bounds) rectangle, read from the surface at the same place. *)
Lemma flush_clip im R :
  Empty R = false -> In R (Bounds im) = true ->
  draw.clip (NewRGBA R) R (Bounds im) (Min R) = (R, Min R).
Proof.
  intros E Hin. unfold draw.clip. cbv zeta.
  change (Bounds (NewRGBA R)) with R.
  rewrite (In_Intersect_id R R E (In_refl R)).
  rewrite (In_Intersect_id R _ E).
  - by rewrite !Z.sub_diag.
  - apply In_iff in Hin as [Hin | Hin]; [congruence | ].
    apply In_iff. right. simpl. lia.
Qed.

(** The raster a flush uploads: bounds [R], rows packed, and at every
    point of [R] the pixel of the surface. *)
Lemma flush_copy im r :
  let R := Intersect r (Bounds im) in
  let tmp := draw.Draw (NewRGBA R) R im (Min R) in
  Empty R = false ->
  WellFormed tmp /\ RGBARect tmp = R /\
  forall x y, PtIn (Pt x y) R = true -> RGBAAt tmp x y = RGBAAt im x y.
Proof.
  intros R tmp E.
  destruct (nonempty_wf R E) as [Hx Hy].
  pose proof (Draw_spec (NewRGBA R) R im (Min R)
                (NewRGBA_WellFormed R ltac:(lia) ltac:(lia))) as H.
  cbv zeta in H. rewrite (flush_clip im R E (Intersect_In_r r (Bounds im))) in H.
  cbn [fst snd] in H. destruct H as (H1 & H2 & H3).
  split; [exact H1 | split; [exact H2 | ] ].
  intros x y Hin. subst tmp. rewrite H3, Hin. f_equal; lia.
Qed.

Lemma payloadPixel_RGBAAt p x y :
  WellFormed p -> PtIn (Pt x y) (RGBARect p) = true ->
  payloadPixel (Pix p) (Dx (RGBARect p))
    (x - X (Min (RGBARect p))) (y - Y (Min (RGBARect p))) = RGBAAt p x y.
Proof.
  intros Hwf Hin. unfold payloadPixel, RGBAAt. rewrite Hin. cbn [negb].
  destruct Hwf as (_ & _ & Hs & _). unfold PixOffset. rewrite Hs.
  replace (4 * ((y - Y (Min (RGBARect p))) * Dx (RGBARect p) +
                (x - X (Min (RGBARect p)))))
    with ((y - Y (Min (RGBARect p))) * (4 * Dx (RGBARect p)) +
          (x - X (Min (RGBARect p))) * 4) by ring.
  reflexivity.
Qed.

End Flushes.

(** ** The surface along a run *)

Section Surfaces.
Import image win spec props.

Lemma atOrigin_iff r :
  atOrigin r = true <->
  X (Min r) = 0 /\ Y (Min r) = 0 /\ 0 <= X (Max r) /\ 0 <= Y (Max r).
Proof.
  unfold atOrigin. rewrite !andb_true_iff, !Z.eqb_eq, !Z.leb_le. tauto.
Qed.

Lemma atOrigin_Rect wd ht :
  0 <= wd -> 0 <= ht -> atOrigin (Rect 0 0 wd ht) = true.
Proof.
  intros Hw Hh. rewrite (Rect_canonical wd ht Hw Hh).
  apply atOrigin_iff. simpl. lia.
Qed.

(** The surface after one message, whichever thread file services it. *)
Lemma surface_after_message im m :
  WellFormed im -> atOrigin (Bounds im) = true -> sized m = true ->
  WellFormed (surface im [m]) /\
  Bounds (surface im [m]) = lastBounds (Bounds im) [m] /\
  atOrigin (Bounds (surface im [m])) = true.
Proof.
  intros Hwf Ho Hs. destruct m; cbn [surface lastBounds]; try by auto.
  - cbn [sized] in Hs. pose proof Hs as Hs'. apply atOrigin_iff in Hs'.
    destruct (resized_spec im r) as (H1 & H2 & _); [unfold Dx; lia | unfold Dy; lia | ].
    rewrite H2. auto.
  - destruct (call_WellFormed d im Hwf) as [H1 H2]. rewrite H2. auto.
Qed.

Lemma win_step_surface t m t' out :
  win.step t m = Some (t', out) -> img (this t') = surface (img (this t)) [m].
Proof.
  unfold win.step. destruct (pc t); [ | | discriminate];
    destruct m; cbn [win.receive surface];
    try destruct (call d (img (this t))) as [im r] eqn:E;
    intros H; inversion H; subst; cbn [this img set_img set_guiTexture];
    rewrite ?E; reflexivity.
Qed.

Lemma winflush_step_surface t m t' out :
  winflush.step t m = Some (t', out) -> img (this t') = surface (img (this t)) [m].
Proof.
  unfold winflush.step. destruct (pc t); [ | | discriminate];
    destruct m; cbn [winflush.receive surface];
    try destruct (call d (img (this t))) as [im r] eqn:E;
    intros H; inversion H; subst; cbn [this img set_img set_guiTexture];
    rewrite ?E; reflexivity.
Qed.

Lemma lastBounds_cons b m ms :
  lastBounds b (m :: ms) = lastBounds (lastBounds b [m]) ms.
Proof. destruct m; reflexivity. Qed.

End Surfaces.

(** ** The callbacks of the event thread *)

Section Events.
Import image win spec props.

Lemma callbacks_app wi cbs1 : forall m cbs2,
  callbacks wi m (cbs1 ++ cbs2) =
  ((callbacks wi (callbacks wi m cbs1).1 cbs2).1,
   (callbacks wi m cbs1).2 ++ (callbacks wi (callbacks wi m cbs1).1 cbs2).2).
Proof.
  induction cbs1 as [ | cb cbs1 IH]; intros m cbs2.
  - cbn. by destruct (callbacks wi m cbs2).
  - cbn [app callbacks]. destruct (callback wi m cb) as [m1 out1].
    rewrite IH. destruct (callbacks wi m1 cbs1) as [m2 out2]. cbn [fst snd].
    destruct (callbacks wi m2 cbs2) as [m3 out3]. cbn [fst snd].
    by rewrite app_assoc.
Qed.

Lemma callbacks_cons wi m cb cbs :
  (callbacks wi m (cb :: cbs)).2 =
  (callback wi m cb).2 ++ (callbacks wi (callback wi m cb).1 cbs).2.
Proof.
  cbn [callbacks]. destruct (callback wi m cb) as [m1 out1]. cbn [fst snd].
  by destruct (callbacks wi m1 cbs).
Qed.

Lemma callback_mouse wi m cb :
  (callback wi m cb).1 = lastCursor m [cb].
Proof.
  destruct cb; cbn [callback lastCursor fst]; try reflexivity.
  - destruct (buttons !! button); [ | reflexivity].
    destruct (action =? glfw.Press); [reflexivity | ].
    by destruct (action =? glfw.Release).
  - destruct (keys !! key); [ | reflexivity].
    destruct (action =? glfw.Press); [reflexivity | ].
    destruct (action =? glfw.Release); [reflexivity | ].
    by destruct (action =? glfw.Repeat).
Qed.

Lemma callbacks_mouse wi cbs : forall m,
  (callbacks wi m cbs).1 = lastCursor m cbs.
Proof.
  induction cbs as [ | cb cbs IH]; intros m; [reflexivity | ].
  cbn [callbacks]. pose proof (callback_mouse wi m cb) as H.
  destruct (callback wi m cb) as [m1 out1]. cbn [fst] in H. subst m1.
  specialize (IH (lastCursor m [cb])).
  destruct (callbacks wi (lastCursor m [cb]) cbs) as [m2 out2]. cbn [fst] in *.
  subst m2. by destruct cb.
Qed.

Lemma lastCursor_still cbs : forall m,
  forallb (fun cb => negb (isCursor cb)) cbs = true -> lastCursor m cbs = m.
Proof.
  induction cbs as [ | cb cbs IH]; intros m H; [reflexivity | ].
  cbn [forallb] in H. apply andb_true_iff in H as [H1 H2].
  destruct cb; try discriminate; cbn [lastCursor]; by apply IH.
Qed.

Lemma callback_sends wi m cb : forallb isSend (callback wi m cb).2 = true.
Proof.
  destruct cb; cbn [callback snd]; try reflexivity.
  - destruct (buttons !! button); [ | reflexivity].
    destruct (action =? glfw.Press); [reflexivity | ].
    by destruct (action =? glfw.Release).
  - destruct (keys !! key); [ | reflexivity].
    destruct (action =? glfw.Press); [reflexivity | ].
    destruct (action =? glfw.Release); [reflexivity | ].
    by destruct (action =? glfw.Repeat).
Qed.

Lemma callbacks_sends wi cbs : forall m,
  forallb isSend (callbacks wi m cbs).2 = true.
Proof.
  induction cbs as [ | cb cbs IH]; intros m; [reflexivity | ].
  cbn [callbacks]. pose proof (callback_sends wi m cb) as H.
  destruct (callback wi m cb) as [m1 out1]. specialize (IH m1).
  destruct (callbacks wi m1 cbs) as [m2 out2]. cbn [snd] in *.
  by rewrite forallb_app, H, IH.
Qed.

Lemma pollLoop_shape wi polls : forall m,
  exists before,
    forallb isSend before = true /\
    pollLoop wi m polls =
      before ++ (if existsb sawFinish polls
                 then [CloseEventsIn; DestroyWindow] else []).
Proof.
  induction polls as [ | [ | cbs] polls IH]; intros m.
  - exists []. by split.
  - exists []. by split.
  - cbn [pollLoop existsb sawFinish orb].
    pose proof (callbacks_sends wi cbs m) as H.
    destruct (callbacks wi m cbs) as [m1 out]. cbn [snd] in H.
    destruct (IH m1) as (before & Hb & Heq).
    exists (out ++ before). split; [by rewrite forallb_app, H, Hb | ].
    by rewrite Heq, app_assoc.
Qed.

End Events.

(** ** Teardown *)

Section Teardown.
Import image win spec props.

Lemma waiting_iff s :
  sys.waiting s = true <-> sys.glCase s = None /\ pc (sys.glT s) <> Returned.
Proof.
  unfold sys.waiting.
  destruct (sys.glCase s), (pc (sys.glT s)); split;
    try discriminate; try (intros [? ?]; congruence); auto.
  all: split; [reflexivity | discriminate].
Qed.

Lemma sound_start wi names : sound (sys.start wi names).
Proof.
  split; [apply orderly_start | ]. split; [intros m H | intros todo H];
    discriminate H.
Qed.

Lemma sound_step s l s' : sound s -> sys.step s l = Some s' -> sound s'.
Proof.
  intros (Ho & Hg & He) Hs.
  split; [eapply orderly_step; eassumption | ].
  assert (forall m s1, serviced m = true ->
            sys.gl_receives s m = Some s1 ->
            (forall m', sys.glCase s1 = Some m' ->
               serviced m' = true /\ pc (sys.glT s1) <> Returned) /\
            sys.evPc s1 = sys.evPc s) as Hrc.
  { intros m s1 Hm Hr. unfold sys.gl_receives in Hr.
    destruct (sys.waiting s) eqn:Ew; [ | discriminate].
    apply waiting_iff in Ew as [_ Hpc].
    inversion Hr; subst. cbn. split; [ | reflexivity].
    intros m' H. inversion H; subst. auto. }
  assert (forall m s1, sys.gl_takes s m = Some s1 ->
            sys.glCase s1 = None /\ sys.evPc s1 = sys.evPc s) as Htk.
  { intros m s1 Hr. unfold sys.gl_takes in Hr.
    destruct (sys.waiting s); [ | discriminate].
    destruct (win.step (sys.glT s) m) as [[t out] | ]; [ | discriminate].
    inversion Hr; subst. auto. }
  destruct l; cbn [sys.step] in Hs.
  - destruct (sys.drawClosed s); [discriminate | ].
    destruct (Hrc (Draw d) _ ltac:(reflexivity) Hs) as [H1 H2]. split; [exact H1 | by rewrite H2].
  - destruct (sys.drawGLClosed s); [discriminate | ].
    destruct (Hrc (GL glFunc) _ ltac:(reflexivity) Hs) as [H1 H2]. split; [exact H1 | by rewrite H2].
  - destruct (sys.drawClosed s); [discriminate | ]. inversion Hs; subst. auto.
  - destruct (sys.drawGLClosed s); [discriminate | ]. inversion Hs; subst. auto.
  - destruct (sys.glCase s) as [m | ]; [ | discriminate].
    destruct (win.step (sys.glT s) m) as [[t out] | ]; [ | discriminate].
    inversion Hs; subst. cbn. split; [discriminate | exact He].
  - destruct (Htk _ _ Hs) as [H1 H2]. rewrite H1, H2. split; [discriminate | exact He].
  - destruct (sys.drawClosed s); [ | discriminate].
    destruct (Htk _ _ Hs) as [H1 H2]. rewrite H1, H2. split; [discriminate | exact He].
  - destruct (sys.drawGLClosed s); [ | discriminate].
    destruct (Htk _ _ Hs) as [H1 H2]. rewrite H1, H2. split; [discriminate | exact He].
  - destruct (sys.evPc s); try discriminate.
    destruct (_ <? _)%nat; inversion Hs; subst; cbn;
      (split; [exact Hg | discriminate]).
  - destruct (sys.evPc s); try discriminate.
    pose proof (callback_sends (this (sys.glT s)) (sys.mouse s) cb) as Hcb.
    destruct (callback _ _ _) as [m todo]. cbn [snd] in Hcb.
    inversion Hs; subst; cbn. split; [exact Hg | ].
    intros todo' H. by inversion H; subst.
  - destruct (sys.evPc s) as [ | | [ | [r | e | | ] todo] | ] eqn:Epc;
      try discriminate.
    + inversion Hs; subst; cbn. split; [exact Hg | discriminate].
    + destruct (sys.gl_receives s (NewSize r)) as [s1 | ] eqn:E; [ | discriminate].
      destruct (Hrc (NewSize r) _ ltac:(reflexivity) E) as [H1 H2].
      inversion Hs; subst; cbn. split; [exact H1 | ].
      intros todo' H. inversion H; subst.
      specialize (He _ eq_refl). cbn in He. exact He.
    + inversion Hs; subst; cbn. split; [exact Hg | ].
      intros todo' H. inversion H; subst.
      specialize (He _ eq_refl). cbn in He. exact He.
  - destruct (sys.evPc s); try discriminate.
    inversion Hs; subst; cbn. split; [exact Hg | discriminate].
Qed.

Lemma sound_run ls : forall s s',
  sound s -> sys.run s ls = Some s' -> sound s'.
Proof.
  induction ls as [ | l ls IH]; intros s s' Hs Hr; simpl in Hr.
  - by inversion Hr; subst.
  - destruct (sys.step s l) as [s1 | ] eqn:E; [ | discriminate].
    eapply IH; [ | exact Hr]. eapply sound_step; eassumption.
Qed.

Lemma run_app ls1 : forall ls2 s s1,
  sys.run s ls1 = Some s1 -> sys.run s (ls1 ++ ls2) = sys.run s1 ls2.
Proof.
  induction ls1 as [ | l ls1 IH]; intros ls2 s s1 H; simpl in *.
  - by inversion H.
  - destruct (sys.step s l); [ | discriminate]. by apply IH.
Qed.

(** A caught event thread stays caught, and closes nothing. *)
Lemma stuck_step s l s' :
  stuck s = true -> sys.step s l = Some s' ->
  stuck s' = true /\ sys.eventsInCloses s' = sys.eventsInCloses s.
Proof.
  unfold stuck. intros Hst Hs.
  destruct (sys.evPc s) as [ | | todo | ] eqn:Hev; try discriminate Hst.
  destruct (pc (sys.glT s)) eqn:Hpc; try discriminate Hst.
  destruct l; cbn [sys.step] in Hs; unfold sys.gl_receives, sys.gl_takes in Hs;
    rewrite ?Hev in Hs; rewrite ?(waiting_Returned _ Hpc) in Hs;
    rewrite ?(win_step_Returned _ _ Hpc) in Hs;
    repeat match type of Hs with
           | (if ?b then _ else _) = _ => destruct b
           | match sys.glCase s with Some _ => _ | None => _ end = _ =>
               destruct (sys.glCase s);
               rewrite ?(win_step_Returned _ _ Hpc) in Hs
           end;
    try discriminate Hs.
  - inversion Hs; subst; cbn. rewrite ?Hev, Hpc. auto.
  - inversion Hs; subst; cbn. rewrite ?Hev, Hpc. auto.
  - destruct todo as [ | [r | e | | ] todo]; try discriminate Hs;
      try discriminate Hst.
    inversion Hs; subst; cbn. rewrite ?Hpc. cbn in Hst. auto.
Qed.

Lemma stuck_run ls : forall s s',
  stuck s = true -> sys.run s ls = Some s' ->
  sys.eventsInCloses s' = sys.eventsInCloses s.
Proof.
  induction ls as [ | l ls IH]; intros s s' Hst Hr; simpl in Hr.
  - by inversion Hr.
  - destruct (sys.step s l) as [s1 | ] eqn:E; [ | discriminate].
    destruct (stuck_step _ _ _ Hst E) as [H1 H2].
    rewrite <- H2. by apply IH.
Qed.

Lemma leads_nil s : leads s [] s.
Proof. repeat split. Qed.

Lemma leads_trans s ls1 s1 ls2 s2 :
  leads s ls1 s1 -> leads s1 ls2 s2 -> leads s (ls1 ++ ls2) s2.
Proof.
  intros (H1 & H2 & H3 & H4) (K1 & K2 & K3 & K4).
  split; [by rewrite (run_app _ _ _ _ H1) | ].
  split; [by rewrite forallb_app, H2, K2 | ].
  split; congruence.
Qed.

(** The GL thread runs the case it holds, if it holds one. *)
Lemma settle s :
  sound s ->
  exists ls s',
    leads s ls s' /\ sys.glCase s' = None /\ sys.evPc s' = sys.evPc s /\
    stuck s' = stuck s.
Proof.
  intros (Ho & Hg & He).
  destruct (sys.glCase s) as [m | ] eqn:Ec.
  - destruct (Hg m eq_refl) as [Hm Hpc].
    assert (exists t out, win.step (sys.glT s) m = Some (t, out) /\ pc t = Inner)
      as (t & out & Hst & Hpt).
    { unfold win.step. destruct (pc (sys.glT s)) eqn:E; [ | | congruence].
      - destruct (win_receive_serviced (sys.glT s) ZR m Hm)
          as (t & out & H1 & H2 & _). eauto.
      - destruct m; try discriminate Hm;
          destruct (win_receive_serviced (sys.glT s) (totalR (sys.glT s)) _ Hm)
            as (t & out & H1 & H2 & _); eauto. }
    exists [sys.GLRuns], (sys.with_glT s t None).
    split.
    { split; [cbn [sys.run sys.step]; by rewrite Ec, Hst | ]. repeat split. }
    split; [reflexivity | ]. split; [reflexivity | ].
    unfold stuck. cbn. rewrite Hpt.
    destruct (sys.evPc s); try reflexivity.
    by destruct (pc (sys.glT s)).
  - exists [], s. split; [apply leads_nil | auto].
Qed.

(** The event thread makes the sends its callback has left and is back
    in [glfw.WaitEventsTimeout]. *)
Lemma drain todo : forall s,
  sound s -> sys.evPc s = sys.InCallback todo -> sys.glCase s = None ->
  stuck s = false ->
  exists ls s',
    leads s ls s' /\ sys.evPc s' = sys.InWait /\ sys.glCase s' = None.
Proof.
  induction todo as [ | e todo IH]; intros s Hs Hev Hc Hst.
  - exists [sys.EvSend], (sys.with_evPc s sys.InWait).
    split; [ | auto].
    split; [cbn [sys.run sys.step]; by rewrite Hev | repeat split].
  - pose proof Hs as (_ & _ & He). specialize (He _ Hev).
    destruct e as [r | e | | ]; try discriminate He.
    + (* w.newSize <- r *)
      assert (pc (sys.glT s) <> Returned) as Hpc.
      { intros Hr. unfold stuck in Hst. by rewrite Hev, Hr in Hst. }
      assert (sys.waiting s = true) as Hw by (by apply waiting_iff).
      set (s1 := sys.with_evPc (sys.with_glT s (sys.glT s) (Some (NewSize r)))
                   (sys.InCallback todo)).
      assert (sys.step s sys.EvSend = Some s1) as Hstep1.
      { cbn [sys.step]. unfold sys.gl_receives. by rewrite Hev, Hw. }
      pose proof (sound_step _ _ _ Hs Hstep1) as Hs1.
      destruct (settle s1 Hs1) as (ls2 & s2 & Hl2 & Hc2 & Hev2 & Hst2).
      assert (stuck s1 = false) as Hst1.
      { unfold stuck. cbn. by destruct (pc (sys.glT s)). }
      pose proof Hl2 as (Hrun2 & _).
      destruct (IH s2 (sound_run _ _ _ Hs1 Hrun2) Hev2 Hc2 ltac:(congruence))
        as (ls3 & s3 & Hl3 & Hev3 & Hc3).
      exists ([sys.EvSend] ++ ls2 ++ ls3), s3. split; [ | auto].
      apply (leads_trans _ _ s1); [ | by apply (leads_trans _ _ s2)].
      split; [cbn [sys.run]; by rewrite Hstep1 | repeat split].
    + (* w.eventsIn <- e *)
      set (s1 := sys.State_ (sys.glT s) (sys.glCase s) (sys.InCallback todo)
                   (sys.mouse s) (sys.drawClosed s) (sys.drawGLClosed s)
                   (sys.sent s ++ [e]) (sys.eventsInCloses s) (sys.destroys s)).
      assert (sys.step s sys.EvSend = Some s1) as Hstep1.
      { cbn [sys.step]. by rewrite Hev. }
      assert (stuck s1 = false) as Hst1.
      { unfold stuck in *. cbn. rewrite Hev in Hst.
        destruct (pc (sys.glT s)); try reflexivity. exact Hst. }
      destruct (IH s1 (sound_step _ _ _ Hs Hstep1) eq_refl Hc Hst1)
        as (ls3 & s3 & Hl3 & Hev3 & Hc3).
      exists ([sys.EvSend] ++ ls3), s3. split; [ | auto].
      apply (leads_trans _ _ s1); [ | exact Hl3].
      split; [cbn [sys.run]; by rewrite Hstep1 | repeat split].
Qed.

(** With a submission channel closed, the GL thread waiting or gone and
    the event thread polling, the latch is closed and then seen. *)
Lemma finish s :
  sound s -> sys.glCase s = None ->
  sys.evPc s = sys.InWait \/ sys.evPc s = sys.AtSelect ->
  sys.drawClosed s || sys.drawGLClosed s = true ->
  exists ls s', leads s ls s' /\ sys.evPc s' = sys.Gone.
Proof.
  intros Hs Hc Hev Hcl.
  (* the GL thread closes [finish], unless it has *)
  assert (exists ls1 s1,
            leads s ls1 s1 /\ sys.evPc s1 = sys.evPc s /\
            (0 < finishCloses (sys.glT s1))%nat) as (ls1 & s1 & Hl1 & Hev1 & Hf1).
  { destruct (pc (sys.glT s)) eqn:Hpc.
    1, 2:
      assert (sys.waiting s = true) as Hw
        by (apply waiting_iff; split; [exact Hc | congruence]);
      destruct (sys.drawClosed s) eqn:Hd;
      [ exists [sys.GLSeesDrawClosed]
      | exists [sys.GLSeesGLClosed] ];
      eexists;
      (split; [ split; [ cbn [sys.run sys.step]; unfold sys.gl_takes, win.step;
                         rewrite ?Hd, Hw, Hpc; cbn [win.receive];
                         try (cbn [orb] in Hcl; rewrite Hcl); reflexivity
                       | repeat split ]
              | split; [reflexivity | cbn; lia] ]).
    exists [], s. split; [apply leads_nil | ]. split; [reflexivity | ].
    destruct Hs as ((_ & _ & _ & Hp & _) & _).
    apply Hp in Hpc. lia. }
  pose proof Hl1 as (Hrun1 & _).
  assert (exists ls2 s2, leads s1 ls2 s2 /\ sys.evPc s2 = sys.Gone)
    as (ls2 & s2 & Hl2 & Hev2).
  { assert (forall s0, sys.evPc s0 = sys.AtSelect ->
              (0 < finishCloses (sys.glT s0))%nat ->
              exists s2, sys.step s0 sys.EvSelect = Some s2 /\
                sys.evPc s2 = sys.Gone /\
                sys.drawClosed s2 = sys.drawClosed s0 /\
                sys.drawGLClosed s2 = sys.drawGLClosed s0) as Hsel.
    { intros s0 H0 Hf0. eexists. cbn [sys.step]. rewrite H0.
      destruct (Nat.ltb_spec 0 (finishCloses (sys.glT s0))); [ | lia].
      split; [reflexivity | auto]. }
    rewrite <- Hev1 in Hev. destruct Hev as [Hev | Hev].
    - destruct (Hsel (sys.with_evPc s1 sys.AtSelect) eq_refl Hf1)
        as (s2 & Hstep & Hg & Hd1 & Hd2).
      exists [sys.WaitReturns; sys.EvSelect], s2. split; [ | exact Hg].
      assert (sys.step s1 sys.WaitReturns
              = Some (sys.with_evPc s1 sys.AtSelect)) as Hw1
        by (cbn [sys.step]; by rewrite Hev).
      split; [cbn [sys.run]; by rewrite Hw1, Hstep | ].
      repeat split; assumption.
    - destruct (Hsel s1 Hev Hf1) as (s2 & Hstep & Hg & Hd1 & Hd2).
      exists [sys.EvSelect], s2. split; [ | exact Hg].
      split; [cbn [sys.run]; by rewrite Hstep | ].
      repeat split; assumption. }
  exists (ls1 ++ ls2), s2. split; [by apply (leads_trans _ _ s1) | exact Hev2].
Qed.

(** From a state that is not [stuck], with a submission channel closed,
    the threads reach the end of the event thread on their own. *)
Lemma reach_Gone s :
  sound s -> sys.drawClosed s || sys.drawGLClosed s = true ->
  stuck s = false ->
  exists ls s', leads s ls s' /\ sys.evPc s' = sys.Gone.
Proof.
  intros Hs Hcl Hst.
  destruct (settle s Hs) as (ls1 & s1 & Hl1 & Hc1 & Hev1 & Hst1).
  pose proof Hl1 as (Hrun1 & _ & Hd1 & Hd2).
  pose proof (sound_run _ _ _ Hs Hrun1) as Hs1.
  assert (sys.drawClosed s1 || sys.drawGLClosed s1 = true) as Hcl1
    by (by rewrite Hd1, Hd2).
  destruct (sys.evPc s) as [ | | todo | ] eqn:Hev.
  - destruct (finish s1 Hs1 Hc1 ltac:(auto) Hcl1) as (ls2 & s2 & Hl2 & Hg).
    exists (ls1 ++ ls2), s2. split; [by apply (leads_trans _ _ s1) | exact Hg].
  - destruct (finish s1 Hs1 Hc1 ltac:(auto) Hcl1) as (ls2 & s2 & Hl2 & Hg).
    exists (ls1 ++ ls2), s2. split; [by apply (leads_trans _ _ s1) | exact Hg].
  - destruct (drain todo s1 Hs1 Hev1 Hc1 ltac:(congruence))
      as (ls2 & s2 & Hl2 & Hev2 & Hc2).
    pose proof Hl2 as (Hrun2 & _ & Hd3 & Hd4).
    destruct (finish s2 (sound_run _ _ _ Hs1 Hrun2) Hc2 ltac:(auto)
                ltac:(by rewrite Hd3, Hd4)) as (ls3 & s3 & Hl3 & Hg).
    exists (ls1 ++ ls2 ++ ls3), s3. split; [ | exact Hg].
    apply (leads_trans _ _ s1); [exact Hl1 | by apply (leads_trans _ _ s2)].
  - exists ls1, s1. split; [exact Hl1 | exact Hev1].
Qed.

End Teardown.

(** ** Conversions of [float64] *)

Section Numbers.
Import image win spec props.

Lemma in_range z :
  goint.in_int z ->
  (if (- 2 ^ 63 <=? z) && (z <? 2 ^ 63) then z else goint.indefinite) = z.
Proof.
  unfold goint.in_int. intros H.
  destruct (Z.leb_spec (- 2 ^ 63) z); [ | lia].
  destruct (Z.ltb_spec z (2 ^ 63)); [reflexivity | lia].
Qed.

(** [int(x)] of a whole number in range is that number. *)
Lemma ofFloat64_whole z : goint.in_int z -> goint.ofFloat64 (whole z) = z.
Proof.
  intros H.
  destruct z as [ | m | m]; [reflexivity | | ]; cbn [whole goint.ofFloat64];
    cbv zeta; change (0 <=? 0) with true; cbv iota; rewrite Z.mul_1_r;
    by apply in_range.
Qed.

(** [int(x)] cuts the fraction off: of a finite [x] = [n * 2^e] with a
    negative exponent and a quotient in range, it is the whole number next
    to [x] on the side of zero. *)
Lemma ofFloat64_truncates (s : bool) (m : positive) (e : Z) :
  e < 0 ->
  let n := if s then Z.neg m else Z.pos m in
  let d := 2 ^ (- e) in
  let z := goint.ofFloat64 (SpecFloat.S754_finite s m e) in
  goint.in_int (Z.quot n d) ->
  (0 <= n -> z * d <= n < (z + 1) * d) /\
  (n <= 0 -> (z - 1) * d < n <= z * d).
Proof.
  intros He n d z Hin.
  assert (0 < d) as Hd by (apply Z.pow_pos_nonneg; lia).
  assert (z = Z.quot n d) as ->.
  { subst z. cbn [goint.ofFloat64]. cbv zeta.
    destruct (Z.leb_spec 0 e); [lia | ]. fold n d. by apply in_range. }
  clearbody n d. clear Hin.
  pose proof (Z.quot_rem' n d) as Hqr.
  split; intros Hn.
  - pose proof (Z.rem_bound_pos n d Hn Hd). nia.
  - pose proof (Z.rem_bound_pos_neg n d Hd Hn). nia.
Qed.

End Numbers.

(** ** Runs of fills *)

Section Buttons.
Import image win spec props.

(** The surface after a run of fills, pixel by pixel, and what the run
    reports. *)
Lemma surface_of_fills l : forall im,
  WellFormed im ->
  let ms := map (fun rc : Rectangle * color.RGBA => Draw (fill rc.1 rc.2)) l in
  WellFormed (surface im ms) /\
  Bounds (surface im ms) = Bounds im /\
  reported im ms = map fst l /\
  forall x y,
    RGBAAt (surface im ms) x y = painted l (Bounds im) (Pt x y) (RGBAAt im x y).
Proof.
  induction l as [ | [r c] l IH]; intros im Hwf; cbn [map surface reported painted fst snd].
  - auto.
  - rewrite call_fill. cbn [fst snd].
    destruct (DrawUniform_spec im r c Hwf) as (H1 & H2 & H3).
    destruct (IH _ H1) as (K1 & K2 & K3 & K4). cbv zeta in K1, K2, K3, K4.
    split; [exact K1 | ]. split; [by rewrite K2 | ].
    split; [by rewrite K3 | ].
    intros x y. by rewrite K4, H2, H3.
Qed.

End Buttons.

(** ** Counting the compositor's calls *)

Section Compositor.
Import image win spec props.

Lemma int32_small z : - 2 ^ 31 <= z < 2 ^ 31 -> goint.int32 z = z.
Proof.
  unfold goint.int32, goint.wrap. intros H.
  change (2 ^ (32 - 1)) with (2 ^ 31). rewrite Z.mod_small; lia.
Qed.

Lemma fills_serviced (l : list (Rectangle * color.RGBA)) :
  let ms := map (fun rc : Rectangle * color.RGBA => Draw (fill rc.1 rc.2)) l in
  forallb serviced ms = true /\ existsb isGL ms = false.
Proof.
  induction l as [ | [r c] l [IH1 IH2] ]; cbn; [auto | ].
  cbv zeta in IH1, IH2. auto.
Qed.

Lemma swaps_app cs1 cs2 : swaps (cs1 ++ cs2) = (swaps cs1 + swaps cs2)%nat.
Proof. unfold swaps. by rewrite List.filter_app, length_app. Qed.

Lemma swaps_openGLRenderGui wi r :
  swaps (openGLRenderGui wi r) =
  if Empty (Intersect r (Bounds (img wi))) then 0%nat else 2%nat.
Proof.
  unfold openGLRenderGui. cbv zeta.
  destruct (Empty (Intersect r (Bounds (img wi)))); reflexivity.
Qed.

End Compositor.

(** * Theorems *)

Section Claims.
Import image win spec.

(** C1. From the outer wait on, any non-empty run of draw closures,
    resizes and (in [win/win.go]) GL closures is serviced; when the timer
    then fires, the rectangle the flush composites is the union of the
    rectangles the closures returned and the resize rectangles, intersected
    with the bounds of the surface as it then is (and nothing is
    composited when that intersection is empty).  The same holds in the
    file without the GL channel, for runs without GL closures. *)
Theorem flush_damage_is_union_of_reported (t : Thread) (ms : list Msg) :
  pc t = Outer -> ms <> [] -> forallb serviced ms = true ->
  let im := img (this t) in
  let damage := Intersect (unionAll (reported im ms)) (Bounds (surface im ms)) in
  (exists t1 out1 t2,
     win.run t ms = Some (t1, out1) /\
     totalR t1 = unionAll (reported im ms) /\
     img (this t1) = surface im ms /\
     win.step t1 Tick =
       Some (t2, (if Empty damage then [] else composite (this t1) damage)
                 ++ [gl.SwapBuffers])) /\
  (existsb isGL ms = false ->
   exists t1 out1 t2,
     winflush.run t ms = Some (t1, out1) /\
     totalR t1 = unionAll (reported im ms) /\
     img (this t1) = surface im ms /\
     winflush.step t1 Tick =
       Some (t2, if Empty damage then [] else winflush.present (this t1) damage)).
Proof.
  intros Hpc Hne Hall im damage. destruct ms as [ | m ms]; [congruence | ].
  split.
  - destruct (win_run_outer m ms t Hpc Hall)
      as (t1 & out1 & Hrun & Hpc1 & Htr & Him & _).
    exists t1, out1. eexists. split; [exact Hrun | ].
    split; [exact Htr | ]. split; [exact Him | ].
    unfold win.step. rewrite Hpc1. unfold openGLRenderGui.
    rewrite Htr, Him. reflexivity.
  - intros Hgl.
    destruct (winflush_run_outer m ms t Hpc Hall Hgl)
      as (t1 & out1 & Hrun & Hpc1 & Htr & Him & _).
    exists t1, out1. eexists. split; [exact Hrun | ].
    split; [exact Htr | ]. split; [exact Him | ].
    unfold winflush.step. rewrite Hpc1. unfold winflush.openGLFlush.
    rewrite Htr, Him. reflexivity.
Qed.

Lemma flush_damage_is_union_of_reported_witness :
  let t := Thread_ (window loDPI 4 3) ZR Outer 4 0 in
  let ms := [Draw (fill (Rect 0 0 1 1) red); Draw (fill (Rect 2 1 5 2) red)] in
  let im := img (this t) in
  let damage := Intersect (unionAll (reported im ms)) (Bounds (surface im ms)) in
  damage = Rect 0 0 4 2 /\
  (exists t1 out1 t2,
     win.run t ms = Some (t1, out1) /\
     totalR t1 = unionAll (reported im ms) /\
     img (this t1) = surface im ms /\
     win.step t1 Tick =
       Some (t2, (if Empty damage then [] else composite (this t1) damage)
                 ++ [gl.SwapBuffers])) /\
  (existsb isGL ms = false ->
   exists t1 out1 t2,
     winflush.run t ms = Some (t1, out1) /\
     totalR t1 = unionAll (reported im ms) /\
     img (this t1) = surface im ms /\
     winflush.step t1 Tick =
       Some (t2, if Empty damage then [] else winflush.present (this t1) damage)).
Proof.
  split; [vm_compute; reflexivity | ].
  apply (flush_damage_is_union_of_reported
           (Thread_ (window loDPI 4 3) ZR Outer 4 0)
           [Draw (fill (Rect 0 0 1 1) red); Draw (fill (Rect 2 1 5 2) red)]).
  - reflexivity.
  - discriminate.
  - reflexivity.
Defined.

(** C2, as the code has it.  At the inner [select]: every resize, draw
    closure or GL closure is serviced and leaves the damage rectangle
    containing what it was (in both window files); the composite pass after
    a GL closure leaves it as it was; the timer flush sets it to the zero
    Rectangle and returns to the outer [select] (in both files); and the
    rectangle a flush composites, the damage intersected with the surface
    bounds, lies within those bounds. *)
Theorem damage_grows_until_timer_flush (t : Thread) :
  pc t = Inner ->
  let bounds := Bounds (img (this t)) in
  (forall m, serviced m = true ->
     exists t' out, win.step t m = Some (t', out) /\
       pc t' = Inner /\ In (totalR t) (totalR t') = true) /\
  (forall m, serviced m = true -> isGL m = false ->
     exists t' out, winflush.step t m = Some (t', out) /\
       pc t' = Inner /\ In (totalR t) (totalR t') = true) /\
  (forall glFunc,
     exists t' out, win.step t (GL glFunc) = Some (t', out) /\
       totalR t' = totalR t) /\
  (exists t' out, win.step t Tick = Some (t', out) /\
     totalR t' = ZR /\ pc t' = Outer) /\
  (exists t' out, winflush.step t Tick = Some (t', out) /\
     totalR t' = ZR /\ pc t' = Outer) /\
  In (Intersect (totalR t) bounds) bounds = true.
Proof.
  intros Hpc bounds. repeat split.
  - intros m Hm.
    destruct (win_receive_serviced t (totalR t) m Hm)
      as (t1 & out1 & Hr & Hpc1 & Htr1 & _).
    exists t1, out1. unfold win.step. rewrite Hpc.
    split; [destruct m; try discriminate; exact Hr | ].
    split; [assumption | ]. rewrite Htr1.
    destruct m; try discriminate; simpl;
      first [apply Union_In_l | apply In_refl].
  - intros m Hm Hg.
    destruct (winflush_receive_serviced t (totalR t) m Hm Hg)
      as (t1 & out1 & Hr & Hpc1 & Htr1 & _).
    exists t1, out1. unfold winflush.step. rewrite Hpc.
    split; [destruct m; try discriminate; exact Hr | ].
    split; [assumption | ]. rewrite Htr1.
    destruct m; try discriminate; simpl; apply Union_In_l.
  - intros glFunc. unfold win.step. rewrite Hpc. simpl.
    do 2 eexists. split; reflexivity.
  - unfold win.step. rewrite Hpc. do 2 eexists. split; [reflexivity | ].
    split; reflexivity.
  - unfold winflush.step. rewrite Hpc. do 2 eexists. split; [reflexivity | ].
    split; reflexivity.
  - apply Intersect_In_r.
Qed.

Lemma damage_grows_until_timer_flush_witness :
  let t := Thread_ (window loDPI 4 3) (Rect 0 0 1 1) Inner 4 0 in
  let bounds := Bounds (img (this t)) in
  (forall m, serviced m = true ->
     exists t' out, win.step t m = Some (t', out) /\
       pc t' = Inner /\ In (totalR t) (totalR t') = true) /\
  (forall m, serviced m = true -> isGL m = false ->
     exists t' out, winflush.step t m = Some (t', out) /\
       pc t' = Inner /\ In (totalR t) (totalR t') = true) /\
  (forall glFunc,
     exists t' out, win.step t (GL glFunc) = Some (t', out) /\
       totalR t' = totalR t) /\
  (exists t' out, win.step t Tick = Some (t', out) /\
     totalR t' = ZR /\ pc t' = Outer) /\
  (exists t' out, winflush.step t Tick = Some (t', out) /\
     totalR t' = ZR /\ pc t' = Outer) /\
  In (Intersect (totalR t) bounds) bounds = true.
Proof.
  apply (damage_grows_until_timer_flush
           (Thread_ (window loDPI 4 3) (Rect 0 0 1 1) Inner 4 0)).
  reflexivity.
Defined.

(** C2, as the claim has it, fails: after a draw closure that reports
    (0,0)-(1,1), a GL closure is run and followed by its composite pass of
    that rectangle, and the damage rectangle is still (0,0)-(1,1), not the
    empty rectangle. *)
Lemma gl_composite_pass_keeps_damage :
  exists t1 out1 t2,
    win.run (Thread_ (window loDPI 4 3) ZR Outer 4 0)
      [Draw (fill (Rect 0 0 1 1) red)] = Some (t1, out1) /\
    win.step t1 (GL []) =
      Some (t2, composite (this t1) (Rect 0 0 1 1) ++ [gl.SwapBuffers]) /\
    totalR t2 = Rect 0 0 1 1 /\
    Empty (totalR t2) = false /\
    totalR t2 <> ZR.
Proof.
  do 3 eexists. split; [vm_compute; reflexivity | ].
  split; [vm_compute; reflexivity | ].
  split; [reflexivity | ]. split; [reflexivity | ]. discriminate.
Qed.



(** C8. A flush ([openGLRenderGui], [openGLFlush]) of a rectangle that is
    empty or does not overlap the surface bounds issues no call at all: no
    upload, no draw, no change of the context state; it returns normally. *)
Theorem flush_of_empty_or_outside_damage_is_noop
    (wi : Win) (r : Rectangle) (g : gl.State) :
  Empty r = true \/ Overlaps r (Bounds (img wi)) = false ->
  openGLRenderGui wi r = [] /\
  winflush.openGLFlush wi r = [] /\
  gl.work g (openGLRenderGui wi r) = [] /\
  gl.work g (winflush.openGLFlush wi r) = [] /\
  gl.run g (openGLRenderGui wi r) = g /\
  gl.run g (winflush.openGLFlush wi r) = g.
Proof.
  intros H.
  assert (Empty (Intersect r (Bounds (img wi))) = true) as E.
  { destruct H as [H | H];
      [by apply Intersect_Empty_l | by apply Intersect_no_overlap]. }
  unfold openGLRenderGui, winflush.openGLFlush. rewrite E. auto 10.
Qed.

Lemma flush_of_empty_or_outside_damage_is_noop_witness :
  let wi := window loDPI 4 3 in
  let r := Rect 4 0 9 3 in
  Empty r = false /\
  openGLRenderGui wi r = [] /\
  winflush.openGLFlush wi r = [] /\
  gl.work context (openGLRenderGui wi r) = [] /\
  gl.work context (winflush.openGLFlush wi r) = [] /\
  gl.run context (openGLRenderGui wi r) = context /\
  gl.run context (winflush.openGLFlush wi r) = context.
Proof.
  split; [reflexivity | ].
  apply (flush_of_empty_or_outside_damage_is_noop
           (window loDPI 4 3) (Rect 4 0 9 3) context).
  right. reflexivity.
Defined.

(** C3, on the code.  A window made resizable; the caller closes the draw
    channel; the event thread, finding [finish] still open, enters
    [glfw.WaitEventsTimeout]; the GL thread sees the closed channel, closes
    [finish] and returns; a framebuffer-size callback is then delivered.
    Its send on [newSize] has no receiver left, so however the threads go
    on from there, [eventsIn] is never closed and the window is never
    destroyed. *)
Theorem late_resize_blocks_teardown :
  exists wi s,
    New loDPI [Size 4 3; Resizable] = Ok wi /\
    sys.run (sys.start wi 1)
      [sys.CallerCloseDraw; sys.EvSelect; sys.GLSeesDrawClosed;
       sys.OSCallback (FramebufferSize 8 6)] = Some s /\
    sys.drawClosed s = true /\
    finishCloses (sys.glT s) = 1%nat /\
    sys.evPc s =
      sys.InCallback [SendNewSize (Rect 0 0 8 6); SendEvent (Resize (Rect 0 0 8 6))] /\
    forall ls,
      match sys.run s ls with
      | Some s' =>
          sys.eventsInCloses s' = 0%nat /\ sys.destroys s' = 0%nat /\
          sys.evPc s' = sys.evPc s
      | None => True
      end.
Proof.
  do 2 eexists. split; [vm_compute; reflexivity | ].
  split; [vm_compute; reflexivity | ].
  split; [reflexivity | ]. split; [reflexivity | ]. split; [reflexivity | ].
  intros ls. apply caught_forever. unfold caught. cbn.
  split; [reflexivity | ]. split; [eauto | ]. split; reflexivity.
Qed.

(** Teardown never runs twice: in every state the caller and the two
    threads can reach, [eventsIn] has been closed at most once, the window
    destroyed exactly as often, [finish] closed at most once; and once
    [eventsIn] is closed the event thread has returned and [finish] was
    closed. *)
Theorem teardown_at_most_once
    (wi : Win) (names : Z) (ls : list sys.Label) (s : sys.State) :
  sys.run (sys.start wi names) ls = Some s ->
  (sys.eventsInCloses s <= 1)%nat /\
  sys.destroys s = sys.eventsInCloses s /\
  (finishCloses (sys.glT s) <= 1)%nat /\
  (sys.eventsInCloses s = 1%nat ->
   sys.evPc s = sys.Gone /\ finishCloses (sys.glT s) = 1%nat).
Proof.
  intros Hr.
  destruct (orderly_run ls _ _ (orderly_start wi names) Hr)
    as (Hc & Hd & Hf & _ & Hev & Hcf).
  repeat split; try assumption; [by apply Hev | by apply Hcf].
Qed.

Lemma teardown_at_most_once_witness :
  exists s,
    sys.run (sys.start (window loDPI 4 3) 4)
      [sys.CallerCloseDraw; sys.CallerCloseGL; sys.GLSeesGLClosed;
       sys.EvSelect] = Some s /\
    sys.eventsInCloses s = 1%nat /\
    (sys.eventsInCloses s <= 1)%nat /\
    sys.destroys s = sys.eventsInCloses s /\
    (finishCloses (sys.glT s) <= 1)%nat /\
    (sys.eventsInCloses s = 1%nat ->
     sys.evPc s = sys.Gone /\ finishCloses (sys.glT s) = 1%nat).
Proof.
  eexists. split; [vm_compute; reflexivity | ]. split; [reflexivity | ].
  apply (teardown_at_most_once (window loDPI 4 3) 4
           [sys.CallerCloseDraw; sys.CallerCloseGL; sys.GLSeesGLClosed;
            sys.EvSelect]).
  vm_compute. reflexivity.
Defined.

(** C4, as the code has it.  For a window that is not started
    maximized, the ratio [New] computes is the floor of the framebuffer
    width of the first window over the requested width, and at least 1.
    A cursor move is reported at the OS-reported position, cut to whole
    numbers towards zero, times the ratio; a recognised button press or
    release at the last such position times the ratio (where the products
    fit an [int]); a scroll event carries the OS-reported offsets cut to
    whole numbers, not multiplied. *)
Theorem ratio_and_pointer_scaling
    (cw : options -> option glfw.Window) (opts : list Option)
    (gw : glfw.Window) (wi : Win) :
  maximized (requested opts) = false ->
  cw (requested opts) = Some gw ->
  0 <= glfw.FramebufferWidth gw < 2 ^ 63 ->
  New cw opts = Ok wi ->
  ratio wi = Z.max 1 (glfw.FramebufferWidth gw / width (requested opts)) /\
  (forall m x y,
     let ix := goint.ofFloat64 x in
     let iy := goint.ofFloat64 y in
     goint.in_int (ix * ratio wi) -> goint.in_int (iy * ratio wi) ->
     callback wi m (CursorPos x y) =
       (Mouse_ ix iy, [SendEvent (MoMove (Pt (ix * ratio wi) (iy * ratio wi)))])) /\
  (forall m button b mods,
     buttons !! button = Some b ->
     goint.in_int (moX m * ratio wi) -> goint.in_int (moY m * ratio wi) ->
     let p := Pt (moX m * ratio wi) (moY m * ratio wi) in
     callback wi m (MouseButton button glfw.Press mods) =
       (m, [SendEvent (MoDown p b)]) /\
     callback wi m (MouseButton button glfw.Release mods) =
       (m, [SendEvent (MoUp p b)])) /\
  (forall m xoff yoff,
     callback wi m (Scroll xoff yoff) =
       (m, [SendEvent (MoScroll (Pt (goint.ofFloat64 xoff)
                                    (goint.ofFloat64 yoff)))])).
Proof.
  intros Hmax Hcw HF Hnew.
  split; [ | split; [ | split] ].
  - unfold New in Hnew. fold (requested opts) in Hnew.
    unfold makeGLFWWin at 1 in Hnew. rewrite Hcw, Hmax in Hnew.
    cbn [glfw.GetFramebufferSize] in Hnew. unfold goint.quo in Hnew.
    destruct (Z.eqb_spec (width (requested opts)) 0) as [H0 | H0];
      [discriminate | ].
    rewrite (clamped_quot _ _ HF H0) in Hnew.
    match type of Hnew with
    | context [makeGLFWWin cw ?o] =>
        destruct (makeGLFWWin cw o) as [[gw2 o2] | ]; [ | discriminate]
    end.
    by inversion Hnew.
  - intros m x y ix iy Hx Hy. cbn [callback]. cbv zeta. fold ix iy.
    by rewrite !mul_small.
  - intros m button b mods Hb Hx Hy p. subst p. cbn [callback]. rewrite Hb.
    rewrite !mul_small by assumption. split; reflexivity.
  - reflexivity.
Qed.

Lemma ratio_and_pointer_scaling_witness :
  let wi := Win_ (glfw.Window_ 4 2) (NewRGBA (Rect 0 0 4 2)) 2 0 0 0 in
  New hiDPI [Size 4 3] = Ok wi /\
  ratio wi = Z.max 1 (8 / 4) /\
  (forall m x y,
     let ix := goint.ofFloat64 x in
     let iy := goint.ofFloat64 y in
     goint.in_int (ix * ratio wi) -> goint.in_int (iy * ratio wi) ->
     callback wi m (CursorPos x y) =
       (Mouse_ ix iy, [SendEvent (MoMove (Pt (ix * ratio wi) (iy * ratio wi)))])) /\
  (forall m button b mods,
     buttons !! button = Some b ->
     goint.in_int (moX m * ratio wi) -> goint.in_int (moY m * ratio wi) ->
     let p := Pt (moX m * ratio wi) (moY m * ratio wi) in
     callback wi m (MouseButton button glfw.Press mods) =
       (m, [SendEvent (MoDown p b)]) /\
     callback wi m (MouseButton button glfw.Release mods) =
       (m, [SendEvent (MoUp p b)])) /\
  (forall m xoff yoff,
     callback wi m (Scroll xoff yoff) =
       (m, [SendEvent (MoScroll (Pt (goint.ofFloat64 xoff)
                                    (goint.ofFloat64 yoff)))])).
Proof.
  split; [vm_compute; reflexivity | ].
  apply (ratio_and_pointer_scaling hiDPI [Size 4 3] (glfw.Window_ 8 6)
           (Win_ (glfw.Window_ 4 2) (NewRGBA (Rect 0 0 4 2)) 2 0 0 0)).
  - reflexivity.
  - reflexivity.
  - cbn. lia.
  - vm_compute. reflexivity.
Defined.

(** C4, as the claim has it, fails twice, on a window of ratio 2.  Scroll
    events are not scaled: the scroll callback with offsets (1, 1) sends a
    scroll event of (1, 1), not of (2, 2).  And a position is cut to whole
    numbers before it is scaled: the cursor callback at (10.5, 10.5), that
    is (21 * 2^-1, 21 * 2^-1), sends a move to (20, 20), not to
    (10.5 * 2, 10.5 * 2) = (21, 21). *)
Lemma scroll_offsets_are_not_scaled :
  let wi := window hiDPI 4 3 in
  let x := SpecFloat.S754_finite false 21 (-1) in
  ratio wi = 2 /\
  callback wi (Mouse_ 0 0) (Scroll (whole 1) (whole 1)) =
    (Mouse_ 0 0, [SendEvent (MoScroll (Pt 1 1))]) /\
  callback wi (Mouse_ 0 0) (Scroll (whole 1) (whole 1)) <>
    (Mouse_ 0 0, [SendEvent (MoScroll (Pt (1 * ratio wi) (1 * ratio wi)))]) /\
  callback wi (Mouse_ 0 0) (CursorPos x x) =
    (Mouse_ 10 10, [SendEvent (MoMove (Pt 20 20))]) /\
  (callback wi (Mouse_ 0 0) (CursorPos x x)).2 <> [SendEvent (MoMove (Pt 21 21))].
Proof.
  split; [vm_compute; reflexivity | ]. split; [reflexivity | ].
  split; [vm_compute; discriminate | ]. split; [vm_compute; reflexivity | ].
  vm_compute. discriminate.
Qed.

(** C9. A mouse-button or key callback whose code is not in [buttons],
    respectively [keys], sends nothing and changes nothing: no event
    reaches [eventsIn], whatever the action. *)
Theorem unsupported_codes_are_dropped
    (wi : Win) (m : Mouse) (cb : Callback) (polls : list Poll) :
  unsupported cb = true ->
  callback wi m cb = (m, []) /\
  pollLoop wi m (WaitEvents [cb] :: polls) = pollLoop wi m polls.
Proof.
  intros H.
  assert (callback wi m cb = (m, [])) as Hcb.
  { destruct cb as [ | button action mods | | | key sc action mods | | ];
      cbn [unsupported] in H;
      [ discriminate H | | discriminate H | discriminate H | | discriminate H
      | discriminate H ];
      apply bool_decide_eq_true in H; cbn [callback]; by rewrite H. }
  split; [exact Hcb | ]. cbn [pollLoop callbacks]. by rewrite Hcb.
Qed.

Lemma unsupported_codes_are_dropped_witness :
  let wi := window hiDPI 4 3 in
  (callback wi (Mouse_ 1 1) (MouseButton 3 glfw.Press 0) = (Mouse_ 1 1, []) /\
   pollLoop wi (Mouse_ 1 1) [WaitEvents [MouseButton 3 glfw.Press 0]] = []) /\
  (callback wi (Mouse_ 1 1) (KeyPressed 65 38 glfw.Press 0) = (Mouse_ 1 1, []) /\
   pollLoop wi (Mouse_ 1 1) [WaitEvents [KeyPressed 65 38 glfw.Press 0]] = []).
Proof.
  split.
  - apply (unsupported_codes_are_dropped (window hiDPI 4 3) (Mouse_ 1 1)
             (MouseButton 3 glfw.Press 0) []).
    vm_compute. reflexivity.
  - apply (unsupported_codes_are_dropped (window hiDPI 4 3) (Mouse_ 1 1)
             (KeyPressed 65 38 glfw.Press 0) []).
    vm_compute. reflexivity.
Defined.

(** C10. For a window [New] returns, the event thread sends, before it
    polls for the first time, exactly one event: a [Resize] of the bounds
    of the initial surface, which are (0, 0, width*ratio, height*ratio)
    for the width and height left in the options after the second window
    was created; whatever the polls deliver comes after it. *)
Theorem first_event_is_initial_resize
    (cw : options -> option glfw.Window) (opts : list Option) (wi : Win) :
  New cw opts = Ok wi ->
  exists gw1 o1 gw2 o2,
    makeGLFWWin cw (requested opts) = Some (gw1, o1) /\
    makeGLFWWin cw
      (if ratio wi =? 1 then o1
       else set_size (goint.quot (width o1) (ratio wi))
                     (goint.quot (height o1) (ratio wi)) o1) = Some (gw2, o2) /\
    Bounds (img wi) =
      Rect 0 0 (goint.mul (width o2) (ratio wi)) (goint.mul (height o2) (ratio wi)) /\
    eventThread wi [] = [SendEvent (Resize (Bounds (img wi)))] /\
    forall polls,
      eventThread wi polls =
        SendEvent (Resize (Bounds (img wi))) :: pollLoop wi (Mouse_ 0 0) polls /\
      events (eventThread wi polls) =
        Resize (Bounds (img wi)) :: events (pollLoop wi (Mouse_ 0 0) polls).
Proof.
  intros Hnew. unfold New in Hnew. fold (requested opts) in Hnew.
  destruct (makeGLFWWin cw (requested opts)) as [[gw1 o1] | ] eqn:E1;
    [ | discriminate].
  cbn [glfw.GetFramebufferSize] in Hnew.
  destruct (goint.quo _ _) as [q | ]; [ | discriminate].
  set (rt := if q <? 1 then 1 else q) in *.
  set (o' := if negb (rt =? 1)
             then set_size (goint.quot (width o1) rt) (goint.quot (height o1) rt) o1
             else o1) in *.
  destruct (makeGLFWWin cw o') as [[gw2 o2] | ] eqn:E2; [ | discriminate].
  inversion Hnew as [Hwi]. cbn [ratio img].
  exists gw1, o1, gw2, o2. split; [reflexivity | ].
  split.
  { rewrite <- E2. subst o'. by destruct (rt =? 1). }
  split; [reflexivity | ]. split; [reflexivity | ].
  intros polls. split; reflexivity.
Qed.

Lemma first_event_is_initial_resize_witness :
  exists wi,
    New hiDPI [Size 4 3] = Ok wi /\
    eventThread wi [WaitEvents [CursorPos (whole 1) (whole 1)]] =
      [SendEvent (Resize (Rect 0 0 4 2)); SendEvent (MoMove (Pt 2 2))] /\
    exists gw1 o1 gw2 o2,
      makeGLFWWin hiDPI (requested [Size 4 3]) = Some (gw1, o1) /\
      makeGLFWWin hiDPI
        (if ratio wi =? 1 then o1
         else set_size (goint.quot (width o1) (ratio wi))
                       (goint.quot (height o1) (ratio wi)) o1) = Some (gw2, o2) /\
      Bounds (img wi) =
        Rect 0 0 (goint.mul (width o2) (ratio wi)) (goint.mul (height o2) (ratio wi)) /\
      eventThread wi [] = [SendEvent (Resize (Bounds (img wi)))] /\
      forall polls,
        eventThread wi polls =
          SendEvent (Resize (Bounds (img wi))) :: pollLoop wi (Mouse_ 0 0) polls /\
        events (eventThread wi polls) =
          Resize (Bounds (img wi)) :: events (pollLoop wi (Mouse_ 0 0) polls).
Proof.
  eexists. split; [reflexivity | ]. split; [reflexivity | ].
  apply (first_event_is_initial_resize hiDPI [Size 4 3]). reflexivity.
Defined.


(** C5. A resize to bounds [r] (in either window file, at either
    [select]) is serviced, and the surface afterwards has bounds [r],
    shows the old pixel wherever the old and the new bounds overlap, and
    is transparent (zero RGBA) in the rest of [r]. *)
Theorem resize_keeps_overlap_and_clears_rest (t : Thread) (r : Rectangle) :
  pc t <> Returned -> 0 <= Dx r -> 0 <= Dy r ->
  exists t1 out1 t2 out2,
    win.step t (NewSize r) = Some (t1, out1) /\
    winflush.step t (NewSize r) = Some (t2, out2) /\
    img (this t1) = img (this t2) /\
    Bounds (img (this t1)) = r /\
    forall x y, PtIn (Pt x y) r = true ->
      RGBAAt (img (this t1)) x y =
      if PtIn (Pt x y) (Bounds (img (this t)))
      then RGBAAt (img (this t)) x y
      else color.zero.
Proof.
  intros Hpc Hx Hy.
  destruct (resized_spec (img (this t)) r Hx Hy) as (_ & Hb & Hat).
  unfold win.step, winflush.step.
  destruct (pc t) eqn:E; [ | | congruence]; simpl;
    do 4 eexists; (split; [reflexivity | split; [reflexivity | ] ]); simpl;
    (split; [reflexivity | split; [exact Hb | ] ]);
    intros x y Hin; rewrite Hat, Hin, andb_true_r; reflexivity.
Qed.

Lemma resize_keeps_overlap_and_clears_rest_witness :
  exists t1 out1 t2 out2,
    win.step (Thread_ (window loDPI 2 2) ZR Outer 4 0) (NewSize (Rect 0 0 3 1))
      = Some (t1, out1) /\
    winflush.step (Thread_ (window loDPI 2 2) ZR Outer 4 0) (NewSize (Rect 0 0 3 1))
      = Some (t2, out2) /\
    img (this t1) = img (this t2) /\
    Bounds (img (this t1)) = Rect 0 0 3 1 /\
    forall x y, PtIn (Pt x y) (Rect 0 0 3 1) = true ->
      RGBAAt (img (this t1)) x y =
      if PtIn (Pt x y) (Bounds (img (window loDPI 2 2)))
      then RGBAAt (img (window loDPI 2 2)) x y
      else color.zero.
Proof.
  apply (resize_keeps_overlap_and_clears_rest
           (Thread_ (window loDPI 2 2) ZR Outer 4 0) (Rect 0 0 3 1)).
  - discriminate.
  - vm_compute. discriminate.
  - vm_compute. discriminate.
Defined.

(** C7, as the code has it.  In [win/win.go], a flush whose rectangle
    meets the surface in a non-empty [R] uploads the sub-image of [R] and
    then, twice over, clears the depth buffer under a scissor box equal to
    [R] (flipped to the framebuffer's bottom-left origin), draws triangles
    from the quad's vertex array with the compositing program and texture
    bound and with blending on under the factors (ONE,
    ONE_MINUS_SRC_ALPHA), and swaps buffers; afterwards blending is off and
    depth testing is on. *)
Theorem render_gui_blends_on_both_buffers
    (wi : Win) (r : Rectangle) (g : gl.State) :
  let R := Intersect r (Bounds (img wi)) in
  let box := (goint.int32 (X (Min R)),
              goint.sub32 (goint.int32 (glfw.FramebufferHeight (w wi)))
                          (goint.int32 (Y (Max R))),
              goint.int32 (Dx R), goint.int32 (Dy R)) in
  Empty R = false ->
  exists c1 d1 c2 d2 n,
    gl.work g (openGLRenderGui wi r) =
      [gl.Uploaded (guiTexture wi)
         (goint.int32 (X (Min R))) (goint.int32 (Y (Min R)))
         (goint.int32 (Dx R)) (goint.int32 (Dy R))
         (Pix (draw.Draw (NewRGBA R) R (img wi) (Min R)));
       gl.Cleared c1 false true; gl.Drawn d1 gl.TRIANGLES 0 n; gl.Swapped;
       gl.Cleared c2 false true; gl.Drawn d2 gl.TRIANGLES 0 n; gl.Swapped] /\
    Forall (fun c => gl.scissor_test c = true /\ gl.scissor_box c = box)
      [c1; c2] /\
    Forall (fun d =>
              gl.blend d = true /\
              gl.blend_src d = gl.ONE /\
              gl.blend_dst d = gl.ONE_MINUS_SRC_ALPHA /\
              gl.depth_test d = true /\
              gl.scissor_test d = false /\
              gl.program d = guiShader wi /\
              gl.vertex_array d = quadVao wi /\
              gl.texture_unit0 d = guiTexture wi)
      [d1; d2] /\
    gl.blend (gl.run g (openGLRenderGui wi r)) = false /\
    gl.depth_test (gl.run g (openGLRenderGui wi r)) = true.
Proof.
  intros R box E. subst box. unfold openGLRenderGui. cbv zeta. fold R.
  rewrite E. unfold composite, renderPass. cbn [glfw.GetFramebufferSize].
  cbn [app gl.work gl.run fold_left gl.exec gl.set_cap
       gl.depth_test gl.scissor_test gl.blend gl.depth_func gl.blend_src
       gl.blend_dst gl.scissor_box gl.program gl.vertex_array
       gl.active_texture gl.texture_unit0 Z.eqb].
  do 5 eexists. split; [reflexivity | ].
  split; [repeat constructor | ].
  split; [repeat constructor | ].
  split; reflexivity.
Qed.

Lemma render_gui_blends_on_both_buffers_witness :
  let wi := window loDPI 4 3 in
  let r := Rect 1 1 9 2 in
  let R := Intersect r (Bounds (img wi)) in
  let box := (1, 1, 3, 1) in
  R = Rect 1 1 4 2 /\
  exists c1 d1 c2 d2 n,
    gl.work context (openGLRenderGui wi r) =
      [gl.Uploaded (guiTexture wi)
         (goint.int32 (X (Min R))) (goint.int32 (Y (Min R)))
         (goint.int32 (Dx R)) (goint.int32 (Dy R))
         (Pix (draw.Draw (NewRGBA R) R (img wi) (Min R)));
       gl.Cleared c1 false true; gl.Drawn d1 gl.TRIANGLES 0 n; gl.Swapped;
       gl.Cleared c2 false true; gl.Drawn d2 gl.TRIANGLES 0 n; gl.Swapped] /\
    Forall (fun c => gl.scissor_test c = true /\ gl.scissor_box c = box)
      [c1; c2] /\
    Forall (fun d =>
              gl.blend d = true /\
              gl.blend_src d = gl.ONE /\
              gl.blend_dst d = gl.ONE_MINUS_SRC_ALPHA /\
              gl.depth_test d = true /\
              gl.scissor_test d = false /\
              gl.program d = guiShader wi /\
              gl.vertex_array d = quadVao wi /\
              gl.texture_unit0 d = guiTexture wi)
      [d1; d2] /\
    gl.blend (gl.run context (openGLRenderGui wi r)) = false /\
    gl.depth_test (gl.run context (openGLRenderGui wi r)) = true.
Proof.
  split; [reflexivity | ].
  apply (render_gui_blends_on_both_buffers (window loDPI 4 3) (Rect 1 1 9 2) context).
  reflexivity.
Defined.

(** C7, as the claim has it, fails on the window file without the GL
    channel: its flush of the whole (non-empty) surface, from a context in
    its default state, is one upload and one draw call with blending off,
    with no depth clear, no scissor and no buffer swap, and blending was
    never switched. *)
Lemma flush_draws_once_without_blending :
  let wi := window loDPI 2 1 in
  let r := Bounds (img wi) in
  Empty (Intersect r (Bounds (img wi))) = false /\
  gl.work context (winflush.openGLFlush wi r) =
    [gl.Uploaded 1 0 0 2 1 [0; 0; 0; 0; 0; 0; 0; 0];
     gl.Drawn (gl.State_ false false false gl.LESS gl.ONE gl.ZERO (0, 0, 0, 0) 2 3 0 1)
       gl.TRIANGLES 0 36] /\
  Forall (fun c => c <> gl.Enable gl.BLEND /\ c <> gl.Clear false true)
    (winflush.openGLFlush wi r).
Proof.
  split; [reflexivity | ]. split; [reflexivity | ].
  vm_compute. repeat constructor; discriminate.
Qed.

End Claims.

(** * Further theorems *)

Section Further.
Import image win spec props.

(** No reported pixel is left out of a flush.  After any run of serviced
    submissions from the outer wait, a point that lies in one of the
    reported rectangles and in the surface lies in the rectangle that the
    timer flush composites (and so the flush is not skipped). *)
Theorem flush_covers_every_reported_pixel
    (t : Thread) (ms : list Msg) (r : Rectangle) (p : Point) :
  pc t = Outer -> forallb serviced ms = true ->
  r ∈ reported (img (this t)) ms ->
  PtIn p r = true ->
  PtIn p (Bounds (surface (img (this t)) ms)) = true ->
  (exists t1 out1 t2 damage,
     win.run t ms = Some (t1, out1) /\
     win.step t1 Tick =
       Some (t2, composite (this t1) damage ++ [gl.SwapBuffers]) /\
     PtIn p damage = true) /\
  (existsb isGL ms = false ->
   exists t1 out1 t2 damage,
     winflush.run t ms = Some (t1, out1) /\
     winflush.step t1 Tick = Some (t2, winflush.present (this t1) damage) /\
     PtIn p damage = true).
Proof.
  intros Hpc Hall Hr Hp Hb.
  destruct ms as [ | m ms]; [by apply elem_of_nil in Hr | ].
  set (im := img (this t)) in *.
  set (damage := Intersect (unionAll (reported im (m :: ms)))
                           (Bounds (surface im (m :: ms)))).
  assert (PtIn p damage = true) as Hd.
  { unfold damage. rewrite PtIn_Intersect, Hb, andb_true_r.
    unfold unionAll. eapply PtIn_fold_Union; eassumption. }
  assert (Empty damage = false) as He.
  { destruct (Empty damage) eqn:E; [ | reflexivity].
    by rewrite (PtIn_Empty _ _ E) in Hd. }
  split.
  - destruct (win_run_outer m ms t Hpc Hall)
      as (t1 & out1 & Hrun & Hpc1 & Htr & Him & _).
    exists t1, out1. eexists. exists damage. split; [exact Hrun | ].
    split; [ | exact Hd].
    unfold win.step. rewrite Hpc1. unfold openGLRenderGui.
    rewrite Htr, Him. fold im. fold damage. by rewrite He.
  - intros Hgl.
    destruct (winflush_run_outer m ms t Hpc Hall Hgl)
      as (t1 & out1 & Hrun & Hpc1 & Htr & Him & _).
    exists t1, out1. eexists. exists damage. split; [exact Hrun | ].
    split; [ | exact Hd].
    unfold winflush.step. rewrite Hpc1. unfold winflush.openGLFlush.
    rewrite Htr, Him. fold im. fold damage. by rewrite He.
Qed.

Lemma flush_covers_every_reported_pixel_witness :
  let t := Thread_ (window loDPI 4 3) ZR Outer 4 0 in
  let ms := [Draw (fill (Rect 0 0 1 1) red); Draw (fill (Rect 2 1 5 2) red)] in
  (exists t1 out1 t2 damage,
     win.run t ms = Some (t1, out1) /\
     win.step t1 Tick =
       Some (t2, composite (this t1) damage ++ [gl.SwapBuffers]) /\
     PtIn (Pt 3 1) damage = true) /\
  (existsb isGL ms = false ->
   exists t1 out1 t2 damage,
     winflush.run t ms = Some (t1, out1) /\
     winflush.step t1 Tick = Some (t2, winflush.present (this t1) damage) /\
     PtIn (Pt 3 1) damage = true).
Proof.
  apply (flush_covers_every_reported_pixel
           (Thread_ (window loDPI 4 3) ZR Outer 4 0)
           [Draw (fill (Rect 0 0 1 1) red); Draw (fill (Rect 2 1 5 2) red)]
           (Rect 2 1 5 2) (Pt 3 1)).
  - reflexivity.
  - reflexivity.
  - vm_compute. apply list_elem_of_further, list_elem_of_here.
  - reflexivity.
  - vm_compute. reflexivity.
Defined.

(** A flush uploads exactly the damaged part of the surface.  In both
    window files the first thing a flush of a non-empty clipped rectangle
    [R] asks of the GPU is one upload into the screen texture, at the
    offset and of the size of [R], whose payload holds [4 * Dx R * Dy R]
    bytes, rows packed, and at every point of [R] the pixel the surface
    has there. *)
Theorem flush_uploads_the_damaged_pixels
    (wi : Win) (r : Rectangle) (g : gl.State) :
  let R := Intersect r (Bounds (img wi)) in
  Empty R = false ->
  exists px rest1 rest2,
    gl.work g (openGLRenderGui wi r) =
      gl.Uploaded (guiTexture wi)
        (goint.int32 (X (Min R))) (goint.int32 (Y (Min R)))
        (goint.int32 (Dx R)) (goint.int32 (Dy R)) px :: rest1 /\
    gl.work g (winflush.openGLFlush wi r) =
      gl.Uploaded (guiTexture wi)
        (goint.int32 (X (Min R))) (goint.int32 (Y (Min R)))
        (goint.int32 (Dx R)) (goint.int32 (Dy R)) px :: rest2 /\
    length px = Z.to_nat (4 * Dx R * Dy R) /\
    forall x y, PtIn (Pt x y) R = true ->
      payloadPixel px (Dx R) (x - X (Min R)) (y - Y (Min R)) =
      RGBAAt (img wi) x y.
Proof.
  intros R E.
  destruct (flush_copy (img wi) r E) as (Hwf & Hr & Hat). fold R in Hwf, Hr, Hat.
  set (tmp := draw.Draw (NewRGBA R) R (img wi) (Min R)) in *.
  exists (Pix tmp). do 2 eexists.
  split.
  { unfold openGLRenderGui. cbv zeta. fold R. rewrite E.
    unfold composite. fold tmp. cbn [app gl.work]. reflexivity. }
  split.
  { unfold winflush.openGLFlush. cbv zeta. fold R. rewrite E.
    unfold winflush.present, winflush.screenTexture. fold tmp.
    cbn [gl.work]. reflexivity. }
  split.
  { destruct Hwf as (_ & _ & _ & Hl). by rewrite Hl, Hr. }
  intros x y Hin. rewrite <- (Hat x y Hin), <- Hr.
  apply payloadPixel_RGBAAt; [exact Hwf | by rewrite Hr].
Qed.

Lemma flush_uploads_the_damaged_pixels_witness :
  let wi := window loDPI 4 3 in
  let r := Rect 1 1 9 2 in
  let R := Rect 1 1 4 2 in
  exists px rest1 rest2,
    gl.work context (openGLRenderGui wi r) =
      gl.Uploaded (guiTexture wi)
        (goint.int32 (X (Min R))) (goint.int32 (Y (Min R)))
        (goint.int32 (Dx R)) (goint.int32 (Dy R)) px :: rest1 /\
    gl.work context (winflush.openGLFlush wi r) =
      gl.Uploaded (guiTexture wi)
        (goint.int32 (X (Min R))) (goint.int32 (Y (Min R)))
        (goint.int32 (Dx R)) (goint.int32 (Dy R)) px :: rest2 /\
    length px = Z.to_nat (4 * Dx R * Dy R) /\
    forall x y, PtIn (Pt x y) R = true ->
      payloadPixel px (Dx R) (x - X (Min R)) (y - Y (Min R)) =
      RGBAAt (img wi) x y.
Proof.
  apply (flush_uploads_the_damaged_pixels (window loDPI 4 3) (Rect 1 1 9 2) context).
  reflexivity.
Defined.

(** The surface invariant of the GL thread.  Along any run of either
    window file that starts from a well-formed surface at the origin and
    whose resizes are as the framebuffer callback sends them, the surface
    stays well formed (its pixel slice matches its bounds) and at the
    origin, and its bounds are those of the last resize: draw closures, GL
    closures and flushes never change them. *)
Theorem surface_bounds_follow_the_last_resize (ms : list Msg) (t : Thread) :
  WellFormed (img (this t)) ->
  atOrigin (Bounds (img (this t))) = true ->
  forallb sized ms = true ->
  (forall t' out, win.run t ms = Some (t', out) ->
     WellFormed (img (this t')) /\
     Bounds (img (this t')) = lastBounds (Bounds (img (this t))) ms /\
     atOrigin (Bounds (img (this t'))) = true) /\
  (forall t' out, winflush.run t ms = Some (t', out) ->
     WellFormed (img (this t')) /\
     Bounds (img (this t')) = lastBounds (Bounds (img (this t))) ms /\
     atOrigin (Bounds (img (this t'))) = true).
Proof.
  revert t. induction ms as [ | m ms IH]; intros t Hwf Ho Hs.
  - split; intros t' out H; inversion H; subst; auto.
  - cbn [forallb] in Hs. apply andb_true_iff in Hs as [Hm Hms].
    destruct (surface_after_message _ m Hwf Ho Hm) as (H1 & H2 & H3).
    split; intros t' out H.
    + cbn [win.run] in H.
      destruct (win.step t m) as [[t1 out1] | ] eqn:E; [ | discriminate].
      destruct (win.run t1 ms) as [[t2 out2] | ] eqn:E2; [ | discriminate].
      inversion H; subst; clear H.
      pose proof (win_step_surface _ _ _ _ E) as Hi. rewrite <- Hi in H1, H2, H3.
      destruct (IH t1 H1 H3 Hms) as [IH1 _].
      destruct (IH1 _ _ E2) as (K1 & K2 & K3).
      rewrite lastBounds_cons, <- H2. auto.
    + cbn [winflush.run] in H.
      destruct (winflush.step t m) as [[t1 out1] | ] eqn:E; [ | discriminate].
      destruct (winflush.run t1 ms) as [[t2 out2] | ] eqn:E2; [ | discriminate].
      inversion H; subst; clear H.
      pose proof (winflush_step_surface _ _ _ _ E) as Hi. rewrite <- Hi in H1, H2, H3.
      destruct (IH t1 H1 H3 Hms) as [_ IH2].
      destruct (IH2 _ _ E2) as (K1 & K2 & K3).
      rewrite lastBounds_cons, <- H2. auto.
Qed.

Lemma surface_bounds_follow_the_last_resize_witness :
  let t := Thread_ (window loDPI 4 3) ZR Outer 4 0 in
  let ms := [Draw (fill (Rect 0 0 9 9) red); NewSize (Rect 0 0 2 5); GL []; Tick;
             Draw (fill (Rect 1 1 3 3) red)] in
  (exists t' out, win.run t ms = Some (t', out) /\
     Bounds (img (this t')) = Rect 0 0 2 5) /\
  (forall t' out, win.run t ms = Some (t', out) ->
     WellFormed (img (this t')) /\
     Bounds (img (this t')) = lastBounds (Bounds (img (this t))) ms /\
     atOrigin (Bounds (img (this t'))) = true) /\
  (forall t' out, winflush.run t ms = Some (t', out) ->
     WellFormed (img (this t')) /\
     Bounds (img (this t')) = lastBounds (Bounds (img (this t))) ms /\
     atOrigin (Bounds (img (this t'))) = true).
Proof.
  split; [do 2 eexists; split; [vm_compute; reflexivity | reflexivity] | ].
  apply (surface_bounds_follow_the_last_resize
           [Draw (fill (Rect 0 0 9 9) red); NewSize (Rect 0 0 2 5); GL []; Tick;
            Draw (fill (Rect 1 1 3 3) red)]
           (Thread_ (window loDPI 4 3) ZR Outer 4 0)).
  - apply NewRGBA_WellFormed; vm_compute; discriminate.
  - reflexivity.
  - reflexivity.
Defined.

(** A resize reallocates the screen texture in [win/win.go] and only
    there.  Servicing a resize to [wd] by [ht], both positive, the GL
    thread of [win/win.go] deletes the old texture and creates one under
    the next free name, of that width and height and all transparent,
    which becomes [guiTexture]; the file without the GL channel issues no
    GL call and keeps the texture it has. *)
Theorem resize_reallocates_the_texture (t : Thread) (wd ht : Z) :
  pc t <> Returned -> 0 < wd -> 0 < ht ->
  (exists t',
     win.step t (NewSize (Rect 0 0 wd ht)) =
       Some (t',
             [gl.DeleteTextures (guiTexture (this t));
              gl.GenTextures (names t);
              gl.ActiveTexture 0;
              gl.BindTexture (names t);
              gl.TexParameteri gl.TEXTURE_MIN_FILTER gl.LINEAR;
              gl.TexParameteri gl.TEXTURE_MAG_FILTER gl.LINEAR;
              gl.TexParameteri gl.TEXTURE_WRAP_S gl.CLAMP_TO_EDGE;
              gl.TexParameteri gl.TEXTURE_WRAP_T gl.CLAMP_TO_EDGE;
              gl.TexImage2D (goint.int32 wd) (goint.int32 ht)
                (replicate (Z.to_nat (4 * wd * ht)) 0)]) /\
     guiTexture (this t') = names t /\
     names t' = names t + 1) /\
  (exists t',
     winflush.step t (NewSize (Rect 0 0 wd ht)) = Some (t', []) /\
     guiTexture (this t') = guiTexture (this t) /\
     Bounds (img (this t')) = Rect 0 0 wd ht).
Proof.
  intros Hpc Hw Hh.
  pose proof (Rect_canonical wd ht ltac:(lia) ltac:(lia)) as Hr.
  destruct (resized_spec (img (this t)) (Rect 0 0 wd ht)) as (_ & Hb & _);
    [rewrite Hr; unfold Dx; simpl; lia | rewrite Hr; unfold Dy; simpl; lia | ].
  assert (newScreenTexture (names t) wd ht =
          [gl.GenTextures (names t); gl.ActiveTexture 0; gl.BindTexture (names t);
           gl.TexParameteri gl.TEXTURE_MIN_FILTER gl.LINEAR;
           gl.TexParameteri gl.TEXTURE_MAG_FILTER gl.LINEAR;
           gl.TexParameteri gl.TEXTURE_WRAP_S gl.CLAMP_TO_EDGE;
           gl.TexParameteri gl.TEXTURE_WRAP_T gl.CLAMP_TO_EDGE;
           gl.TexImage2D (goint.int32 wd) (goint.int32 ht)
             (replicate (Z.to_nat (4 * wd * ht)) 0)]) as Htex.
  { unfold newScreenTexture. rewrite DrawUniform_zero, Hr.
    unfold NewRGBA, Dx, Dy. cbn [RGBARect Pix Min Max X Y].
    by rewrite !Z.sub_0_r. }
  assert (Dx (Rect 0 0 wd ht) = wd /\ Dy (Rect 0 0 wd ht) = ht) as [Hdx Hdy].
  { rewrite Hr. unfold Dx, Dy. simpl. lia. }
  split.
  - unfold win.step. destruct (pc t); [ | | congruence]; cbn [win.receive];
      rewrite Hb, Hdx, Hdy, Htex; eexists;
      (split; [reflexivity | split; reflexivity]).
  - unfold winflush.step. destruct (pc t); [ | | congruence];
      cbn [winflush.receive]; eexists;
      (split; [reflexivity | split; [reflexivity | exact Hb] ]).
Qed.

Lemma resize_reallocates_the_texture_witness :
  let t := Thread_ (window loDPI 4 3) ZR Outer 4 0 in
  (exists t',
     win.step t (NewSize (Rect 0 0 2 1)) =
       Some (t',
             [gl.DeleteTextures (guiTexture (this t));
              gl.GenTextures (names t);
              gl.ActiveTexture 0;
              gl.BindTexture (names t);
              gl.TexParameteri gl.TEXTURE_MIN_FILTER gl.LINEAR;
              gl.TexParameteri gl.TEXTURE_MAG_FILTER gl.LINEAR;
              gl.TexParameteri gl.TEXTURE_WRAP_S gl.CLAMP_TO_EDGE;
              gl.TexParameteri gl.TEXTURE_WRAP_T gl.CLAMP_TO_EDGE;
              gl.TexImage2D (goint.int32 2) (goint.int32 1)
                (replicate (Z.to_nat (4 * 2 * 1)) 0)]) /\
     guiTexture (this t') = names t /\
     names t' = names t + 1) /\
  (exists t',
     winflush.step t (NewSize (Rect 0 0 2 1)) = Some (t', []) /\
     guiTexture (this t') = guiTexture (this t) /\
     Bounds (img (this t')) = Rect 0 0 2 1).
Proof.
  apply (resize_reallocates_the_texture (Thread_ (window loDPI 4 3) ZR Outer 4 0) 2 1).
  - discriminate.
  - lia.
  - lia.
Defined.

(** A button event is reported where the cursor was last reported.  If
    the last cursor callback before a recognised button press (release)
    was at (x, y), the [MoDown] ([MoUp]) event carries the very point of
    the [MoMove] event sent for that callback, whatever other callbacks
    came in between. *)
Theorem button_event_is_at_the_last_cursor_move
    (wi : Win) (m : Mouse) (pre post : list Callback)
    (x y : goint.float64) (button mods : Z) (b : Button) :
  forallb (fun cb => negb (isCursor cb)) post = true ->
  buttons !! button = Some b ->
  let p := Pt (goint.mul (goint.ofFloat64 x) (ratio wi))
              (goint.mul (goint.ofFloat64 y) (ratio wi)) in
  let out action :=
    (callbacks wi m (pre ++ CursorPos x y :: post
                         ++ [MouseButton button action mods])).2 in
  exists mid,
    forallb isSend mid = true /\
    out glfw.Press =
      (callbacks wi m pre).2 ++ SendEvent (MoMove p) :: mid
        ++ [SendEvent (MoDown p b)] /\
    out glfw.Release =
      (callbacks wi m pre).2 ++ SendEvent (MoMove p) :: mid
        ++ [SendEvent (MoUp p b)].
Proof.
  intros Hpost Hb p out.
  set (m1 := Mouse_ (goint.ofFloat64 x) (goint.ofFloat64 y)).
  exists (callbacks wi m1 post).2.
  split; [apply callbacks_sends | ].
  assert (forall action ev,
    callback wi m1 (MouseButton button action mods) = (m1, [SendEvent ev]) ->
    out action = (callbacks wi m pre).2 ++ SendEvent (MoMove p)
                   :: (callbacks wi m1 post).2 ++ [SendEvent ev]) as H.
  { intros action ev Hcb. subst out. cbv beta.
    rewrite callbacks_app. cbn [snd]. f_equal.
    rewrite callbacks_cons. cbn [callback fst snd app]. cbv zeta.
    fold p. fold m1. f_equal.
    rewrite callbacks_app. cbn [snd].
    rewrite callbacks_mouse, (lastCursor_still post _ Hpost).
    f_equal. rewrite callbacks_cons, Hcb. reflexivity. }
  split; apply H; cbn [callback]; rewrite Hb; reflexivity.
Qed.

Lemma button_event_is_at_the_last_cursor_move_witness :
  let wi := window hiDPI 4 3 in
  let x := SpecFloat.S754_finite false 3 (-1) in
  let out action :=
    (callbacks wi (Mouse_ 0 0)
       ([CursorPos (whole 9) (whole 9)]
          ++ CursorPos x x :: [Scroll (whole 0) (whole 1); KeyPressed 65 0 1 0]
          ++ [MouseButton 0 action 0])).2 in
  out glfw.Press =
    [SendEvent (MoMove (Pt 18 18)); SendEvent (MoMove (Pt 2 2));
     SendEvent (MoScroll (Pt 0 1)); SendEvent (MoDown (Pt 2 2) ButtonLeft)] /\
  exists mid,
    forallb isSend mid = true /\
    out glfw.Press =
      (callbacks wi (Mouse_ 0 0) [CursorPos (whole 9) (whole 9)]).2
        ++ SendEvent (MoMove (Pt (goint.mul (goint.ofFloat64 x) (ratio wi))
                                 (goint.mul (goint.ofFloat64 x) (ratio wi))))
        :: mid
        ++ [SendEvent (MoDown (Pt (goint.mul (goint.ofFloat64 x) (ratio wi))
                                  (goint.mul (goint.ofFloat64 x) (ratio wi)))
                         ButtonLeft)] /\
    out glfw.Release =
      (callbacks wi (Mouse_ 0 0) [CursorPos (whole 9) (whole 9)]).2
        ++ SendEvent (MoMove (Pt (goint.mul (goint.ofFloat64 x) (ratio wi))
                                 (goint.mul (goint.ofFloat64 x) (ratio wi))))
        :: mid
        ++ [SendEvent (MoUp (Pt (goint.mul (goint.ofFloat64 x) (ratio wi))
                                (goint.mul (goint.ofFloat64 x) (ratio wi)))
                       ButtonLeft)].
Proof.
  split; [vm_compute; reflexivity | ].
  apply (button_event_is_at_the_last_cursor_move (window hiDPI 4 3) (Mouse_ 0 0)
           [CursorPos (whole 9) (whole 9)]
           [Scroll (whole 0) (whole 1); KeyPressed 65 0 1 0]
           (SpecFloat.S754_finite false 3 (-1)) (SpecFloat.S754_finite false 3 (-1))
           0 0 ButtonLeft).
  - reflexivity.
  - vm_compute. reflexivity.
Defined.

(** Nothing is sent on a closed channel.  Whatever the polls deliver, the
    event thread's effects are sends only, followed, exactly when some poll
    finds [finish] closed, by one close of [eventsIn] and then one
    destruction of the window, after which there is nothing. *)
Theorem event_thread_sends_then_tears_down_once (wi : Win) (polls : list Poll) :
  exists sends,
    forallb isSend sends = true /\
    eventThread wi polls =
      sends ++ (if existsb sawFinish polls
                then [CloseEventsIn; DestroyWindow] else []).
Proof.
  destruct (pollLoop_shape wi polls (Mouse_ 0 0)) as (before & Hb & Heq).
  exists (SendEvent (Resize (Bounds (img wi))) :: before).
  split; [exact Hb | ]. unfold eventThread. by rewrite Heq.
Qed.

(** A resize can be announced before it is applied.  When GLFW delivers a
    framebuffer-size callback while the GL thread waits at a [select], the
    send on [newSize] is complete as soon as the GL thread has the
    rectangle.  From there the event thread can send the [Resize] event
    before the GL thread has run the case: the event is out while the
    surface is still the old one.  Whichever comes first, once the GL
    thread has run the case the surface has the announced bounds. *)
Theorem resize_can_be_announced_before_it_is_applied
    (s : sys.State) (wd ht : Z) :
  sys.evPc s = sys.InWait -> sys.waiting s = true ->
  0 < wd -> 0 < ht ->
  let r := Rect 0 0 wd ht in
  exists s1 s2,
    sys.step s (sys.OSCallback (FramebufferSize wd ht)) = Some s1 /\
    sys.step s1 sys.EvSend = Some s2 /\
    sys.sent s2 = sys.sent s /\
    sys.glCase s2 = Some (NewSize r) /\
    img (this (sys.glT s2)) = img (this (sys.glT s)) /\
    (exists s3 s4,
       sys.step s2 sys.EvSend = Some s3 /\
       sys.sent s3 = sys.sent s ++ [Resize r] /\
       img (this (sys.glT s3)) = img (this (sys.glT s)) /\
       sys.step s3 sys.GLRuns = Some s4 /\
       Bounds (img (this (sys.glT s4))) = r) /\
    (exists s3 s4,
       sys.step s2 sys.GLRuns = Some s3 /\
       sys.sent s3 = sys.sent s /\
       Bounds (img (this (sys.glT s3))) = r /\
       sys.step s3 sys.EvSend = Some s4 /\
       sys.sent s4 = sys.sent s ++ [Resize r] /\
       Bounds (img (this (sys.glT s4))) = r).
Proof.
  intros Hev Hw Hwd Hht r.
  pose proof (Rect_canonical wd ht ltac:(lia) ltac:(lia)) as Hr.
  destruct (resized_spec (img (this (sys.glT s))) r) as (_ & Hb & _);
    [subst r; rewrite Hr; unfold Dx; simpl; lia
    | subst r; rewrite Hr; unfold Dy; simpl; lia | ].
  apply waiting_iff in Hw as Hw'. destruct Hw' as [Hc Hpc].
  assert (exists t out,
    win.step (sys.glT s) (NewSize r) = Some (t, out) /\
    Bounds (img (this t)) = r) as (t & out & Hstep & Hbt).
  { unfold win.step. destruct (pc (sys.glT s)); [ | | congruence];
      cbn [win.receive]; do 2 eexists; (split; [reflexivity | exact Hb]). }
  do 2 eexists.
  split; [cbn [sys.step]; rewrite Hev; cbn [callback]; reflexivity | ].
  split.
  { cbn [sys.step sys.evPc]. unfold sys.gl_receives.
    replace (sys.waiting _) with (sys.waiting s) by reflexivity.
    rewrite Hw. reflexivity. }
  split; [reflexivity | ]. split; [reflexivity | ]. split; [reflexivity | ].
  split.
  - do 2 eexists. split; [cbn [sys.step sys.evPc]; reflexivity | ].
    split; [reflexivity | ]. split; [reflexivity | ].
    split; [cbn [sys.step sys.glCase sys.glT sys.with_evPc sys.with_glT];
            fold r; rewrite Hstep; reflexivity | exact Hbt].
  - do 2 eexists.
    split; [cbn [sys.step sys.glCase sys.glT sys.with_evPc sys.with_glT];
            fold r; rewrite Hstep; reflexivity | ].
    split; [reflexivity | ]. split; [exact Hbt | ].
    split; [cbn [sys.step sys.evPc sys.with_glT]; reflexivity | ].
    split; [reflexivity | exact Hbt].
Qed.

Lemma resize_can_be_announced_before_it_is_applied_witness :
  exists s,
    sys.run (sys.start (window loDPI 4 3) 4) [sys.EvSelect] = Some s /\
    Bounds (img (this (sys.glT s))) = Rect 0 0 4 3 /\
    let r := Rect 0 0 8 6 in
    exists s1 s2,
      sys.step s (sys.OSCallback (FramebufferSize 8 6)) = Some s1 /\
      sys.step s1 sys.EvSend = Some s2 /\
      sys.sent s2 = sys.sent s /\
      sys.glCase s2 = Some (NewSize r) /\
      img (this (sys.glT s2)) = img (this (sys.glT s)) /\
      (exists s3 s4,
         sys.step s2 sys.EvSend = Some s3 /\
         sys.sent s3 = sys.sent s ++ [Resize r] /\
         img (this (sys.glT s3)) = img (this (sys.glT s)) /\
         sys.step s3 sys.GLRuns = Some s4 /\
         Bounds (img (this (sys.glT s4))) = r) /\
      (exists s3 s4,
         sys.step s2 sys.GLRuns = Some s3 /\
         sys.sent s3 = sys.sent s /\
         Bounds (img (this (sys.glT s3))) = r /\
         sys.step s3 sys.EvSend = Some s4 /\
         sys.sent s4 = sys.sent s ++ [Resize r] /\
         Bounds (img (this (sys.glT s4))) = r).
Proof.
  eexists. split; [vm_compute; reflexivity | ]. split; [reflexivity | ].
  apply (resize_can_be_announced_before_it_is_applied _ 8 6).
  - reflexivity.
  - reflexivity.
  - lia.
  - lia.
Defined.

(** Teardown is still to come exactly when the event thread is not
    caught.  Take any state the caller and the two threads can reach in
    which a submission channel is closed.  If the event thread is not in a
    callback with a send on [newSize] still to make while the GL thread
    has returned, the two threads reach, by steps of their own, the end of
    the event thread, with [eventsIn] closed once and the window destroyed
    once.  If it is, then whatever happens, [eventsIn] is never closed and
    the window is never destroyed. *)
Theorem teardown_is_reachable_unless_caught
    (wi : Win) (names : Z) (ls0 : list sys.Label) (s : sys.State) :
  sys.run (sys.start wi names) ls0 = Some s ->
  sys.drawClosed s || sys.drawGLClosed s = true ->
  (stuck s = false ->
   exists ls s',
     sys.run s ls = Some s' /\ forallb internal ls = true /\
     sys.evPc s' = sys.Gone /\
     sys.eventsInCloses s' = 1%nat /\ sys.destroys s' = 1%nat) /\
  (stuck s = true ->
   forall ls s',
     sys.run s ls = Some s' ->
     sys.eventsInCloses s' = 0%nat /\ sys.destroys s' = 0%nat).
Proof.
  intros Hreach Hcl.
  pose proof (sound_run _ _ _ (sound_start wi names) Hreach) as Hs.
  split.
  - intros Hst.
    destruct (reach_Gone s Hs Hcl Hst) as (ls & s' & (Hrun & Hint & _) & Hg).
    exists ls, s'. split; [exact Hrun | ]. split; [exact Hint | ].
    split; [exact Hg | ].
    destruct (sound_run _ _ _ Hs Hrun) as ((_ & Hd & _ & _ & Hev & _) & _).
    apply Hev in Hg. split; [exact Hg | congruence].
  - intros Hst ls s' Hrun.
    pose proof (stuck_run _ _ _ Hst Hrun) as Hc.
    destruct Hs as ((Hle & _ & _ & _ & Hev & _) & _).
    destruct (sound_run ls s s') as ((_ & Hd' & _) & _); [ | exact Hrun | ].
    { pose proof (sound_run _ _ _ (sound_start wi names) Hreach). assumption. }
    assert (sys.eventsInCloses s = 0%nat) as H0.
    { destruct (sys.eventsInCloses s) as [ | [ | n] ]; [reflexivity | | lia].
      assert (sys.evPc s = sys.Gone) as Hg by (by apply Hev).
      unfold stuck in Hst. by rewrite Hg in Hst. }
    split; congruence.
Qed.

Lemma teardown_is_reachable_unless_caught_witness :
  exists s,
    sys.run (sys.start (window loDPI 4 3) 4)
      [sys.CallerDraw (fill (Rect 0 0 1 1) red); sys.CallerCloseDraw;
       sys.EvSelect; sys.OSCallback (FramebufferSize 8 6)] = Some s /\
    sys.glCase s = Some (Draw (fill (Rect 0 0 1 1) red)) /\
    sys.evPc s =
      sys.InCallback [SendNewSize (Rect 0 0 8 6); SendEvent (Resize (Rect 0 0 8 6))] /\
    stuck s = false /\
    (stuck s = false ->
     exists ls s',
       sys.run s ls = Some s' /\ forallb internal ls = true /\
       sys.evPc s' = sys.Gone /\
       sys.eventsInCloses s' = 1%nat /\ sys.destroys s' = 1%nat) /\
    (stuck s = true ->
     forall ls s',
       sys.run s ls = Some s' ->
       sys.eventsInCloses s' = 0%nat /\ sys.destroys s' = 0%nat).
Proof.
  eexists. split; [vm_compute; reflexivity | ].
  split; [reflexivity | ]. split; [reflexivity | ]. split; [reflexivity | ].
  apply (teardown_is_reachable_unless_caught (window loDPI 4 3) 4
           [sys.CallerDraw (fill (Rect 0 0 1 1) red); sys.CallerCloseDraw;
            sys.EvSelect; sys.OSCallback (FramebufferSize 8 6)]).
  - vm_compute. reflexivity.
  - reflexivity.
Defined.


(** The size of the first surface.  For a window that is not started
    maximized, on an operating system that creates both windows, the
    surface [New] allocates lies at the origin and is the requested size
    rounded down, in each direction, to a multiple of the ratio: never
    larger than requested, and smaller by less than the ratio. *)
Theorem initial_surface_is_the_requested_size_rounded_down
    (cw : options -> option glfw.Window) (opts : list Option)
    (gw : glfw.Window) (wi : Win) :
  maximized (requested opts) = false ->
  cw (requested opts) = Some gw ->
  0 <= glfw.FramebufferWidth gw < 2 ^ 63 ->
  0 < width (requested opts) < 2 ^ 63 ->
  0 <= height (requested opts) < 2 ^ 63 ->
  New cw opts = Ok wi ->
  let W := width (requested opts) in
  let H := height (requested opts) in
  let r := ratio wi in
  Bounds (img wi) = Rectangle_ (Pt 0 0) (Pt (W / r * r) (H / r * r)) /\
  W - r < W / r * r <= W /\
  H - r < H / r * r <= H.
Proof.
  intros Hmax Hcw HF HW HH Hnew W H r.
  unfold New in Hnew. fold (requested opts) in Hnew.
  unfold makeGLFWWin at 1 in Hnew. rewrite Hcw, Hmax in Hnew.
  cbn [glfw.GetFramebufferSize] in Hnew. unfold goint.quo in Hnew.
  fold W H in Hnew, HW, HH.
  destruct (Z.eqb_spec W 0) as [H0 | H0]; [lia | ].
  rewrite (clamped_quot _ _ HF H0) in Hnew.
  set (rt := Z.max 1 (glfw.FramebufferWidth gw / W)) in *.
  assert (1 <= rt) as Hrt by lia.
  assert (0 <= W / rt <= W /\ 0 <= H / rt <= H) as [HWq HHq].
  { split; (split; [apply Z.div_pos; lia | apply Z.div_le_upper_bound; nia]). }
  assert (W - rt < W / rt * rt <= W /\ H - rt < H / rt * rt <= H) as [HWr HHr].
  { pose proof (Z.div_mod W rt ltac:(lia)). pose proof (Z.mod_pos_bound W rt ltac:(lia)).
    pose proof (Z.div_mod H rt ltac:(lia)). pose proof (Z.mod_pos_bound H rt ltac:(lia)).
    nia. }
  set (o' := if negb (rt =? 1)
             then set_size (goint.quot W rt) (goint.quot H rt) (requested opts)
             else requested opts) in *.
  assert (maximized o' = false /\ width o' = W / rt /\ height o' = H / rt)
    as (Hm' & Hw' & Hh').
  { subst o'. destruct (Z.eqb_spec rt 1) as [Heq | Hne]; cbn [negb].
    - rewrite Heq, !Z.div_1_r. auto.
    - cbn [set_size maximized width height]. unfold goint.quot.
      rewrite !Z.quot_div_nonneg by lia.
      rewrite !int_small by (unfold goint.in_int; lia). auto. }
  unfold makeGLFWWin in Hnew. rewrite Hm' in Hnew.
  destruct (cw o') as [gw2 | ]; [ | discriminate].
  inversion Hnew; subst wi; clear Hnew. subst r. cbn [ratio img].
  change (Bounds (NewRGBA ?x)) with x.
  rewrite Hw', Hh', !mul_small by (unfold goint.in_int; lia).
  split; [apply Rect_canonical; lia | split; assumption].
Qed.

Lemma initial_surface_is_the_requested_size_rounded_down_witness :
  exists wi,
    New hiDPI [Size 5 3] = Ok wi /\
    ratio wi = 2 /\
    Bounds (img wi) = Rectangle_ (Pt 0 0) (Pt 4 2) /\
    let W := width (requested [Size 5 3]) in
    let H := height (requested [Size 5 3]) in
    let r := ratio wi in
    Bounds (img wi) = Rectangle_ (Pt 0 0) (Pt (W / r * r) (H / r * r)) /\
    W - r < W / r * r <= W /\
    H - r < H / r * r <= H.
Proof.
  eexists. split; [vm_compute; reflexivity | ]. split; [reflexivity | ].
  split; [reflexivity | ].
  apply (initial_surface_is_the_requested_size_rounded_down hiDPI [Size 5 3]
           (glfw.Window_ 10 6)).
  - reflexivity.
  - reflexivity.
  - cbn. lia.
  - cbn. lia.
  - cbn. lia.
  - vm_compute. reflexivity.
Defined.

(** Only a fully built program releases its shaders.  [NewGLProgram]
    returns without error exactly when both shaders compile and the program
    links; it then returns the program it created and has deleted both
    shader objects.  On every failure it returns handle 0 with the error of
    the first stage that failed, and deletes nothing: the shader objects
    created up to there (one if the vertex shader failed, otherwise two)
    stay allocated. *)
Theorem program_only_if_compiled_and_linked
    (drv : glsl.Driver) (names : Z) (vs fs : string) :
  let okV := glsl.compileStatus drv glsl.VERTEX_SHADER vs in
  let okF := glsl.compileStatus drv glsl.FRAGMENT_SHADER fs in
  let okL := glsl.linkStatus drv vs fs in
  let '((program, err), calls, names') := glsl.NewGLProgram drv names vs fs in
  (err = None <-> okV && okF && okL = true) /\
  (okV && okF && okL = true ->
     program = names + 2 /\ names' = names + 3 /\
     createdShaders calls = [names; names + 1] /\
     deletedShaders calls = [names; names + 1]) /\
  (okV = false ->
     program = 0 /\
     err = Some (glsl.FailedToCompile vs (glsl.shaderLog drv glsl.VERTEX_SHADER vs)) /\
     createdShaders calls = [names] /\ deletedShaders calls = []) /\
  (okV = true -> okF = false ->
     program = 0 /\
     err = Some (glsl.FailedToCompile fs (glsl.shaderLog drv glsl.FRAGMENT_SHADER fs)) /\
     createdShaders calls = [names; names + 1] /\ deletedShaders calls = []) /\
  (okV = true -> okF = true -> okL = false ->
     program = 0 /\
     err = Some (glsl.FailedToLink (glsl.programLog drv vs fs)) /\
     createdShaders calls = [names; names + 1] /\ deletedShaders calls = []).
Proof.
  intros okV okF okL. unfold glsl.NewGLProgram, glsl.compileShader.
  fold okV okF okL.
  destruct okV, okF, okL; cbn;
    repeat split; intros; try discriminate; try reflexivity; try lia;
    replace (names + 1 + 1) with (names + 2) by lia; try reflexivity; lia.
Qed.

(** [openGLSetup] goes on without a program.  If [gl.Init] fails it
    panics.  Otherwise it always completes and leaves the window, surface
    and ratio as they were; the error of [NewGLProgram] is dropped: when a
    shader does not compile or the program does not link, [guiShader] is 0
    and the screen texture and the quad (6 vertices, 120 bytes) are created
    all the same, under the names that follow the shader stage. *)
Theorem setup_goes_on_without_a_program
    (drv : glsl.Driver) (wi : Win) (names : Z) :
  let ok := glsl.compileStatus drv glsl.VERTEX_SHADER glsl.screenVertShader
            && glsl.compileStatus drv glsl.FRAGMENT_SHADER glsl.screenFragShader
            && glsl.linkStatus drv glsl.screenVertShader glsl.screenFragShader in
  let next := (glsl.NewGLProgram drv names glsl.screenVertShader
                 glsl.screenFragShader).2 in
  if glsl.initOK drv then
    exists wi' calls,
      glsl.openGLSetup drv wi names = Ok (wi', calls, next + 3) /\
      w wi' = w wi /\ img wi' = img wi /\ ratio wi' = ratio wi /\
      guiShader wi' = (if ok then names + 2 else 0) /\
      guiTexture wi' = next /\ quadVao wi' = next + 1 /\
      glsl.Core (gl.GenTextures next) ∈ calls /\
      glsl.BufferData 120 glsl.quadVertices ∈ calls
  else glsl.openGLSetup drv wi names = Panic.
Proof.
  intros ok next. unfold glsl.openGLSetup.
  destruct (glsl.initOK drv); [ | reflexivity]. cbn [negb].
  pose proof (program_only_if_compiled_and_linked drv names
                glsl.screenVertShader glsl.screenFragShader) as H.
  cbv zeta in H. fold ok in H. subst next.
  destruct (glsl.NewGLProgram drv names glsl.screenVertShader glsl.screenFragShader)
    as [[[shader err] calls1] names1].
  destruct H as (_ & Hok & HV & HF & HL).
  cbn [glfw.GetFramebufferSize snd].
  do 2 eexists. split.
  { replace (names1 + 1 + 2) with (names1 + 3) by lia. reflexivity. }
  cbn [w img ratio guiShader guiTexture quadVao].
  split; [reflexivity | ]. split; [reflexivity | ]. split; [reflexivity | ].
  split.
  { destruct ok eqn:E; [by apply Hok | ].
    subst ok. apply andb_false_iff in E as [E | E].
    - apply andb_false_iff in E as [E | E]; [by apply HV | ].
      destruct (glsl.compileStatus drv glsl.VERTEX_SHADER glsl.screenVertShader) eqn:EV;
        [by apply HF | by apply HV].
    - destruct (glsl.compileStatus drv glsl.VERTEX_SHADER glsl.screenVertShader) eqn:EV;
        [ | by apply HV].
      destruct (glsl.compileStatus drv glsl.FRAGMENT_SHADER glsl.screenFragShader) eqn:EF;
        [by apply HL | by apply HF]. }
  split; [reflexivity | ]. split; [reflexivity | ].
  split.
  { apply elem_of_app. right. apply elem_of_app. left.
    unfold newScreenTexture. cbn [map]. apply list_elem_of_here. }
  apply elem_of_app. right. apply elem_of_app. right.
  change (Z.of_nat (length glsl.quadVertices) * 4) with 120.
  do 7 apply list_elem_of_further. apply list_elem_of_here.
Qed.

(** Decides the membership tests of a point in concrete rectangles from
    the arithmetic facts at hand. *)
Ltac decide_PtIn :=
  repeat match goal with
  | |- context [PtIn ?p ?r] =>
      let E := fresh "E" in
      destruct (PtIn p r) eqn:E;
      [ apply PtIn_iff in E; cbn [X Y Min Max] in E
      | apply not_true_iff_false in E; rewrite PtIn_iff in E;
        cbn [X Y Min Max] in E ];
      try (exfalso; lia)
  end.

(** A click picks the colour of the button under the cursor.  On a
    surface of 1280 by 721, once the second demo's seven button closures
    have been serviced, the damage is the whole button column and, for a
    press at a point right of x = 1080 inside the window, the colour the
    [MoDown] case selects is the colour the surface shows at that point.
    (In the first demo, which draws six buttons, this holds above y = 618;
    below, the case selects opaque black where nothing was drawn.) *)
Theorem click_picks_the_colour_under_the_cursor
    (t : Thread) (p : Point) (cur : color.RGBA) :
  pc t = Outer ->
  WellFormed (img (this t)) ->
  Bounds (img (this t)) = Rect 0 0 demo.windowWidth demo.windowHeight ->
  demo.windowWidth - demo.rectWidth < X p < demo.windowWidth ->
  0 <= Y p < demo.windowHeight ->
  (exists t1 out,
     win.run t demo.submitted = Some (t1, out) /\
     totalR t1 = Rect 1080 0 1280 721 /\
     demo.onMoDown p cur = RGBAAt (img (this t1)) (X p) (Y p)) /\
  (exists t1 out,
     win.run t demo.submittedSix = Some (t1, out) /\
     totalR t1 = Rect 1080 0 1280 618 /\
     (Y p < 618 ->
      demo.onMoDown p cur = RGBAAt (img (this t1)) (X p) (Y p)) /\
     (618 <= Y p ->
      demo.onMoDown p cur = color.RGBA_ 0 0 0 255 /\
      RGBAAt (img (this t1)) (X p) (Y p) = RGBAAt (img (this t)) (X p) (Y p))).
Proof.
  intros Hpc Hwf Hb Hx Hy.
  unfold demo.windowWidth, demo.rectWidth, demo.windowHeight in Hx, Hy.
  assert (demo.onMoDown p cur = demo.colors (Y p / 103)) as Hclick.
  { unfold demo.onMoDown, demo.windowWidth, demo.rectWidth, demo.rectHeight.
    rewrite Z.gtb_ltb. destruct (Z.ltb_spec (1280 - 200) (X p)); [ | lia].
    rewrite Z.quot_div_nonneg by lia. f_equal. unfold demo.uint8.
    apply Z.mod_small.
    assert (0 <= Y p / 103) by (apply Z.div_pos; lia).
    assert (Y p / 103 < 256) by (apply Z.div_lt_upper_bound; lia). lia. }
  pose proof (Z.div_mod (Y p) 103 ltac:(lia)) as Hdm.
  pose proof (Z.mod_pos_bound (Y p) 103 ltac:(lia)) as Hmod.
  set (q := Y p / 103) in *.
  assert (q = 0 \/ q = 1 \/ q = 2 \/ q = 3 \/ q = 4 \/ q = 5 \/ q = 6) as Hq by lia.
  split.
  - set (l := map (fun i => (demo.buttonRect i, demo.colors i)) (seqZ 0 7)).
    assert (demo.submitted =
            map (fun rc : Rectangle * color.RGBA => Draw (fill rc.1 rc.2)) l)
      as Hsub by reflexivity.
    destruct (surface_of_fills l _ Hwf) as (_ & _ & Hrep & Hat).
    cbv zeta in Hrep, Hat. rewrite <- Hsub in Hrep, Hat.
    destruct (win_run_outer (Draw (demo.drawButton 0))
                (map (fun i => Draw (demo.drawButton i)) (seqZ 1 6)) t Hpc
                ltac:(reflexivity))
      as (t1 & out & Hrun & _ & Htr & Him & _).
    change (Draw (demo.drawButton 0)
              :: map (fun i => Draw (demo.drawButton i)) (seqZ 1 6))
      with demo.submitted in Hrun, Htr, Him.
    exists t1, out. split; [exact Hrun | ].
    split; [rewrite Htr, Hrep; vm_compute; reflexivity | ].
    rewrite Him, Hat, Hclick, Hb.
    destruct p as [px py]. cbn [X Y] in *.
    vm_compute in l. subst l. cbn [painted].
    change (Rect 0 0 demo.windowWidth demo.windowHeight)
      with (Rectangle_ (Pt 0 0) (Pt 1280 721)).
    destruct Hq as [Hq | [Hq | [Hq | [Hq | [Hq | [Hq | Hq] ] ] ] ] ];
      rewrite Hq in *; decide_PtIn; reflexivity.
  - set (l := map (fun i => (demo.buttonRect i, demo.colors i)) (seqZ 0 6)).
    assert (demo.submittedSix =
            map (fun rc : Rectangle * color.RGBA => Draw (fill rc.1 rc.2)) l)
      as Hsub by reflexivity.
    destruct (surface_of_fills l _ Hwf) as (_ & _ & Hrep & Hat).
    cbv zeta in Hrep, Hat. rewrite <- Hsub in Hrep, Hat.
    destruct (win_run_outer (Draw (demo.drawButton 0))
                (map (fun i => Draw (demo.drawButton i)) (seqZ 1 5)) t Hpc
                ltac:(reflexivity))
      as (t1 & out & Hrun & _ & Htr & Him & _).
    change (Draw (demo.drawButton 0)
              :: map (fun i => Draw (demo.drawButton i)) (seqZ 1 5))
      with demo.submittedSix in Hrun, Htr, Him.
    exists t1, out. split; [exact Hrun | ].
    split; [rewrite Htr, Hrep; vm_compute; reflexivity | ].
    rewrite Him, Hat, Hclick, Hb.
    destruct p as [px py]. cbn [X Y] in *.
    vm_compute in l. subst l. cbn [painted].
    change (Rect 0 0 demo.windowWidth demo.windowHeight)
      with (Rectangle_ (Pt 0 0) (Pt 1280 721)).
    split; [intros Hlt | intros Hge; split].
    + destruct Hq as [Hq | [Hq | [Hq | [Hq | [Hq | [Hq | Hq] ] ] ] ] ];
        rewrite Hq in *; try lia; decide_PtIn; reflexivity.
    + assert (q = 6) as -> by lia. reflexivity.
    + decide_PtIn; reflexivity.
Qed.

Lemma click_picks_the_colour_under_the_cursor_witness :
  let t := Thread_ (window loDPI 1280 721) ZR Outer 4 0 in
  let p := Pt 1100 650 in
  let cur := color.RGBA_ 1 2 3 4 in
  (exists t1 out,
     win.run t demo.submitted = Some (t1, out) /\
     totalR t1 = Rect 1080 0 1280 721 /\
     demo.onMoDown p cur = RGBAAt (img (this t1)) (X p) (Y p)) /\
  (exists t1 out,
     win.run t demo.submittedSix = Some (t1, out) /\
     totalR t1 = Rect 1080 0 1280 618 /\
     (Y p < 618 ->
      demo.onMoDown p cur = RGBAAt (img (this t1)) (X p) (Y p)) /\
     (618 <= Y p ->
      demo.onMoDown p cur = color.RGBA_ 0 0 0 255 /\
      RGBAAt (img (this t1)) (X p) (Y p) = RGBAAt (img (this t)) (X p) (Y p))).
Proof.
  apply (click_picks_the_colour_under_the_cursor
           (Thread_ (window loDPI 1280 721) ZR Outer 4 0) (Pt 1100 650)
           (color.RGBA_ 1 2 3 4)).
  - reflexivity.
  - apply NewRGBA_WellFormed; vm_compute; discriminate.
  - reflexivity.
  - cbn [X]. unfold demo.windowWidth, demo.rectWidth. lia.
  - cbn [Y]. unfold demo.windowHeight. lia.
Defined.

(** What the closures painted is what the texture gets.  After a run of
    fills from the outer wait, the timer flush of either window file
    uploads, for every point of the damage (the union of the filled
    rectangles, cut to the surface), the colour of the last fill that
    covers the point. *)
Theorem painted_pixels_reach_the_texture
    (t : Thread) (l : list (Rectangle * color.RGBA)) (p : Point) (g : gl.State) :
  let im := img (this t) in
  let ms := map (fun rc : Rectangle * color.RGBA => Draw (fill rc.1 rc.2)) l in
  let damage := Intersect (unionAll (map fst l)) (Bounds im) in
  pc t = Outer -> WellFormed im -> PtIn p damage = true ->
  exists px,
    payloadPixel px (Dx damage) (X p - X (Min damage)) (Y p - Y (Min damage)) =
      painted l (Bounds im) p (RGBAAt im (X p) (Y p)) /\
    (exists t1 out1 t2 out2 rest,
       win.run t ms = Some (t1, out1) /\
       win.step t1 Tick = Some (t2, out2) /\
       gl.work g out2 =
         gl.Uploaded (guiTexture (this t1))
           (goint.int32 (X (Min damage))) (goint.int32 (Y (Min damage)))
           (goint.int32 (Dx damage)) (goint.int32 (Dy damage)) px :: rest) /\
    (exists t1 out1 t2 out2 rest,
       winflush.run t ms = Some (t1, out1) /\
       winflush.step t1 Tick = Some (t2, out2) /\
       gl.work g out2 =
         gl.Uploaded (guiTexture (this t1))
           (goint.int32 (X (Min damage))) (goint.int32 (Y (Min damage)))
           (goint.int32 (Dx damage)) (goint.int32 (Dy damage)) px :: rest).
Proof.
  intros im ms damage Hpc Hwf Hp.
  assert (Empty damage = false) as He.
  { destruct (Empty damage) eqn:E; [ | reflexivity].
    by rewrite (PtIn_Empty _ _ E) in Hp. }
  destruct l as [ | rc l].
  { exfalso. subst damage. cbn in He. unfold unionAll in He. cbn in He.
    rewrite Intersect_Empty_l in He; [discriminate | reflexivity]. }
  destruct (fills_serviced (rc :: l)) as [Hall Hgl]. fold ms in Hall, Hgl.
  destruct (surface_of_fills (rc :: l) im Hwf) as (Hwf' & Hb & Hrep & Hat).
  fold ms in Hwf', Hb, Hrep, Hat.
  set (sf := surface im ms) in *.
  assert (damage = Intersect (unionAll (reported im ms)) (Bounds sf)) as Hd
    by (by rewrite Hrep, Hb).
  destruct (flush_copy sf (unionAll (reported im ms))) as (Twf & Tr & Tat);
    [by rewrite <- Hd | ].
  rewrite <- Hd in Twf, Tr, Tat.
  set (tmp := draw.Draw (NewRGBA damage) damage sf (Min damage)) in *.
  exists (Pix tmp). split; [ | split].
  - destruct p as [x y]. cbn [X Y].
    rewrite <- Hat, <- (Tat x y Hp), <- Tr.
    apply payloadPixel_RGBAAt; [exact Twf | by rewrite Tr].
  - subst ms. cbn [map] in *.
    destruct (win_run_outer _ _ t Hpc Hall)
      as (t1 & out1 & Hrun & Hpc1 & Htr & Him & _).
    exists t1, out1. do 3 eexists. split; [exact Hrun | ].
    split; [unfold win.step; rewrite Hpc1; reflexivity | ].
    unfold openGLRenderGui. cbv zeta. rewrite Htr, Him. fold im. fold sf.
    rewrite <- Hd, He. unfold composite. rewrite Him. fold im. fold sf. fold tmp.
    cbn [app gl.work]. reflexivity.
  - subst ms. cbn [map] in *.
    destruct (winflush_run_outer _ _ t Hpc Hall Hgl)
      as (t1 & out1 & Hrun & Hpc1 & Htr & Him & _).
    exists t1, out1. do 3 eexists. split; [exact Hrun | ].
    split; [unfold winflush.step; rewrite Hpc1; reflexivity | ].
    unfold winflush.openGLFlush. cbv zeta. rewrite Htr, Him. fold im. fold sf.
    rewrite <- Hd, He. unfold winflush.present, winflush.screenTexture.
    rewrite Him. fold im. fold sf. fold tmp.
    cbn [gl.work]. reflexivity.
Qed.

Lemma painted_pixels_reach_the_texture_witness :
  let t := Thread_ (window loDPI 4 3) ZR Outer 4 0 in
  let l := [(Rect 0 0 2 2, red); (Rect 1 1 9 2, color.RGBA_ 0 0 255 255)] in
  let p := Pt 1 1 in
  let im := img (this t) in
  let ms := map (fun rc : Rectangle * color.RGBA => Draw (fill rc.1 rc.2)) l in
  let damage := Intersect (unionAll (map fst l)) (Bounds im) in
  exists px,
    payloadPixel px (Dx damage) (X p - X (Min damage)) (Y p - Y (Min damage)) =
      painted l (Bounds im) p (RGBAAt im (X p) (Y p)) /\
    (exists t1 out1 t2 out2 rest,
       win.run t ms = Some (t1, out1) /\
       win.step t1 Tick = Some (t2, out2) /\
       gl.work context out2 =
         gl.Uploaded (guiTexture (this t1))
           (goint.int32 (X (Min damage))) (goint.int32 (Y (Min damage)))
           (goint.int32 (Dx damage)) (goint.int32 (Dy damage)) px :: rest) /\
    (exists t1 out1 t2 out2 rest,
       winflush.run t ms = Some (t1, out1) /\
       winflush.step t1 Tick = Some (t2, out2) /\
       gl.work context out2 =
         gl.Uploaded (guiTexture (this t1))
           (goint.int32 (X (Min damage))) (goint.int32 (Y (Min damage)))
           (goint.int32 (Dx damage)) (goint.int32 (Dy damage)) px :: rest).
Proof.
  apply (painted_pixels_reach_the_texture
           (Thread_ (window loDPI 4 3) ZR Outer 4 0)
           [(Rect 0 0 2 2, red); (Rect 1 1 9 2, color.RGBA_ 0 0 255 255)]
           (Pt 1 1) context).
  - reflexivity.
  - apply NewRGBA_WellFormed; vm_compute; discriminate.
  - vm_compute. reflexivity.
Defined.

(** The scissor box stays inside the framebuffer.  When the surface has
    the size of the framebuffer (as after every resize) and that size fits
    32 bits, the conversions to [int32] lose nothing: both passes of a
    flush set the box to the damage [R] flipped to the bottom-left origin,
    and the box is non-degenerate and lies within the framebuffer. *)
Theorem scissor_box_lies_inside_the_framebuffer (wi : Win) (r : Rectangle) :
  let fw := glfw.FramebufferWidth (w wi) in
  let fh := glfw.FramebufferHeight (w wi) in
  let R := Intersect r (Bounds (img wi)) in
  Bounds (img wi) = Rect 0 0 fw fh ->
  0 <= fw < 2 ^ 31 -> 0 <= fh < 2 ^ 31 ->
  Empty R = false ->
  scissors (openGLRenderGui wi r) =
    [(X (Min R), fh - Y (Max R), Dx R, Dy R);
     (X (Min R), fh - Y (Max R), Dx R, Dy R)] /\
  0 <= X (Min R) /\ 0 <= fh - Y (Max R) /\
  0 < Dx R /\ 0 < Dy R /\
  X (Min R) + Dx R <= fw /\ fh - Y (Max R) + Dy R <= fh.
Proof.
  intros fw fh R Hb Hfw Hfh He.
  pose proof (Intersect_In_r r (Bounds (img wi))) as Hin. fold R in Hin.
  rewrite Hb, Rect_canonical in Hin by lia.
  apply In_iff in Hin as [Hin | Hin]; [congruence | ]. cbn [X Y Min Max] in Hin.
  apply Empty_false_iff in He. unfold Dx, Dy.
  split; [ | lia].
  unfold openGLRenderGui. cbv zeta. fold R.
  destruct (Empty R) eqn:E; [apply Empty_iff in E; lia | ].
  unfold composite, renderPass, glfw.GetFramebufferSize, goint.sub32.
  fold fh. cbn [app scissors omap]. unfold Dx, Dy.
  rewrite !(int32_small fh), !(int32_small (X (Min R))),
    !(int32_small (Y (Max R))), !(int32_small (X (Max R) - X (Min R))),
    !(int32_small (Y (Max R) - Y (Min R))), !(int32_small (fh - Y (Max R)))
    by lia.
  reflexivity.
Qed.

Lemma scissor_box_lies_inside_the_framebuffer_witness :
  let wi := window loDPI 4 3 in
  let r := Rect 1 1 9 2 in
  let fw := glfw.FramebufferWidth (w wi) in
  let fh := glfw.FramebufferHeight (w wi) in
  let R := Intersect r (Bounds (img wi)) in
  scissors (openGLRenderGui wi r) =
    [(X (Min R), fh - Y (Max R), Dx R, Dy R);
     (X (Min R), fh - Y (Max R), Dx R, Dy R)] /\
  0 <= X (Min R) /\ 0 <= fh - Y (Max R) /\
  0 < Dx R /\ 0 < Dy R /\
  X (Min R) + Dx R <= fw /\ fh - Y (Max R) + Dy R <= fh.
Proof.
  apply (scissor_box_lies_inside_the_framebuffer (window loDPI 4 3) (Rect 1 1 9 2)).
  - reflexivity.
  - vm_compute. split; [discriminate | reflexivity].
  - vm_compute. split; [discriminate | reflexivity].
  - reflexivity.
Defined.

(** Every flush of [win/win.go] leaves the buffers exchanged.  A timer
    flush swaps three times when the damage meets the surface (twice in
    [openGLRenderGui], once in the loop) and once when it does not; the
    pass after a GL closure adds the closure's own swaps to that.  The
    file without the GL channel never swaps in a flush. *)
Theorem a_flush_swaps_once_or_three_times (t : Thread) :
  pc t = Inner ->
  let skipped := Empty (Intersect (totalR t) (Bounds (img (this t)))) in
  (exists t' out,
     win.step t Tick = Some (t', out) /\
     swaps out = if skipped then 1%nat else 3%nat) /\
  (forall glFunc, exists t' out,
     win.step t (GL glFunc) = Some (t', out) /\
     swaps out = (swaps glFunc + if skipped then 1 else 3)%nat) /\
  (exists t' out,
     winflush.step t Tick = Some (t', out) /\ swaps out = 0%nat).
Proof.
  intros Hpc skipped. split; [ | split].
  - do 2 eexists. split; [unfold win.step; rewrite Hpc; reflexivity | ].
    rewrite swaps_app, swaps_openGLRenderGui. fold skipped.
    destruct skipped; reflexivity.
  - intros glFunc. do 2 eexists.
    split; [unfold win.step; rewrite Hpc; reflexivity | ].
    rewrite !swaps_app, swaps_openGLRenderGui. fold skipped.
    destruct skipped; reflexivity.
  - do 2 eexists. split; [unfold winflush.step; rewrite Hpc; reflexivity | ].
    unfold winflush.openGLFlush. cbv zeta.
    destruct (Empty _); reflexivity.
Qed.

Lemma a_flush_swaps_once_or_three_times_witness :
  let t := Thread_ (window loDPI 4 3) (Rect 1 1 9 2) Inner 4 0 in
  let skipped := Empty (Intersect (totalR t) (Bounds (img (this t)))) in
  (exists t' out,
     win.step t Tick = Some (t', out) /\
     swaps out = if skipped then 1%nat else 3%nat) /\
  (forall glFunc, exists t' out,
     win.step t (GL glFunc) = Some (t', out) /\
     swaps out = (swaps glFunc + if skipped then 1 else 3)%nat) /\
  (exists t' out,
     winflush.step t Tick = Some (t', out) /\ swaps out = 0%nat).
Proof.
  apply (a_flush_swaps_once_or_three_times
           (Thread_ (window loDPI 4 3) (Rect 1 1 9 2) Inner 4 0)).
  reflexivity.
Defined.

(** The first frame.  For a window [New] has made with a non-empty
    surface and [openGLSetup] has set up, [openGLThread] reaches its loop
    at the outer wait with no damage, having uploaded the whole surface,
    every pixel of it transparent black, to the texture the set-up
    generated, and having swapped three times. *)
Theorem first_frame_uploads_the_blank_surface
    (cw : options -> option glfw.Window) (opts : list Option)
    (drv : glsl.Driver) (names : Z) (wi wi1 : Win) (calls : list glsl.Call)
    (names1 : Z) (g : gl.State) :
  New cw opts = Ok wi ->
  glsl.openGLSetup drv wi names = Ok (wi1, calls, names1) ->
  let b := Bounds (img wi) in
  Empty b = false ->
  glsl.Core (gl.GenTextures (guiTexture wi1)) ∈ calls /\
  pc (win.openGLThread wi1 names1).1 = Outer /\
  totalR (win.openGLThread wi1 names1).1 = ZR /\
  swaps (win.openGLThread wi1 names1).2 = 3%nat /\
  exists px rest,
    gl.work g (win.openGLThread wi1 names1).2 =
      gl.Uploaded (guiTexture wi1)
        (goint.int32 (X (Min b))) (goint.int32 (Y (Min b)))
        (goint.int32 (Dx b)) (goint.int32 (Dy b)) px :: rest /\
    length px = Z.to_nat (4 * Dx b * Dy b) /\
    forall x y, PtIn (Pt x y) b = true ->
      payloadPixel px (Dx b) (x - X (Min b)) (y - Y (Min b)) = color.zero.
Proof.
  intros Hnew Hset b He.
  assert (exists r, img wi = NewRGBA r) as [r0 Himg].
  { unfold New in Hnew.
    repeat match type of Hnew with
    | match ?x with _ => _ end = _ => destruct x as [ [? ?] | ]; try discriminate Hnew
    | (let '(_, _) := ?x in _) = _ => destruct x
    | match ?x with _ => _ end = _ => destruct x; try discriminate Hnew
    end.
    inversion Hnew as [Hwi]. eexists. reflexivity. }
  unfold glsl.openGLSetup in Hset.
  destruct (glsl.initOK drv); [ | discriminate Hset]. cbn [negb] in Hset.
  destruct (glsl.NewGLProgram drv names glsl.screenVertShader glsl.screenFragShader)
    as [ [ [shader e] calls1] names0].
  unfold glfw.GetFramebufferSize in Hset. cbv zeta in Hset.
  injection Hset as <- <- <-.
  set (wi1' := Win_ (w wi) (img wi) (ratio wi) names0 shader (names0 + 1)).
  assert (Intersect b (Bounds (img wi1')) = b) as Hbb.
  { apply In_Intersect_id; [exact He | apply In_refl]. }
  split.
  { apply elem_of_app. right. apply list_elem_of_here. }
  split; [reflexivity | ]. split; [reflexivity | ].
  split.
  { unfold win.openGLThread. cbn [snd].
    rewrite swaps_app, swaps_openGLRenderGui.
    change (Bounds (img wi1')) with b. rewrite (In_Intersect_id b b He (In_refl b)), He.
    reflexivity. }
  destruct (flush_copy (img wi) b) as (Twf & Tr & Tat);
    [by fold b; rewrite (In_Intersect_id b b He (In_refl b)) | ].
  fold b in Twf, Tr, Tat. rewrite (In_Intersect_id b b He (In_refl b)) in Twf, Tr, Tat.
  set (tmp := draw.Draw (NewRGBA b) b (img wi) (Min b)) in *.
  exists (Pix tmp). eexists. split; [ | split].
  - unfold win.openGLThread, openGLRenderGui. cbn [snd]. cbv zeta.
    change (Bounds (img wi1')) with b. rewrite (In_Intersect_id b b He (In_refl b)), He.
    unfold composite. change (img wi1') with (img wi). fold tmp.
    cbn [app gl.work]. reflexivity.
  - destruct Twf as (_ & _ & _ & Hl). by rewrite Hl, Tr.
  - intros x y Hin.
    rewrite <- (RGBAAt_NewRGBA r0 x y), <- Himg, <- (Tat x y Hin), <- Tr.
    apply payloadPixel_RGBAAt; [exact Twf | by rewrite Tr].
Qed.

Lemma first_frame_uploads_the_blank_surface_witness :
  let wi := Win_ (glfw.Window_ 4 3) (NewRGBA (Rect 0 0 4 3)) 1 0 0 0 in
  let wi1 := Win_ (glfw.Window_ 4 3) (NewRGBA (Rect 0 0 4 3)) 1 8 7 9 in
  let calls :=
    match glsl.openGLSetup goodDriver wi 5 with
    | Ok (_, calls, _) => calls
    | _ => []
    end in
  let b := Bounds (img wi) in
  glsl.Core (gl.GenTextures (guiTexture wi1)) ∈ calls /\
  pc (win.openGLThread wi1 11).1 = Outer /\
  totalR (win.openGLThread wi1 11).1 = ZR /\
  swaps (win.openGLThread wi1 11).2 = 3%nat /\
  exists px rest,
    gl.work context (win.openGLThread wi1 11).2 =
      gl.Uploaded (guiTexture wi1)
        (goint.int32 (X (Min b))) (goint.int32 (Y (Min b)))
        (goint.int32 (Dx b)) (goint.int32 (Dy b)) px :: rest /\
    length px = Z.to_nat (4 * Dx b * Dy b) /\
    forall x y, PtIn (Pt x y) b = true ->
      payloadPixel px (Dx b) (x - X (Min b)) (y - Y (Min b)) = color.zero.
Proof.
  apply (first_frame_uploads_the_blank_surface loDPI [Size 4 3] goodDriver 5
           (Win_ (glfw.Window_ 4 3) (NewRGBA (Rect 0 0 4 3)) 1 0 0 0)
           (Win_ (glfw.Window_ 4 3) (NewRGBA (Rect 0 0 4 3)) 1 8 7 9)
           _ 11 context).
  - vm_compute. reflexivity.
  - vm_compute. reflexivity.
  - reflexivity.
Defined.

(** The quad holds six vertices, each draw call asks for thirty-six.
    Whenever the set-up completes, it has loaded one buffer of 120 bytes
    and reads it through two attribute pointers of stride 20, which makes
    six vertices; every draw call of [openGLRenderGui] on the window it
    leaves runs from vertex 0 up to vertex 36.  (The set-up fails only by
    the panic after [gl.Init].) *)
Theorem draw_calls_ask_for_more_vertices_than_the_quad_holds
    (drv : glsl.Driver) (wi : Win) (names : Z) (r : Rectangle) :
  match glsl.openGLSetup drv wi names with
  | Ok (wi1, calls, _) =>
      bufferBytes calls = [120] /\ strides calls = [20; 20] /\
      Forall (fun n => n = 36) (drawn (openGLRenderGui wi1 r))
  | _ => glsl.initOK drv = false
  end.
Proof.
  unfold glsl.openGLSetup.
  destruct (glsl.initOK drv); [ | reflexivity]. cbn [negb].
  destruct (glsl.NewGLProgram drv names glsl.screenVertShader glsl.screenFragShader)
    as [ [ [shader e] calls1] names0] eqn:Hp.
  unfold glfw.GetFramebufferSize. cbv zeta.
  assert (bufferBytes calls1 = [] /\ strides calls1 = []) as [Hb Hs].
  { unfold glsl.NewGLProgram, glsl.compileShader in Hp.
    repeat match type of Hp with
    | context [if ?c then _ else _] => destruct c
    end; inversion Hp; split; reflexivity. }
  unfold bufferBytes, strides in *.
  rewrite !omap_app, Hb, Hs.
  split; [reflexivity | ]. split; [reflexivity | ].
  unfold openGLRenderGui. cbv zeta.
  destruct (Empty _); [apply Forall_nil_2 | ].
  cbn [composite renderPass glfw.GetFramebufferSize app drawn omap].
  repeat constructor.
Qed.

(** A window started maximized gets the ratio 1.  [makeGLFWWin] puts the
    framebuffer size of the window it has made into the options, so [New]
    divides the framebuffer width by itself; the surface then has the
    framebuffer size of the window that is kept (sizes inside the [int]
    range). *)
Theorem maximized_window_gets_ratio_1
    (cw : options -> option glfw.Window) (opts : list Option)
    (gw : glfw.Window) (wi : Win) :
  maximized (requested opts) = true ->
  cw (requested opts) = Some gw ->
  0 < glfw.FramebufferWidth gw < 2 ^ 63 ->
  goint.in_int (glfw.FramebufferWidth (w wi)) ->
  goint.in_int (glfw.FramebufferHeight (w wi)) ->
  New cw opts = Ok wi ->
  ratio wi = 1 /\
  Bounds (img wi) =
    Rect 0 0 (glfw.FramebufferWidth (w wi)) (glfw.FramebufferHeight (w wi)).
Proof.
  intros Hmax Hcw HF Hiw Hih Hnew.
  unfold New in Hnew. fold (requested opts) in Hnew.
  unfold makeGLFWWin at 1 in Hnew. rewrite Hcw, Hmax in Hnew.
  cbn [glfw.GetFramebufferSize width set_size] in Hnew.
  unfold goint.quo in Hnew.
  destruct (Z.eqb_spec (glfw.FramebufferWidth gw) 0) as [H0 | H0]; [lia | ].
  rewrite (clamped_quot (glfw.FramebufferWidth gw) (glfw.FramebufferWidth gw)
             ltac:(lia) H0) in Hnew.
  rewrite Z.div_same in Hnew by lia. change (Z.max 1 1) with 1 in Hnew.
  cbn [Z.eqb Pos.eqb negb] in Hnew.
  unfold makeGLFWWin in Hnew. cbn [maximized set_size] in Hnew.
  rewrite Hmax in Hnew.
  match type of Hnew with
  | context [cw ?o] => destruct (cw o) as [gw2 | ]; [ | discriminate]
  end.
  cbn [glfw.GetFramebufferSize width height set_size] in Hnew.
  injection Hnew as <-. cbn [w ratio img] in *.
  split; [reflexivity | ].
  change (Bounds (NewRGBA ?r)) with r.
  by rewrite !mul_small by (rewrite Z.mul_1_r; assumption); rewrite !Z.mul_1_r.
Qed.

Lemma maximized_window_gets_ratio_1_witness :
  let wi := Win_ (glfw.Window_ 8 6) (NewRGBA (Rect 0 0 8 6)) 1 0 0 0 in
  New maximizing [Size 4 3; Maximized] = Ok wi /\
  width (requested [Size 4 3; Maximized]) = 4 /\
  ratio wi = 1 /\
  Bounds (img wi) =
    Rect 0 0 (glfw.FramebufferWidth (w wi)) (glfw.FramebufferHeight (w wi)).
Proof.
  split; [vm_compute; reflexivity | ]. split; [reflexivity | ].
  apply (maximized_window_gets_ratio_1 maximizing [Size 4 3; Maximized]
           (glfw.Window_ 8 6)
           (Win_ (glfw.Window_ 8 6) (NewRGBA (Rect 0 0 8 6)) 1 0 0 0)).
  - reflexivity.
  - reflexivity.
  - cbn. lia.
  - vm_compute. split; [discriminate | reflexivity].
  - vm_compute. split; [discriminate | reflexivity].
  - vm_compute. reflexivity.
Defined.

End Further.
